(** * UTrie3: a frozen code point trie (icu4c/source/common/utrie3.cpp)

    A shallow embedding of the public UTrie3 functions and the proofs of
    their properties: point lookup, range enumeration, the serialized form,
    cloning, version detection, the backward UTF-8 helper, byte swapping
    and the debugging output.

    Conventions.
    - C integers are [Z]; casts and shifts that can wrap are written out.
    - Memory that the C code reads through a pointer is a list; a read
      outside the list has no defined result and is [None].
    - Serialized images are lists of bytes, read in little-endian order
      (the byte order of the image and of the host agree).
    - Out-parameters are passed in and returned. *)

From Stdlib Require Import ZArith List Lia Bool String.
From Stdlib Require Init.Byte.
Import ListNotations.
Local Open Scope Z_scope.

(** ** Reads that may leave the array *)

Definition zth {A : Type} (l : list A) (i : Z) : option A :=
  if i <? 0 then None else nth_error l (Z.to_nat i).

Definition zlen {A : Type} (l : list A) : Z := Z.of_nat (List.length l).

Definition obind {A B : Type} (o : option A) (k : A -> option B) : option B :=
  match o with
  | Some a => k a
  | None => None
  end.

Notation "x <- e ;; k" := (obind e (fun x => k))
  (at level 61, e at next level, right associativity).
Notation "' pat <- e ;; k" := (obind e (fun x => let 'pat := x in k))
  (at level 61, pat pattern, e at next level, right associativity).

(** ** Layout constants *)

Module Layout.

(** Modelled from the spec: utrie3.h and utrie3_impl.h, which declare these
    constants, are not among the sources; the values are those of the
    geometry table of the specification (section 3.2). *)
Definition UTRIE3_SHIFT_1 : Z := 14.
Definition UTRIE3_SHIFT_2 : Z := 5.
Definition UTRIE3_SHIFT_1_2 : Z := UTRIE3_SHIFT_1 - UTRIE3_SHIFT_2.
Definition UTRIE3_INDEX_SHIFT : Z := 2.
Definition UTRIE3_DATA_BLOCK_LENGTH : Z := Z.shiftl 1 UTRIE3_SHIFT_2.
Definition UTRIE3_DATA_MASK : Z := UTRIE3_DATA_BLOCK_LENGTH - 1.
Definition UTRIE3_INDEX_2_BLOCK_LENGTH : Z := Z.shiftl 1 UTRIE3_SHIFT_1_2.
Definition UTRIE3_INDEX_2_MASK : Z := UTRIE3_INDEX_2_BLOCK_LENGTH - 1.
Definition UTRIE3_CP_PER_INDEX_1_ENTRY : Z := Z.shiftl 1 UTRIE3_SHIFT_1.
Definition UTRIE3_INDEX_2_BMP_LENGTH : Z := Z.shiftr 0x10000 UTRIE3_SHIFT_2.
Definition UTRIE3_OMITTED_BMP_INDEX_1_LENGTH : Z := Z.shiftr 0x10000 UTRIE3_SHIFT_1.
Definition UTRIE3_INDEX_1_OFFSET : Z := UTRIE3_INDEX_2_BMP_LENGTH.

(** Modelled from the spec: the smallest data length that utrie3_swap
    accepts is declared in utrie3_impl.h; the specification fixes the first
    128 data entries as the values of U+0000..U+007F (section 4.1). *)
Definition UTRIE3_DATA_START_OFFSET : Z := 128.

(** Modelled from the spec: the signature is the text Tri3 (section 4.3),
    written like the UTrie and UTrie2 signatures defined in utrie3.cpp. *)
Definition UTRIE3_SIG : Z := 0x54726933.
Definition UTRIE3_OE_SIG : Z := 0x33697254.

(** Modelled from the spec: the options word is
    [(dataNullOffset << 12) | valueWidthCode] with reserved bits [0x0F00]
    (section 4.3); the value-width code owns the remaining low byte. *)
Definition UTRIE3_OPTIONS_RESERVED_MASK : Z := 0x0F00.
Definition UTRIE3_OPTIONS_VALUE_BITS_MASK : Z := 0xFF.

(** The header is two 32-bit words, four 16-bit words and two 32-bit
    words (section 4.3). *)
Definition sizeof_UTrie3Header : Z := 24.

(** utrie3.cpp, lines 417-421 and 205. *)
Definition UTRIE_SIG : Z := 0x54726965.
Definition UTRIE_OE_SIG : Z := 0x65697254.
Definition UTRIE2_SIG : Z := 0x54726932.
Definition UTRIE2_OE_SIG : Z := 0x32697254.
Definition MAX_UNICODE : Z := 0x10ffff.
Definition U_SENTINEL : Z := -1.

End Layout.
Import Layout.

(** Value widths: [UTRIE3_16_VALUE_BITS] is 0 and [UTRIE3_32_VALUE_BITS]
    is 1 (section 4.3 of the specification). *)
Definition UTRIE3_16_VALUE_BITS : Z := 0.
Definition UTRIE3_32_VALUE_BITS : Z := 1.

(** ** The frozen trie *)

(** [index] is the storage of 16-bit units that [trie->index] points to.
    [data16] is NULL ([None]) or the distance, in units, from [index] to
    the 16-bit data array: both constructors of the file place the data
    right behind the index ([p16 += indexLength]).  [data32] is NULL or the
    array of 32-bit values. *)
Record UTrie3 : Type := mkUTrie3 {
  index : list Z;
  data16 : option Z;
  data32 : option (list Z);
  indexLength : Z;
  dataLength : Z;
  index2NullOffset : Z;
  dataNullOffset : Z;
  initialValue : Z;
  errorValue : Z;
  highStart : Z;
  shiftedHighStart : Z;
  highValue : Z;
  name : string
}.

(** [(uint32_t)c] for a 32-bit signed [c]. *)
Definition to_uint32 (c : Z) : Z := c mod 2 ^ 32.
Definition to_uint16 (c : Z) : Z := c mod 2 ^ 16.

(** Modelled from the spec: the lookup macros are declared in utrie3.h.
    BMP index entries hold data offsets as they are; entries of
    supplementary index-2 blocks are shifted by [UTRIE3_INDEX_SHIFT]
    (section 4.1, note, and section 9), as utrie3_getRange does. *)
Definition _UTRIE3_INDEX_FROM_BMP (trieIndex : list Z) (c : Z) : option Z :=
  e <- zth trieIndex (Z.shiftr c UTRIE3_SHIFT_2) ;;
  Some (e + Z.land c UTRIE3_DATA_MASK).

Definition _UTRIE3_INDEX_FROM_SUPP (trieIndex : list Z) (c : Z) : option Z :=
  i2Block <- zth trieIndex
      ((UTRIE3_INDEX_1_OFFSET - UTRIE3_OMITTED_BMP_INDEX_1_LENGTH)
       + Z.shiftr c UTRIE3_SHIFT_1) ;;
  e <- zth trieIndex
      (i2Block + Z.land (Z.shiftr c UTRIE3_SHIFT_2) UTRIE3_INDEX_2_MASK) ;;
  Some (Z.shiftl e UTRIE3_INDEX_SHIFT + Z.land c UTRIE3_DATA_MASK).

(** [data32 != nullptr ? data32[di] : index[di]] *)
Definition read_data (trie : UTrie3) (di : Z) : option Z :=
  match data32 trie with
  | None => zth (index trie) di
  | Some d32 => zth d32 di
  end.

(** utrie3_get, lines 174-201. *)
Definition utrie3_get (trie : UTrie3) (c : Z) : option Z :=
  if to_uint32 c <=? 0x7f then
    match data16 trie with
    | Some d16 => zth (index trie) (d16 + c)
    | None => d32 <- data32 trie ;; zth d32 c
    end
  else if to_uint32 c <=? 0xffff then
    dataIndex <- _UTRIE3_INDEX_FROM_BMP (index trie) c ;;
    read_data trie dataIndex
  else if to_uint32 c >? 0x10ffff then Some (errorValue trie)
  else if c >=? highStart trie then Some (highValue trie)
  else
    dataIndex <- _UTRIE3_INDEX_FROM_SUPP (index trie) c ;;
    read_data trie dataIndex.

(** ** Range enumeration *)

(** The value callback with its context; [None] is the null pointer. *)
Definition UTrie3HandleValue : Type := Z -> Z.

Definition transform (handleValue : option UTrie3HandleValue) (value : Z) : Z :=
  match handleValue with
  | Some f => f value
  | None => value
  end.

(** maybeHandleValue, lines 207-215. *)
Definition maybeHandleValue (value initialValue nullValue : Z)
    (handleValue : option UTrie3HandleValue) : Z :=
  if value =? initialValue then nullValue
  else match handleValue with
       | Some f => f value
       | None => value
       end.

(** The locals of utrie3_getRange.  [sc_value] is [None] while
    [haveValue] is false.  [sc_out] is the cell [*pValue], or [None] when
    [pValue] is the null pointer. *)
Record Scan : Type := mkScan {
  sc_c : Z;
  sc_prevI2Block : Z;
  sc_prevBlock : Z;
  sc_value : option Z;
  sc_out : option Z
}.

Definition set_c (s : Scan) (c : Z) : Scan :=
  mkScan c (sc_prevI2Block s) (sc_prevBlock s) (sc_value s) (sc_out s).
Definition set_prevI2Block (s : Scan) (b : Z) : Scan :=
  mkScan (sc_c s) b (sc_prevBlock s) (sc_value s) (sc_out s).
Definition set_prevBlock (s : Scan) (b : Z) : Scan :=
  mkScan (sc_c s) (sc_prevI2Block s) b (sc_value s) (sc_out s).
Definition set_value (s : Scan) (v : Z) : Scan :=
  mkScan (sc_c s) (sc_prevI2Block s) (sc_prevBlock s) (Some v)
         (option_map (fun _ => v) (sc_out s)).

(** A piece of the function body either returns from the function, with
    the result and the final [*pValue], or falls through with new locals. *)
Inductive step : Type :=
| Return (r : Z) (out : option Z)
| Next (s : Scan).

(** The fragment that occurs at lines 264-272, 293-301 and 307-315:
    compare with the value of the range, or start the range. *)
Definition check_value (s : Scan) (x : Z) : step :=
  match sc_value s with
  | Some value => if x =? value then Next s else Return (sc_c s - 1) (sc_out s)
  | None => Next (set_value s x)
  end.

(** The loop of lines 316-322: [inl r] returns [r] from the function,
    [inr c] leaves the loop with the new [c]. *)
Fixpoint scan_block (fuel : nat) (trie : UTrie3)
    (handleValue : option UTrie3HandleValue) (nullValue value c di : Z)
    : option (Z + Z) :=
  match fuel with
  | O => None
  | S fuel' =>
      let c := c + 1 in
      if Z.land c UTRIE3_DATA_MASK =? 0 then Some (inr c)
      else
        let di := di + 1 in
        v <- read_data trie di ;;
        if maybeHandleValue v (initialValue trie) nullValue handleValue =? value
        then scan_block fuel' trie handleValue nullValue value c di
        else Some (inl (c - 1))
  end.

(** One iteration of the loop over [i2], lines 280-323. *)
Definition data_block_step (trie : UTrie3)
    (handleValue : option UTrie3HandleValue) (nullValue start i2Block i2 : Z)
    (s : Scan) : option step :=
  e <- zth (index trie) (i2Block + i2) ;;
  let block :=
    if i2Block >=? UTRIE3_INDEX_2_BMP_LENGTH
    then Z.shiftl e UTRIE3_INDEX_SHIFT else e in
  if (block =? sc_prevBlock s)
     && (sc_c s - start >=? UTRIE3_DATA_BLOCK_LENGTH)
  then Some (Next (set_c s (sc_c s + UTRIE3_DATA_BLOCK_LENGTH)))
  else
    let s := set_prevBlock s block in
    if block =? dataNullOffset trie then
      match check_value s nullValue with
      | Return r o => Some (Return r o)
      | Next s =>
          Some (Next (set_c s (Z.land (sc_c s + UTRIE3_DATA_BLOCK_LENGTH)
                                      (Z.lnot UTRIE3_DATA_MASK))))
      end
    else
      let di := block + Z.land (sc_c s) UTRIE3_DATA_MASK in
      value2 <- read_data trie di ;;
      let value2 :=
        maybeHandleValue value2 (initialValue trie) nullValue handleValue in
      match check_value s value2 with
      | Return r o => Some (Return r o)
      | Next s =>
          value <- sc_value s ;;
          r <- scan_block 32 trie handleValue nullValue value (sc_c s) di ;;
          match r with
          | inl e => Some (Return e (sc_out s))
          | inr c => Some (Next (set_c s c))
          end
      end.

(** The loop over [i2], line 279. *)
Fixpoint for_i2 (fuel : nat) (trie : UTrie3)
    (handleValue : option UTrie3HandleValue) (nullValue start i2Block i2 : Z)
    (s : Scan) : option step :=
  match fuel with
  | O => None
  | S fuel' =>
      if i2 <? UTRIE3_INDEX_2_BLOCK_LENGTH then
        r <- data_block_step trie handleValue nullValue start i2Block i2 s ;;
        match r with
        | Return e o => Some (Return e o)
        | Next s' =>
            for_i2 fuel' trie handleValue nullValue start i2Block (i2 + 1) s'
        end
      else Some (Next s)
  end.

(** What the body does once [i2Block] is known, lines 261-324. *)
Definition index2_block (trie : UTrie3)
    (handleValue : option UTrie3HandleValue) (nullValue start i2Block : Z)
    (s : Scan) : option step :=
  let s := set_prevI2Block s i2Block in
  if i2Block =? index2NullOffset trie then
    match check_value s nullValue with
    | Return r o => Some (Return r o)
    | Next s =>
        Some (Next (set_c (set_prevBlock s (dataNullOffset trie))
                (Z.land (sc_c s + UTRIE3_CP_PER_INDEX_1_ENTRY)
                        (Z.lnot (UTRIE3_CP_PER_INDEX_1_ENTRY - 1)))))
    end
  else
    for_i2 513 trie handleValue nullValue start i2Block
      (Z.land (Z.shiftr (sc_c s) UTRIE3_SHIFT_2) UTRIE3_INDEX_2_MASK) s.

(** The body of the do-while loop, lines 245-324. *)
Definition index2_step (trie : UTrie3)
    (handleValue : option UTrie3HandleValue) (nullValue start : Z)
    (s : Scan) : option step :=
  let c := sc_c s in
  if c <=? 0xffff then
    index2_block trie handleValue nullValue start
      (Z.land (Z.shiftr c UTRIE3_SHIFT_2) (Z.lnot UTRIE3_INDEX_2_MASK)) s
  else
    i2Block <- zth (index trie)
        ((UTRIE3_INDEX_1_OFFSET - UTRIE3_OMITTED_BMP_INDEX_1_LENGTH)
         + Z.shiftr c UTRIE3_SHIFT_1) ;;
    if (i2Block =? sc_prevI2Block s)
       && (c - start >=? UTRIE3_CP_PER_INDEX_1_ENTRY)
    then Some (Next (set_c s (c + UTRIE3_CP_PER_INDEX_1_ENTRY)))
    else index2_block trie handleValue nullValue start i2Block s.

(** The do-while loop, lines 244-325. *)
Fixpoint do_while (fuel : nat) (trie : UTrie3)
    (handleValue : option UTrie3HandleValue) (nullValue start : Z)
    (s : Scan) : option step :=
  match fuel with
  | O => None
  | S fuel' =>
      r <- index2_step trie handleValue nullValue start s ;;
      match r with
      | Return e o => Some (Return e o)
      | Next s' =>
          if sc_c s' <? highStart trie
          then do_while fuel' trie handleValue nullValue start s'
          else Some (Next s')
      end
  end.

(** Every turn of the do-while loop moves [c] to a later multiple of
    [UTRIE3_CP_PER_INDEX_1_ENTRY]; there is one turn per index-1 entry
    below [highStart] at most. *)
Definition range_fuel (trie : UTrie3) : nat :=
  S (Z.to_nat (Z.shiftr (highStart trie) UTRIE3_SHIFT_1)).

(** utrie3_getRange, lines 219-333.  The result is the returned code point
    and the final [*pValue]. *)
Definition utrie3_getRange (trie : UTrie3) (start : Z)
    (handleValue : option UTrie3HandleValue) (pValue : option Z)
    : option (Z * option Z) :=
  if to_uint32 start >? MAX_UNICODE then Some (U_SENTINEL, pValue)
  else if start >=? highStart trie then
    Some (MAX_UNICODE,
          option_map (fun _ => transform handleValue (highValue trie)) pValue)
  else
    let nullValue := transform handleValue (initialValue trie) in
    r <- do_while (range_fuel trie) trie handleValue nullValue start
           (mkScan start (-1) (-1) None pValue) ;;
    match r with
    | Return e o => Some (e, o)
    | Next s =>
        value <- sc_value s ;;
        if negb (maybeHandleValue (highValue trie) (initialValue trie)
                   nullValue handleValue =? value)
        then Some (sc_c s - 1, sc_out s)
        else Some (MAX_UNICODE, sc_out s)
    end.

(** ** Bytes and serialized words *)

Definition byte : Type := Init.Byte.byte.

Definition byte_val (b : byte) : Z := Z.of_N (Byte.to_N b).

Definition byte_of (z : Z) : byte :=
  match Byte.of_N (Z.to_N (z mod 256)) with
  | Some b => b
  | None => Byte.x00
  end.

(** A pointer to bytes: its address and the memory behind it. *)
Record Buffer : Type := mkBuffer {
  addr : Z;
  bytes : list byte
}.

(** [U_POINTER_MASK_LSB(ptr, mask)]; the null pointer has address 0. *)
Definition U_POINTER_MASK_LSB (ptr : option Buffer) (mask : Z) : Z :=
  match ptr with
  | Some b => Z.land (addr b) mask
  | None => 0
  end.

(** [n] elements of [l] from position [off]; [None] outside [l]. *)
Definition zslice {A : Type} (l : list A) (off n : Z) : option (list A) :=
  if (0 <=? off) && (0 <=? n) && (off + n <=? zlen l)
  then Some (firstn (Z.to_nat n) (skipn (Z.to_nat off) l))
  else None.

(** [src] stored over [dst] from position [off]; [None] when it does not
    fit. *)
Definition overwrite {A : Type} (dst : list A) (off : Z) (src : list A)
    : option (list A) :=
  if (0 <=? off) && (off + zlen src <=? zlen dst)
  then Some (firstn (Z.to_nat off) dst ++ src
             ++ skipn (Z.to_nat off + List.length src) dst)
  else None.

Definition put_u16 (v : Z) : list byte :=
  [byte_of v; byte_of (Z.shiftr v 8)].

Definition put_u32 (v : Z) : list byte :=
  put_u16 v ++ put_u16 (Z.shiftr v 16).

Definition get_u16 (mem : list byte) (off : Z) : option Z :=
  b0 <- zth mem off ;;
  b1 <- zth mem (off + 1) ;;
  Some (Z.lor (byte_val b0) (Z.shiftl (byte_val b1) 8)).

Definition get_u32 (mem : list byte) (off : Z) : option Z :=
  lo <- get_u16 mem off ;;
  hi <- get_u16 mem (off + 2) ;;
  Some (Z.lor lo (Z.shiftl hi 16)).

(** Arrays of 16-bit and 32-bit words as bytes, and back. *)
Definition put_u16s (l : list Z) : list byte := flat_map put_u16 l.
Definition put_u32s (l : list Z) : list byte := flat_map put_u32 l.

Fixpoint units16 (mem : list byte) : list Z :=
  match mem with
  | b0 :: b1 :: rest =>
      Z.lor (byte_val b0) (Z.shiftl (byte_val b1) 8) :: units16 rest
  | _ => []
  end.

Fixpoint units32 (mem : list byte) : list Z :=
  match mem with
  | b0 :: b1 :: b2 :: b3 :: rest =>
      Z.lor (Z.lor (byte_val b0) (Z.shiftl (byte_val b1) 8))
            (Z.shiftl (Z.lor (byte_val b2) (Z.shiftl (byte_val b3) 8)) 16)
      :: units32 rest
  | _ => []
  end.

(** [n] words read from [mem] at byte offset [off]. *)
Definition get_u16s (mem : list byte) (off n : Z) : option (list Z) :=
  option_map units16 (zslice mem off (2 * n)).

Definition get_u32s (mem : list byte) (off n : Z) : option (list Z) :=
  option_map units32 (zslice mem off (4 * n)).

(** ** Error codes and the allocator *)

(** Modelled from the spec: UErrorCode is declared in unicode/utypes.h;
    the failures are the error kinds of section 6, and
    [U_USING_DEFAULT_WARNING] stands for the codes that are not failures. *)
Inductive UErrorCode : Type :=
| U_USING_DEFAULT_WARNING
| U_ZERO_ERROR
| U_ILLEGAL_ARGUMENT_ERROR
| U_INVALID_FORMAT_ERROR
| U_MEMORY_ALLOCATION_ERROR
| U_INDEX_OUTOFBOUNDS_ERROR
| U_BUFFER_OVERFLOW_ERROR.

Definition U_FAILURE (e : UErrorCode) : bool :=
  match e with
  | U_USING_DEFAULT_WARNING | U_ZERO_ERROR => false
  | _ => true
  end.

(** The allocator: [heap_free] requests will still succeed, [heap_live]
    blocks are allocated and not released. *)
Record Heap : Type := mkHeap {
  heap_free : nat;
  heap_live : nat
}.

Definition uprv_malloc (h : Heap) : option Heap :=
  match heap_free h with
  | O => None
  | S n => Some (mkHeap n (S (heap_live h)))
  end.

Definition uprv_free (h : Heap) : Heap :=
  mkHeap (S (heap_free h)) (Nat.pred (heap_live h)).

(** ** The serialized form *)

(** The header of section 4.3. *)
Record UTrie3Header : Type := mkHeader {
  h_signature : Z;
  h_options : Z;
  h_indexLength : Z;
  h_shiftedDataLength : Z;
  h_index2NullOffset : Z;
  h_shiftedHighStart : Z;
  h_highValue : Z;
  h_errorValue : Z
}.

Definition read_header (mem : list byte) : option UTrie3Header :=
  signature <- get_u32 mem 0 ;;
  options <- get_u32 mem 4 ;;
  indexLength <- get_u16 mem 8 ;;
  shiftedDataLength <- get_u16 mem 10 ;;
  index2NullOffset <- get_u16 mem 12 ;;
  shiftedHighStart <- get_u16 mem 14 ;;
  highValue <- get_u32 mem 16 ;;
  errorValue <- get_u32 mem 20 ;;
  Some (mkHeader signature options indexLength shiftedDataLength
          index2NullOffset shiftedHighStart highValue errorValue).

Definition write_header (h : UTrie3Header) : list byte :=
  put_u32 (h_signature h) ++ put_u32 (h_options h)
  ++ put_u16 (h_indexLength h) ++ put_u16 (h_shiftedDataLength h)
  ++ put_u16 (h_index2NullOffset h) ++ put_u16 (h_shiftedHighStart h)
  ++ put_u32 (h_highValue h) ++ put_u32 (h_errorValue h).

(** What utrie3_openFromSerialized leaves behind: the returned trie (or
    NULL), the cell [*pActualLength] ([None] for a null pointer), the error
    code and the allocator. *)
Record Opened : Type := mkOpened {
  op_trie : option UTrie3;
  op_actualLength : option Z;
  op_error : UErrorCode;
  op_heap : Heap
}.

(** utrie3_openFromSerialized, lines 23-126.  The trie views the arrays
    that the header declares inside the image. *)
Definition utrie3_openFromSerialized (valueBits : Z) (data : option Buffer)
    (length : Z) (pActualLength : option Z) (pErrorCode : UErrorCode)
    (heap : Heap) : option Opened :=
  let fail e heap := Some (mkOpened None pActualLength e heap) in
  if U_FAILURE pErrorCode then fail pErrorCode heap
  else if (length <=? 0) || negb (U_POINTER_MASK_LSB data 3 =? 0)
          || (valueBits <? 0) || (UTRIE3_32_VALUE_BITS <? valueBits)
  then fail U_ILLEGAL_ARGUMENT_ERROR heap
  else if length <? sizeof_UTrie3Header then fail U_INVALID_FORMAT_ERROR heap
  else
    mem <- option_map bytes data ;;
    header <- read_header mem ;;
    if negb (h_signature header =? UTRIE3_SIG)
    then fail U_INVALID_FORMAT_ERROR heap
    else
      let options := h_options header in
      if negb (valueBits =? Z.land options UTRIE3_OPTIONS_VALUE_BITS_MASK)
         || negb (Z.land options UTRIE3_OPTIONS_RESERVED_MASK =? 0)
      then fail U_INVALID_FORMAT_ERROR heap
      else
        let t_indexLength := h_indexLength header in
        let t_dataLength :=
          Z.shiftl (h_shiftedDataLength header) UTRIE3_INDEX_SHIFT in
        let t_index2NullOffset := h_index2NullOffset header in
        let t_dataNullOffset := Z.shiftr options 12 in
        let t_highStart :=
          Z.shiftl (h_shiftedHighStart header) UTRIE3_SHIFT_1 in
        let t_shiftedHighStart := h_shiftedHighStart header in
        let t_highValue := h_highValue header in
        let t_errorValue := h_errorValue header in
        let actualLength :=
          sizeof_UTrie3Header + t_indexLength * 2
          + (if valueBits =? UTRIE3_16_VALUE_BITS
             then t_dataLength * 2 else t_dataLength * 4) in
        if length <? actualLength then fail U_INVALID_FORMAT_ERROR heap
        else
          match uprv_malloc heap with
          | None => fail U_MEMORY_ALLOCATION_ERROR heap
          | Some heap' =>
              let done ix d16 d32 initial :=
                Some (mkOpened
                  (Some (mkUTrie3 ix d16 d32 t_indexLength t_dataLength
                           t_index2NullOffset t_dataNullOffset initial
                           t_errorValue t_highStart t_shiftedHighStart
                           t_highValue "fromSerialized"))
                  (option_map (fun _ => actualLength) pActualLength)
                  pErrorCode heap') in
              if valueBits =? UTRIE3_16_VALUE_BITS then
                ix <- get_u16s mem sizeof_UTrie3Header
                        (t_indexLength + t_dataLength) ;;
                initial <-
                  (if t_dataNullOffset <? t_indexLength + t_dataLength
                   then zth ix t_dataNullOffset
                   else Some t_highValue) ;;
                done ix (Some t_indexLength) None initial
              else if valueBits =? UTRIE3_32_VALUE_BITS then
                ix <- get_u16s mem sizeof_UTrie3Header t_indexLength ;;
                d32 <- get_u32s mem
                         (sizeof_UTrie3Header + 2 * t_indexLength)
                         t_dataLength ;;
                initial <-
                  (if t_dataNullOffset <? t_dataLength
                   then zth d32 t_dataNullOffset
                   else Some t_highValue) ;;
                done ix None (Some d32) initial
              else fail U_INVALID_FORMAT_ERROR heap'
          end.

(** utrie3_clone, lines 128-167: the clone, the error code and the
    allocator. *)
Definition utrie3_clone (other : option UTrie3) (pErrorCode : UErrorCode)
    (heap : Heap) : option (option UTrie3 * UErrorCode * Heap) :=
  if U_FAILURE pErrorCode then Some (None, pErrorCode, heap)
  else
    match other with
    | None => Some (None, U_ILLEGAL_ARGUMENT_ERROR, heap)
    | Some other =>
        match uprv_malloc heap with
        | None => Some (None, U_MEMORY_ALLOCATION_ERROR, heap)
        | Some heap' =>
            ix <- zslice (index other) 0 (indexLength other) ;;
            match data16 other with
            | Some d16 =>
                d <- zslice (index other) d16 (dataLength other) ;;
                Some (Some (mkUTrie3 (ix ++ d) (Some (indexLength other))
                        (data32 other)
                        (indexLength other) (dataLength other)
                        (index2NullOffset other) (dataNullOffset other)
                        (initialValue other) (errorValue other)
                        (highStart other) (shiftedHighStart other)
                        (highValue other) (name other)),
                      pErrorCode, heap')
            | None =>
                d32 <- data32 other ;;
                d <- zslice d32 0 (dataLength other) ;;
                Some (Some (mkUTrie3 ix None (Some d)
                        (indexLength other) (dataLength other)
                        (index2NullOffset other) (dataNullOffset other)
                        (initialValue other) (errorValue other)
                        (highStart other) (shiftedHighStart other)
                        (highValue other) (name other)),
                      pErrorCode, heap')
            end
        end
    end.

(** utrie3_close, lines 169-172. *)
Definition utrie3_close (heap : Heap) : Heap := uprv_free heap.

(** The image that utrie3_serialize lays out for a trie, lines 392-411. *)
Definition serialized_header (trie : UTrie3) (valueBits : Z) : UTrie3Header :=
  mkHeader UTRIE3_SIG
    (Z.lor (to_uint32 (Z.shiftl (to_uint32 (dataNullOffset trie)) 12))
           valueBits)
    (to_uint16 (indexLength trie))
    (to_uint16 (Z.shiftr (dataLength trie) UTRIE3_INDEX_SHIFT))
    (index2NullOffset trie) (shiftedHighStart trie)
    (highValue trie) (errorValue trie).

(** utrie3_serialize, lines 364-413: the returned length, the destination
    and the error code. *)
Definition utrie3_serialize (trie : option UTrie3) (data : option Buffer)
    (capacity : Z) (pErrorCode : UErrorCode)
    : option (Z * option Buffer * UErrorCode) :=
  if U_FAILURE pErrorCode then Some (0, data, pErrorCode)
  else
    match trie with
    | None => Some (0, data, U_ILLEGAL_ARGUMENT_ERROR)
    | Some trie =>
        if (capacity <? 0)
           || ((capacity >? 0)
               && (match data with None => true | Some _ => false end
                   || negb (U_POINTER_MASK_LSB data 3 =? 0)))
        then Some (0, data, U_ILLEGAL_ARGUMENT_ERROR)
        else
          let valueBits :=
            match data16 trie with
            | Some _ => UTRIE3_16_VALUE_BITS
            | None => UTRIE3_32_VALUE_BITS
            end in
          let length :=
            sizeof_UTrie3Header + indexLength trie * 2
            + match data16 trie with
              | Some _ => dataLength trie * 2
              | None => dataLength trie * 4
              end in
          if capacity <? length then Some (length, data, U_BUFFER_OVERFLOW_ERROR)
          else
            dst <- data ;;
            ix <- zslice (index trie) 0 (indexLength trie) ;;
            d <- match data16 trie with
                 | Some d16 =>
                     option_map put_u16s
                       (zslice (index trie) d16 (dataLength trie))
                 | None =>
                     d32 <- data32 trie ;;
                     option_map put_u32s (zslice d32 0 (dataLength trie))
                 end ;;
            out <- overwrite (bytes dst) 0
                     (write_header (serialized_header trie valueBits)
                      ++ put_u16s ix ++ d) ;;
            Some (length, Some (mkBuffer (addr dst) out), pErrorCode)
    end.

(** ** Version detection *)

(** utrie3_getVersion, lines 423-449. *)
Definition utrie3_getVersion (data : option Buffer) (length : Z)
    (anyEndianOk : bool) : option Z :=
  if (length <? 16)
     || match data with None => true | Some _ => false end
     || negb (U_POINTER_MASK_LSB data 3 =? 0)
  then Some 0
  else
    mem <- option_map bytes data ;;
    signature <- get_u32 mem 0 ;;
    if signature =? UTRIE3_SIG then Some 3
    else if anyEndianOk && (signature =? UTRIE3_OE_SIG) then Some 3
    else if signature =? UTRIE2_SIG then Some 2
    else if anyEndianOk && (signature =? UTRIE2_OE_SIG) then Some 2
    else if signature =? UTRIE_SIG then Some 1
    else if anyEndianOk && (signature =? UTRIE_OE_SIG) then Some 1
    else Some 0.

(** ** The backward UTF-8 helper *)

(** Modelled from the spec: utf8_prevCharSafeBody is defined in
    utf_impl.cpp, outside this file.  The helper below takes it as an
    argument: a decoder receives the bytes between [start] and [src], the
    index [i] behind the lead byte candidates and the byte [c] already
    read, and gives the code point (or a negative value for ill-formed
    text) and the new index. *)
Definition Utf8PrevDecoder : Type := list byte -> Z -> Z -> Z * Z.

(** utrie3_internalU8PrevIndex, lines 335-362.  [text] is the memory that
    [start] and [src] point into, both given as positions in it. *)
Definition utrie3_internalU8PrevIndex (utf8_prevCharSafeBody : Utf8PrevDecoder)
    (trie : UTrie3) (c : Z) (text : list byte) (start src : Z) : option Z :=
  let length := if src - start <=? 7 then src - start else 7 in
  let start := if src - start <=? 7 then start else src - 7 in
  window <- zslice text start length ;;
  let '(c, i) := utf8_prevCharSafeBody window length c in
  let i := length - i in
  if c >=? 0 then
    if c <=? 0xffff then
      idx <- _UTRIE3_INDEX_FROM_BMP (index trie) c ;;
      Some (Z.lor (Z.shiftl idx 3) i)
    else if c >=? highStart trie then Some (Z.lor (-16) i)
    else
      idx <- _UTRIE3_INDEX_FROM_SUPP (index trie) c ;;
      Some (Z.lor (Z.shiftl idx 3) i)
  else Some (Z.lor (-8) i).

(** What the helper needs from a decoder: it only moves the index back. *)
Definition decoder_moves_back (dec : Utf8PrevDecoder) : Prop :=
  forall window i c, 0 <= i -> 0 <= snd (dec window i c) <= i.

Module Utf8.

(** Modelled from the spec: a backward decoder in the manner of
    utf8_prevCharSafeBody with [strict = -1]: it accepts the shortest forms
    of U+0080..U+10FFFF without the surrogates and answers [U_SENTINEL]
    otherwise.  It stands in for the function of utf_impl.cpp where text
    is decoded below. *)
Definition is_trail (b : Z) : bool := (0x80 <=? b) && (b <=? 0xbf).

Definition valid_lead3_t1 (lead t1 : Z) : bool :=
  if lead =? 0xe0 then (0xa0 <=? t1) && (t1 <=? 0xbf)
  else if lead =? 0xed then (0x80 <=? t1) && (t1 <=? 0x9f)
  else is_trail t1.

Definition valid_lead4_t1 (lead t1 : Z) : bool :=
  if lead =? 0xf0 then (0x90 <=? t1) && (t1 <=? 0xbf)
  else if lead =? 0xf4 then (0x80 <=? t1) && (t1 <=? 0x8f)
  else is_trail t1.

Definition at_ (s : list byte) (i : Z) : Z :=
  match zth s i with
  | Some b => byte_val b
  | None => 0
  end.

Definition prev_char (s : list byte) (i c : Z) : Z * Z :=
  if is_trail c && (0 <? i) then
    let b1 := at_ s (i - 1) in
    if (0xc2 <=? b1) && (b1 <=? 0xf4) then
      if b1 <? 0xe0 then
        (Z.lor (Z.shiftl (b1 - 0xc0) 6) (Z.land c 0x3f), i - 1)
      else if (if b1 <? 0xf0 then valid_lead3_t1 b1 c
               else valid_lead4_t1 b1 c)
      then (U_SENTINEL, i - 1)
      else (U_SENTINEL, i)
    else if is_trail b1 && (1 <? i) then
      let b2 := at_ s (i - 2) in
      if (0xe0 <=? b2) && (b2 <=? 0xf4) then
        if b2 <? 0xf0 then
          if valid_lead3_t1 b2 b1 then
            (Z.lor (Z.lor (Z.shiftl (Z.land b2 0xf) 12)
                          (Z.shiftl (Z.land b1 0x3f) 6))
                   (Z.land c 0x3f), i - 2)
          else (U_SENTINEL, i)
        else if valid_lead4_t1 b2 b1 then (U_SENTINEL, i - 2)
        else (U_SENTINEL, i)
      else if is_trail b2 && (2 <? i) then
        let b3 := at_ s (i - 3) in
        if (0xf0 <=? b3) && (b3 <=? 0xf4) && valid_lead4_t1 b3 b2 then
          (Z.lor (Z.lor (Z.lor (Z.shiftl (Z.land b3 7) 18)
                               (Z.shiftl (Z.land b2 0x3f) 12))
                        (Z.shiftl (Z.land b1 0x3f) 6))
                 (Z.land c 0x3f), i - 3)
        else (U_SENTINEL, i)
      else (U_SENTINEL, i)
    else (U_SENTINEL, i)
  else (U_SENTINEL, i).

End Utf8.

(** ** Debugging output *)

(** The loops of countInitial, lines 459-461 and 463-465: [n] more turns
    from the position [i], with [count] entries found so far. *)
Fixpoint count_loop (read : Z -> option Z) (initialValue : Z) (n : nat)
    (i count : Z) : option Z :=
  match n with
  | O => Some count
  | S n' =>
      v <- read i ;;
      count_loop read initialValue n' (i + 1)
        (if v =? initialValue then count + 1 else count)
  end.

(** countInitial, lines 454-468. *)
Definition countInitial (trie : UTrie3) : option Z :=
  let initialValue := initialValue trie in
  let length := dataLength trie in
  match data16 trie with
  | Some d16 =>
      count_loop (fun i => zth (index trie) (d16 + i)) initialValue
        (Z.to_nat length) 0 0
  | None =>
      count_loop (fun i => d32 <- data32 trie ;; zth d32 i) initialValue
        (Z.to_nat length) 0 0
  end.

(** The arguments that utrie3_printLengths passes to printf. *)
Record Lengths : Type := mkLengths {
  pl_which : string;
  pl_name : string;
  pl_index : Z;
  pl_data : Z;
  pl_countInitial : Z;
  pl_serialized : Z
}.

(** utrie3_printLengths, lines 470-477. *)
Definition utrie3_printLengths (trie : UTrie3) (which : string)
    : option Lengths :=
  let indexLength := indexLength trie in
  let dataLength := dataLength trie in
  let totalLength :=
    sizeof_UTrie3Header + indexLength * 2
    + dataLength * (match data32 trie with Some _ => 4 | None => 2 end) in
  count <- countInitial trie ;;
  Some (mkLengths which (name trie) indexLength dataLength count totalLength).

(** ** Byte swapping *)

(** The callbacks of UDataSwapper that utrie3_swap uses.  An array swapper
    receives the bytes to convert and the error code, and gives the bytes
    it stores at the destination and the error code. *)
Record UDataSwapper : Type := mkSwapper {
  readUInt16 : Z -> Z;
  readUInt32 : Z -> Z;
  swapArray16 : list byte -> UErrorCode -> list byte * UErrorCode;
  swapArray32 : list byte -> UErrorCode -> list byte * UErrorCode
}.

(** One call [swap(ds, in + off, n, out + off, pErrorCode)]. *)
Definition swap_call (swap : list byte -> UErrorCode -> list byte * UErrorCode)
    (inData : list byte) (off n : Z) (out : list byte) (e : UErrorCode)
    : option (list byte * UErrorCode) :=
  src <- zslice inData off n ;;
  let '(written, e') := swap src e in
  out' <- overwrite out off written ;;
  Some (out', e').

(** utrie3_swap, lines 482-569: the returned size, the destination and the
    error code. *)
Definition utrie3_swap (ds : option UDataSwapper) (inData : option (list byte))
    (length : Z) (outData : option (list byte)) (pErrorCode : UErrorCode)
    : option (Z * option (list byte) * UErrorCode) :=
  if U_FAILURE pErrorCode then Some (0, outData, pErrorCode)
  else
    match ds, inData with
    | Some ds, Some inData =>
        if (length >=? 0)
           && match outData with None => true | Some _ => false end
        then Some (0, outData, U_ILLEGAL_ARGUMENT_ERROR)
        else if (length >=? 0) && (length <? sizeof_UTrie3Header)
        then Some (0, outData, U_INDEX_OUTOFBOUNDS_ERROR)
        else
          inTrie <- read_header inData ;;
          let signature := readUInt32 ds (h_signature inTrie) in
          let options := readUInt32 ds (h_options inTrie) in
          let t_indexLength := readUInt16 ds (h_indexLength inTrie) in
          let t_shiftedDataLength :=
            readUInt16 ds (h_shiftedDataLength inTrie) in
          let valueBits := Z.land options UTRIE3_OPTIONS_VALUE_BITS_MASK in
          let dataLength := Z.shiftl t_shiftedDataLength UTRIE3_INDEX_SHIFT in
          if negb (signature =? UTRIE3_SIG)
             || (valueBits <? 0) || (UTRIE3_32_VALUE_BITS <? valueBits)
             || negb (Z.land options UTRIE3_OPTIONS_RESERVED_MASK =? 0)
             || (t_indexLength <? UTRIE3_INDEX_1_OFFSET)
             || (dataLength <? UTRIE3_DATA_START_OFFSET)
          then Some (0, outData, U_INVALID_FORMAT_ERROR)
          else
            let header_and_index := sizeof_UTrie3Header + t_indexLength * 2 in
            match (if valueBits =? UTRIE3_16_VALUE_BITS
                   then Some (header_and_index + dataLength * 2)
                   else if valueBits =? UTRIE3_32_VALUE_BITS
                   then Some (header_and_index + dataLength * 4)
                   else None) with
            | None => Some (0, outData, U_INVALID_FORMAT_ERROR)
            | Some size =>
                if length >=? 0 then
                  if length <? size
                  then Some (0, outData, U_INDEX_OUTOFBOUNDS_ERROR)
                  else
                    out <- outData ;;
                    '(out, e) <- swap_call (swapArray32 ds) inData 0 8 out
                                   pErrorCode ;;
                    '(out, e) <- swap_call (swapArray16 ds) inData 8 8 out e ;;
                    '(out, e) <- swap_call (swapArray32 ds) inData 16 8 out e ;;
                    if valueBits =? UTRIE3_16_VALUE_BITS then
                      '(out, e) <- swap_call (swapArray16 ds) inData
                                     sizeof_UTrie3Header
                                     ((t_indexLength + dataLength) * 2) out e ;;
                      Some (size, Some out, e)
                    else if valueBits =? UTRIE3_32_VALUE_BITS then
                      '(out, e) <- swap_call (swapArray16 ds) inData
                                     sizeof_UTrie3Header (t_indexLength * 2)
                                     out e ;;
                      '(out, e) <- swap_call (swapArray32 ds) inData
                                     (sizeof_UTrie3Header + t_indexLength * 2)
                                     (dataLength * 4) out e ;;
                      Some (size, Some out, e)
                    else Some (0, Some out, U_INVALID_FORMAT_ERROR)
                else Some (size, outData, pErrorCode)
            end
    | _, _ => Some (0, outData, U_ILLEGAL_ARGUMENT_ERROR)
    end.

(** ** Well-formed tries *)

(** The invariants of a frozen trie (section 3.3 of the specification and
    its glossary), stated on the arrays and decidable. *)

(** [p] holds on [lo], ..., [hi - 1]. *)
Definition between (lo hi : Z) (p : Z -> bool) : bool :=
  forallb (fun k => p (lo + Z.of_nat k)) (seq 0 (Z.to_nat (hi - lo))).

Definition holds (o : option Z) (p : Z -> bool) : bool :=
  match o with
  | Some x => p x
  | None => false
  end.

Definition is_u16 (v : Z) : bool := (0 <=? v) && (v <? 2 ^ 16).
Definition is_u32 (v : Z) : bool := (0 <=? v) && (v <? 2 ^ 32).

(** The length of the array that [read_data] reads, and the place of the
    first data entry in it. *)
Definition data_limit (t : UTrie3) : Z :=
  match data32 t with
  | Some d32 => zlen d32
  | None => zlen (index t)
  end.

Definition data_start (t : UTrie3) : Z :=
  match data16 t with
  | Some d16 => d16
  | None => 0
  end.

(** The arrays have the declared lengths and element widths; 16-bit data
    lies behind the index. *)
Definition storage_ok (t : UTrie3) : bool :=
  forallb is_u16 (index t)
  && match data16 t, data32 t with
     | Some d16, None =>
         (d16 =? indexLength t)
         && (zlen (index t) =? indexLength t + dataLength t)
     | None, Some d32 =>
         (zlen (index t) =? indexLength t)
         && (zlen d32 =? dataLength t) && forallb is_u32 d32
     | _, _ => false
     end.

(** Invariants 1 to 3 and the widths of the header fields. *)
Definition fields_ok (t : UTrie3) : bool :=
  (UTRIE3_INDEX_1_OFFSET <=? indexLength t) && (indexLength t <? 2 ^ 16)
  && (0 <=? dataLength t) && (dataLength t <? 2 ^ (16 + UTRIE3_INDEX_SHIFT))
  && (Z.land (dataLength t) UTRIE3_DATA_MASK =? 0)
  && (0 <=? shiftedHighStart t)
  && (highStart t =? Z.shiftl (shiftedHighStart t) UTRIE3_SHIFT_1)
  && (highStart t <=? MAX_UNICODE + 1)
  && is_u16 (index2NullOffset t)
  && (0 <=? dataNullOffset t) && (dataNullOffset t <? 2 ^ 20)
  && is_u32 (highValue t) && is_u32 (errorValue t).

(** The data block at [block] is filled with [v]. *)
Definition block_holds (t : UTrie3) (block v : Z) : bool :=
  between 0 UTRIE3_DATA_BLOCK_LENGTH
    (fun j => holds (read_data t (block + j)) (Z.eqb v)).

(** The first four BMP index entries address the first 128 data entries. *)
Definition ascii_linear (t : UTrie3) : bool :=
  between 0 4
    (fun i => holds (zth (index t) i)
                (Z.eqb (data_start t + UTRIE3_DATA_BLOCK_LENGTH * i))).

(** Every BMP index entry addresses a data block inside the data. *)
Definition bmp_blocks_ok (t : UTrie3) : bool :=
  between 0 UTRIE3_INDEX_2_BMP_LENGTH
    (fun i => holds (zth (index t) i)
                (fun e => e + UTRIE3_DATA_BLOCK_LENGTH <=? data_limit t)).

(** Every index-1 entry below [highStart] addresses an index-2 block
    behind the BMP index, whose entries address data blocks. *)
Definition supp_blocks_ok (t : UTrie3) : bool :=
  between UTRIE3_OMITTED_BMP_INDEX_1_LENGTH (shiftedHighStart t)
    (fun k =>
       holds (zth (index t)
                (UTRIE3_INDEX_1_OFFSET - UTRIE3_OMITTED_BMP_INDEX_1_LENGTH + k))
         (fun b =>
            (UTRIE3_INDEX_2_BMP_LENGTH <=? b)
            && (b + UTRIE3_INDEX_2_BLOCK_LENGTH <=? indexLength t)
            && between 0 UTRIE3_INDEX_2_BLOCK_LENGTH
                 (fun j =>
                    holds (zth (index t) (b + j))
                      (fun e =>
                         Z.shiftl e UTRIE3_INDEX_SHIFT
                         + UTRIE3_DATA_BLOCK_LENGTH <=? data_limit t)))).

(** Invariants 4 and 6: the data null block is filled with
    [initialValue]; without a null block [initialValue] is [highValue]. *)
Definition null_data_ok (t : UTrie3) : bool :=
  if dataNullOffset t <? data_limit t
  then block_holds t (dataNullOffset t) (initialValue t)
  else initialValue t =? highValue t.

(** Invariant 5: every entry of the index-2 null block addresses the data
    null block. *)
Definition null_index2_ok (t : UTrie3) : bool :=
  if index2NullOffset t + UTRIE3_INDEX_2_BLOCK_LENGTH <=? indexLength t
  then
    (dataNullOffset t <? data_limit t)
    && between 0 UTRIE3_INDEX_2_BLOCK_LENGTH
         (fun j =>
            holds (zth (index t) (index2NullOffset t + j))
              (fun e =>
                 (if index2NullOffset t >=? UTRIE3_INDEX_2_BMP_LENGTH
                  then Z.shiftl e UTRIE3_INDEX_SHIFT else e)
                 =? dataNullOffset t))
  else true.

(** Invariant 7 for the code points that the BMP index covers: the data
    blocks of U+0000..U+FFFF from [highStart] on are filled with
    [highValue]. *)
Definition high_tail_ok (t : UTrie3) : bool :=
  between (Z.shiftr (highStart t) UTRIE3_SHIFT_2) UTRIE3_INDEX_2_BMP_LENGTH
    (fun i => holds (zth (index t) i)
                (fun e => block_holds t e (highValue t))).

Definition well_formedb (t : UTrie3) : bool :=
  storage_ok t && fields_ok t && ascii_linear t && bmp_blocks_ok t
  && supp_blocks_ok t && null_data_ok t && null_index2_ok t
  && high_tail_ok t.

Definition well_formed (t : UTrie3) : Prop := well_formedb t = true.

(** ** What the range scan has to compute *)

(** The value that utrie3_getRange compares for a stored value [raw]. *)
Definition handled (t : UTrie3) (h : option UTrie3HandleValue) (raw : Z) : Z :=
  maybeHandleValue raw (initialValue t) (transform h (initialValue t)) h.

(** The transformed value of a code point. *)
Definition range_value (t : UTrie3) (h : option UTrie3HandleValue) (cp : Z)
    : option Z :=
  option_map (handled t h) (utrie3_get t cp).

(** All code points from [start] to [stop - 1] have the value [v]. *)
Definition run_of (t : UTrie3) (h : option UTrie3HandleValue)
    (start stop v : Z) : Prop :=
  forall cp, start <= cp < stop -> range_value t h cp = Some v.

(** The data block at [block] has the value [v] throughout. *)
Definition uniform (t : UTrie3) (h : option UTrie3HandleValue)
    (block v : Z) : Prop :=
  forall j, 0 <= j < 32 ->
    option_map (handled t h) (read_data t (block + j)) = Some v.

(** The data block that the entry [e] of the index-2 block at [i2Block]
    addresses. *)
Definition entry_block (i2Block e : Z) : Z :=
  if i2Block >=? 2048 then e * 4 else e.

(** All data blocks of the index-2 block at [b] have the value [v]. *)
Definition uniform2 (t : UTrie3) (h : option UTrie3HandleValue)
    (b v : Z) : Prop :=
  forall i2, 0 <= i2 < 512 ->
    exists e, zth (index t) (b + i2) = Some e
      /\ uniform t h (entry_block b e) v.

(** The index-2 block at [i2Block] serves the code points from [base] to
    [base + 16383]. *)
Definition serves (t : UTrie3) (base i2Block : Z) : Prop :=
  forall i2, 0 <= i2 < 512 ->
    exists e, zth (index t) (i2Block + i2) = Some e
      /\ 0 <= entry_block i2Block e
      /\ entry_block i2Block e + 32 <= data_limit t
      /\ forall k, 0 <= k < 32 ->
         utrie3_get t (base + 32 * i2 + k)
         = read_data t (entry_block i2Block e + k).

(** What is known of the locals between two blocks: before the first
    value is seen the scan stands at [start]; afterwards it stands at the
    start of a data block and every code point so far has the value of the
    range. *)
Definition scan_pre (t : UTrie3) (h : option UTrie3HandleValue)
    (start : Z) (pValue : option Z) (s : Scan) : Prop :=
  match sc_value s with
  | None => sc_c s = start /\ sc_out s = pValue
  | Some v =>
      start < sc_c s /\ sc_c s mod 32 = 0
      /\ run_of t h start (sc_c s) v
      /\ sc_out s = option_map (fun _ => v) pValue
  end.

(** Once a whole data block lies behind, [prevBlock] is a block with the
    value of the range throughout. *)
Definition scan_inv (t : UTrie3) (h : option UTrie3HandleValue)
    (start : Z) (pValue : option Z) (s : Scan) : Prop :=
  scan_pre t h start pValue s
  /\ forall v, sc_value s = Some v -> 32 <= sc_c s - start ->
     uniform t h (sc_prevBlock s) v.

(** The same between two index-2 blocks. *)
Definition scan_inv2 (t : UTrie3) (h : option UTrie3HandleValue)
    (start : Z) (pValue : option Z) (s : Scan) : Prop :=
  scan_inv t h start pValue s
  /\ forall v, sc_value s = Some v ->
     sc_c s mod 16384 = 0
     /\ (16384 <= sc_c s - start -> uniform2 t h (sc_prevI2Block s) v).

(** The scan returns [e] before [limit]: the range ends at [e] because
    the next code point has another value. *)
Definition early_return (t : UTrie3) (h : option UTrie3HandleValue)
    (start : Z) (pValue : option Z) (limit e : Z) (o : option Z) : Prop :=
  exists v, o = option_map (fun _ => v) pValue
    /\ start <= e /\ e + 1 < limit
    /\ run_of t h start (e + 1) v
    /\ exists x, range_value t h (e + 1) = Some x /\ x <> v.

(** ** Runs of code points *)

(** The code points from [start] to [e] are the longest run from [start]
    on which the callback [h] gives [v] for the values of utrie3_get
    (without a callback: on which utrie3_get gives [v]). *)
Definition maximal_run (t : UTrie3) (h : option UTrie3HandleValue)
    (start e v : Z) : Prop :=
  start <= e <= 0x10ffff
  /\ (forall cp, start <= cp <= e ->
      option_map (transform h) (utrie3_get t cp) = Some v)
  /\ (e = 0x10ffff
      \/ exists x, option_map (transform h) (utrie3_get t (e + 1)) = Some x
           /\ x <> v).

(** ** The layout of a serialized trie *)

(** The value width of a trie, as utrie3_serialize determines it. *)
Definition trie_valueBits (t : UTrie3) : Z :=
  match data16 t with
  | Some _ => UTRIE3_16_VALUE_BITS
  | None => UTRIE3_32_VALUE_BITS
  end.

(** Header size plus 2 bytes per index entry plus 2 or 4 bytes per data
    entry. *)
Definition serialized_length (t : UTrie3) : Z :=
  sizeof_UTrie3Header + 2 * indexLength t
  + (if trie_valueBits t =? UTRIE3_16_VALUE_BITS then 2 else 4) * dataLength t.

(** The index array and the data array of a trie. *)
Definition index_array (t : UTrie3) : list Z :=
  firstn (Z.to_nat (indexLength t)) (index t).

Definition data_array (t : UTrie3) : list Z :=
  match data16 t with
  | Some d16 => firstn (Z.to_nat (dataLength t)) (skipn (Z.to_nat d16) (index t))
  | None =>
      match data32 t with
      | Some d32 => firstn (Z.to_nat (dataLength t)) d32
      | None => []
      end
  end.

(** Header, index array, data array. *)
Definition image_of (t : UTrie3) : list byte :=
  write_header (serialized_header t (trie_valueBits t))
  ++ put_u16s (index_array t)
  ++ (if trie_valueBits t =? UTRIE3_16_VALUE_BITS
      then put_u16s (data_array t) else put_u32s (data_array t)).

(** ** The serialized image in the words of the specification *)

(** The header of section 4.3, field by field and without a look at
    utrie3_serialize: the signature is the text Tri3 as a little-endian
    word, that is the bytes of 3, i, r and T in this order; the options
    word is [(dataNullOffset << 12) | valueWidthCode] with the code 0 for
    16-bit and 1 for 32-bit values; then come [indexLength],
    [dataLength >> 2], [index2NullOffset] and [shiftedHighStart] as
    16-bit words and [highValue] and [errorValue] as 32-bit words. *)
Definition layout_header (t : UTrie3) : list byte :=
  [Byte.x33; Byte.x69; Byte.x72; Byte.x54]
  ++ put_u32 (Z.lor (Z.shiftl (dataNullOffset t) 12)
                (match data16 t with Some _ => 0 | None => 1 end))
  ++ put_u16 (indexLength t)
  ++ put_u16 (Z.shiftr (dataLength t) 2)
  ++ put_u16 (index2NullOffset t)
  ++ put_u16 (shiftedHighStart t)
  ++ put_u32 (highValue t)
  ++ put_u32 (errorValue t).

(** The image of section 4.3: the header, the index entries as 16-bit
    words, the data entries as 16-bit or 32-bit words. *)
Definition layout_image (t : UTrie3) : list byte :=
  layout_header t
  ++ put_u16s (index_array t)
  ++ match data16 t with
     | Some _ => put_u16s (data_array t)
     | None => put_u32s (data_array t)
     end.

(** The trie [t] under another name. *)
Definition with_name (t : UTrie3) (n : string) : UTrie3 :=
  mkUTrie3 (index t) (data16 t) (data32 t) (indexLength t) (dataLength t)
    (index2NullOffset t) (dataNullOffset t) (initialValue t) (errorValue t)
    (highStart t) (shiftedHighStart t) (highValue t) n.

(** ** The inputs that utrie3_openFromSerialized refuses *)

(** The length is not positive, the pointer is not 4-byte aligned, or the
    value-width tag is out of range. *)
Definition illegal_argument (valueBits : Z) (data : option Buffer)
    (length : Z) : bool :=
  (length <=? 0) || negb (U_POINTER_MASK_LSB data 3 =? 0)
  || (valueBits <? 0) || (UTRIE3_32_VALUE_BITS <? valueBits).

(** The length that a header declares for the whole image. *)
Definition declared_length (valueBits : Z) (h : UTrie3Header) : Z :=
  sizeof_UTrie3Header + 2 * h_indexLength h
  + (if valueBits =? UTRIE3_16_VALUE_BITS then 2 else 4)
    * (4 * h_shiftedDataLength h).

(** The length is smaller than the header, the signature is wrong, the
    value-width tag disagrees with the options word, reserved bits of the
    options word are set, or the length is smaller than the declared
    arrays need. *)
Definition invalid_format (valueBits : Z) (mem : list byte) (length : Z)
    : bool :=
  (length <? sizeof_UTrie3Header)
  || match read_header mem with
     | Some h =>
         negb (h_signature h =? UTRIE3_SIG)
         || negb (Z.land (h_options h) UTRIE3_OPTIONS_VALUE_BITS_MASK
                  =? valueBits)
         || negb (Z.land (h_options h) UTRIE3_OPTIONS_RESERVED_MASK =? 0)
         || (length <? declared_length valueBits h)
     | None => false
     end.

(** ** The version of a signature word *)

(** The comparisons of utrie3_getVersion on the first word [s] of the
    buffer. *)
Definition signature_cascade (s : Z) (anyEndianOk : bool) : Z :=
  if s =? UTRIE3_SIG then 3
  else if anyEndianOk && (s =? UTRIE3_OE_SIG) then 3
  else if s =? UTRIE2_SIG then 2
  else if anyEndianOk && (s =? UTRIE2_OE_SIG) then 2
  else if s =? UTRIE_SIG then 1
  else if anyEndianOk && (s =? UTRIE_OE_SIG) then 1
  else 0.

(** ** What utrie3_swap does with an image *)

(** The header fields as utrie3_swap reads them through the swapper,
    lines 506-512. *)
Definition swap_options (ds : UDataSwapper) (h : UTrie3Header) : Z :=
  readUInt32 ds (h_options h).

Definition swap_valueBits (ds : UDataSwapper) (h : UTrie3Header) : Z :=
  Z.land (swap_options ds h) UTRIE3_OPTIONS_VALUE_BITS_MASK.

Definition swap_indexLength (ds : UDataSwapper) (h : UTrie3Header) : Z :=
  readUInt16 ds (h_indexLength h).

Definition swap_dataLength (ds : UDataSwapper) (h : UTrie3Header) : Z :=
  Z.shiftl (readUInt16 ds (h_shiftedDataLength h)) UTRIE3_INDEX_SHIFT.

(** The test of lines 514-519: the image is not a UTrie3. *)
Definition swap_refuses (ds : UDataSwapper) (h : UTrie3Header) : bool :=
  negb (readUInt32 ds (h_signature h) =? UTRIE3_SIG)
  || (swap_valueBits ds h <? 0)
  || (UTRIE3_32_VALUE_BITS <? swap_valueBits ds h)
  || negb (Z.land (swap_options ds h) UTRIE3_OPTIONS_RESERVED_MASK =? 0)
  || (swap_indexLength ds h <? UTRIE3_INDEX_1_OFFSET)
  || (swap_dataLength ds h <? UTRIE3_DATA_START_OFFSET).

(** The size of lines 524-535: header, index and data. *)
Definition swap_size (ds : UDataSwapper) (h : UTrie3Header) : Z :=
  sizeof_UTrie3Header + swap_indexLength ds h * 2
  + swap_dataLength ds h
    * (if swap_valueBits ds h =? UTRIE3_16_VALUE_BITS then 2 else 4).

(** The pieces of an image that lines 548-560 convert: the place, the
    number of bytes, and whether the units are 32 bits wide. *)
Definition swap_regions (valueBits indexLength dataLength : Z)
    : list (Z * Z * bool) :=
  [(0, 8, true); (8, 8, false); (16, 8, true)]
  ++ (if valueBits =? UTRIE3_16_VALUE_BITS
      then [(sizeof_UTrie3Header, (indexLength + dataLength) * 2, false)]
      else [(sizeof_UTrie3Header, indexLength * 2, false);
            (sizeof_UTrie3Header + indexLength * 2, dataLength * 4, true)]).

(** The pieces of [mem] converted one behind the other, the error code
    going from one call to the next. *)
Fixpoint convert (ds : UDataSwapper) (mem : list byte)
    (regions : list (Z * Z * bool)) (e : UErrorCode)
    : list byte * UErrorCode :=
  match regions with
  | [] => ([], e)
  | (off, n, wide) :: rest =>
      let r := (if wide then swapArray32 ds else swapArray16 ds)
                 (firstn (Z.to_nat n) (skipn (Z.to_nat off) mem)) e in
      let rs := convert ds mem rest (snd r) in
      (fst r ++ fst rs, snd rs)
  end.

(** What utrie3_swap needs from the array swappers: called without a
    failure on whole units, they write as many bytes as they are given
    and report no failure. *)
Definition converts_units
    (sw : list byte -> UErrorCode -> list byte * UErrorCode) (unit : Z)
    : Prop :=
  forall bs e,
    U_FAILURE e = false -> zlen bs mod unit = 0 ->
    List.length (fst (sw bs e)) = List.length bs
    /\ U_FAILURE (snd (sw bs e)) = false.

Definition converts_arrays (ds : UDataSwapper) : Prop :=
  converts_units (swapArray16 ds) 2 /\ converts_units (swapArray32 ds) 4.

(** The input has the byte order of the machine: the swapper reads the
    header fields as they are. *)
Definition reads_directly (ds : UDataSwapper) : Prop :=
  forall x, readUInt16 ds x = x /\ readUInt32 ds x = x.

(** The bytes of one piece of an image. *)
Definition region_bytes (mem : list byte) (r : Z * Z * bool) : list byte :=
  firstn (Z.to_nat (snd (fst r))) (skipn (Z.to_nat (fst (fst r))) mem).

(** The pieces lie one behind the other from [k] to [stop] and are made
    of whole units. *)
Fixpoint tiles (k : Z) (regions : list (Z * Z * bool)) (stop : Z) : Prop :=
  match regions with
  | [] => stop = k
  | r :: rest =>
      fst (fst r) = k /\ 0 <= snd (fst r)
      /\ snd (fst r) mod (if snd r then 4 else 2) = 0
      /\ tiles (k + snd (fst r)) rest stop
  end.

(** ** Swappers *)

Module Swapper.

(** Modelled from the spec: the functions behind a UDataSwapper are
    defined in udataswp.cpp, outside this file.  The swappers below stand
    in for them where an image is converted (section 4.5 and scenario 5
    of section 8): the array swappers reverse the bytes of every unit or
    copy them, and the readers take a header field as it is or with its
    bytes reversed. *)
Fixpoint reverse16 (bs : list byte) : list byte :=
  match bs with
  | b0 :: b1 :: rest => b1 :: b0 :: reverse16 rest
  | _ => bs
  end.

Fixpoint reverse32 (bs : list byte) : list byte :=
  match bs with
  | b0 :: b1 :: b2 :: b3 :: rest => b3 :: b2 :: b1 :: b0 :: reverse32 rest
  | _ => bs
  end.

Definition reversed16 (x : Z) : Z := 256 * (x mod 256) + (x / 256) mod 256.

Definition reversed32 (x : Z) : Z :=
  65536 * reversed16 (x mod 65536) + reversed16 ((x / 65536) mod 65536).

(** An array swapper gives up at once with a failure on entry and
    refuses a length that is not made of whole units. *)
Definition array_swapper (unit : Z) (f : list byte -> list byte)
    (bs : list byte) (e : UErrorCode) : list byte * UErrorCode :=
  if U_FAILURE e then ([], e)
  else if negb (zlen bs mod unit =? 0) then ([], U_ILLEGAL_ARGUMENT_ERROR)
  else (f bs, e).

(** The swapper for input in the byte order of the machine
    ([inOther = false]) or in the other one, and output likewise. *)
Definition make (inOther outOther : bool) : UDataSwapper :=
  mkSwapper
    (if inOther then reversed16 else fun x => x)
    (if inOther then reversed32 else fun x => x)
    (array_swapper 2
       (if xorb inOther outOther then reverse16 else fun bs => bs))
    (array_swapper 4
       (if xorb inOther outOther then reverse32 else fun bs => bs)).

End Swapper.

(** ** Sample tries *)

Module Sample.

(** 32-bit values: 9 at U+0041, 2 on U+10000..U+1FFFF, 7 elsewhere. *)
Definition ascii_values : list Z :=
  repeat 7 65 ++ [9] ++ repeat 7 62.

Definition data_values : list Z :=
  ascii_values ++ repeat 7 32 ++ repeat 2 32.

Definition index_values : list Z :=
  [0; 32; 64; 96] ++ repeat 128 2044
  ++ [2052; 2052; 2052; 2052] ++ repeat 40 512.

Definition trie32 : UTrie3 :=
  mkUTrie3 index_values None (Some data_values)
    2564 192 512 128 7 0 0x20000 8 7 "sample32".

(** The same values stored in 16 bits behind the index. *)
Definition index_values16 : list Z :=
  [2564; 2596; 2628; 2660] ++ repeat 2692 2044
  ++ [2052; 2052; 2052; 2052] ++ repeat 681 512.

Definition trie16 : UTrie3 :=
  mkUTrie3 (index_values16 ++ data_values) (Some 2564) None
    2564 192 512 2692 7 0 0x20000 8 7 "sample16".

(** A trie without supplementary data: [highStart] lies inside the BMP. *)
Definition trie_low : UTrie3 :=
  mkUTrie3 ([0; 32; 64; 96] ++ repeat 128 2044) None
    (Some (ascii_values ++ repeat 7 32))
    2048 160 512 128 7 0 0x4000 1 7 "sampleLow".

End Sample.

Module Images.

(** The serialized sample tries, and one followed by four more bytes. *)
Definition image32 : list byte := image_of Sample.trie32.
Definition image16 : list byte := image_of Sample.trie16.
Definition image_low : list byte := image_of Sample.trie_low.
Definition padded_low : list byte :=
  image_low ++ [Byte.xff; Byte.xff; Byte.xff; Byte.xff].

(** A destination of 4800 zero bytes at an aligned address. *)
Definition room : Buffer := mkBuffer 0x1000 (repeat Byte.x00 (Z.to_nat 4800)).

End Images.

Module Probe.

(** A buffer that begins with the byte-reversed UTrie3 signature. *)
Definition reversed3 : Buffer :=
  mkBuffer 0x2000 (rev (put_u32 UTRIE3_SIG) ++ repeat Byte.x00 12).

(** The text "a" U+5000: its last byte is a trail byte. *)
Definition text : list byte :=
  [Byte.x61; Byte.xe5; Byte.x80; Byte.x80].

End Probe.

(** * Proofs *)

(** ** Lists and bounded quantifiers *)

Lemma zlen_nonneg {A : Type} (l : list A) : 0 <= zlen l.
Proof. unfold zlen. lia. Qed.

Lemma zth_Some_range {A : Type} (l : list A) (i : Z) (v : A) :
  zth l i = Some v -> 0 <= i < zlen l.
Proof.
  unfold zth, zlen. destruct (Z.ltb_spec i 0) as [Hlt|Hge]; [discriminate|].
  intros H. assert (Hn : nth_error l (Z.to_nat i) <> None) by congruence.
  apply nth_error_Some in Hn. lia.
Qed.

Lemma zth_in_range {A : Type} (l : list A) (i : Z) :
  0 <= i < zlen l -> exists v, zth l i = Some v.
Proof.
  unfold zth, zlen. intros H. destruct (Z.ltb_spec i 0) as [Hlt|Hge]; [lia|].
  destruct (nth_error l (Z.to_nat i)) eqn:E; [eauto|].
  apply nth_error_None in E. lia.
Qed.

Lemma zth_In {A : Type} (l : list A) (i : Z) (v : A) :
  zth l i = Some v -> In v l.
Proof.
  unfold zth. destruct (i <? 0); [discriminate|]. apply nth_error_In.
Qed.

Lemma between_spec (lo hi : Z) (p : Z -> bool) :
  between lo hi p = true <-> (forall i, lo <= i < hi -> p i = true).
Proof.
  unfold between. rewrite forallb_forall. split.
  - intros H i Hi. specialize (H (Z.to_nat (i - lo))).
    rewrite Z2Nat.id in H by lia.
    replace (lo + (i - lo)) with i in H by lia.
    apply H. apply in_seq. lia.
  - intros H k Hk. apply in_seq in Hk. apply H. lia.
Qed.

Lemma holds_spec (o : option Z) (p : Z -> bool) :
  holds o p = true <-> exists x, o = Some x /\ p x = true.
Proof.
  destruct o as [x|]; simpl; split.
  - eauto.
  - intros (y & Hy & Hp). congruence.
  - discriminate.
  - intros (y & Hy & _). discriminate.
Qed.

(** ** Shifts and masks as quotients and remainders *)

Lemma shiftr_5 (c : Z) : Z.shiftr c UTRIE3_SHIFT_2 = c / 32.
Proof. unfold UTRIE3_SHIFT_2. rewrite Z.shiftr_div_pow2 by lia. reflexivity. Qed.

Lemma shiftr_14 (c : Z) : Z.shiftr c UTRIE3_SHIFT_1 = c / 16384.
Proof. unfold UTRIE3_SHIFT_1. rewrite Z.shiftr_div_pow2 by lia. reflexivity. Qed.

Lemma shiftl_2 (e : Z) : Z.shiftl e UTRIE3_INDEX_SHIFT = e * 4.
Proof. unfold UTRIE3_INDEX_SHIFT. rewrite Z.shiftl_mul_pow2 by lia. reflexivity. Qed.

Lemma shiftl_14 (e : Z) : Z.shiftl e UTRIE3_SHIFT_1 = e * 16384.
Proof. unfold UTRIE3_SHIFT_1. rewrite Z.shiftl_mul_pow2 by lia. reflexivity. Qed.

Lemma land_data_mask (c : Z) : Z.land c UTRIE3_DATA_MASK = c mod 32.
Proof. change UTRIE3_DATA_MASK with (Z.ones 5). rewrite Z.land_ones by lia. reflexivity. Qed.

Lemma land_index_2_mask (c : Z) : Z.land c UTRIE3_INDEX_2_MASK = c mod 512.
Proof. change UTRIE3_INDEX_2_MASK with (Z.ones 9). rewrite Z.land_ones by lia. reflexivity. Qed.

Lemma land_lnot_ones (x n : Z) :
  0 <= n -> Z.land x (Z.lnot (Z.ones n)) = 2 ^ n * (x / 2 ^ n).
Proof.
  intros Hn. rewrite <- Z.ldiff_land, Z.ldiff_ones_r by assumption.
  rewrite Z.shiftl_mul_pow2, Z.shiftr_div_pow2 by assumption. lia.
Qed.

Lemma land_lnot_data_mask (x : Z) :
  Z.land x (Z.lnot UTRIE3_DATA_MASK) = 32 * (x / 32).
Proof. change UTRIE3_DATA_MASK with (Z.ones 5). rewrite land_lnot_ones by lia. reflexivity. Qed.

Lemma land_lnot_index_2_mask (x : Z) :
  Z.land x (Z.lnot UTRIE3_INDEX_2_MASK) = 512 * (x / 512).
Proof. change UTRIE3_INDEX_2_MASK with (Z.ones 9). rewrite land_lnot_ones by lia. reflexivity. Qed.

Lemma land_lnot_cp_mask (x : Z) :
  Z.land x (Z.lnot (UTRIE3_CP_PER_INDEX_1_ENTRY - 1)) = 16384 * (x / 16384).
Proof.
  change (UTRIE3_CP_PER_INDEX_1_ENTRY - 1) with (Z.ones 14).
  rewrite land_lnot_ones by lia. reflexivity.
Qed.

Lemma to_uint32_nonneg (c : Z) : 0 <= c < 2 ^ 32 -> to_uint32 c = c.
Proof. intros H. unfold to_uint32. apply Z.mod_small. assumption. Qed.

Lemma to_uint32_neg (c : Z) : - 2 ^ 31 <= c < 0 -> to_uint32 c = c + 2 ^ 32.
Proof.
  intros H. unfold to_uint32. symmetry.
  apply Z.mod_unique with (q := -1); lia.
Qed.

(** Linear arithmetic with quotients and remainders by constants. *)
Ltac dlia := Z.div_mod_to_equations; lia.

(** ** What a well-formed trie provides *)

Ltac b2p :=
  repeat match goal with
  | H : _ && _ = true |- _ => apply andb_true_iff in H; destruct H
  | H : (_ <=? _) = true |- _ => apply Z.leb_le in H
  | H : (_ <? _) = true |- _ => apply Z.ltb_lt in H
  | H : (_ =? _) = true |- _ => apply Z.eqb_eq in H
  | H : (_ >=? _) = true |- _ => rewrite Z.geb_le in H
  | H : (_ >? _) = true |- _ => rewrite Z.gtb_lt in H
  | H : is_u16 _ = true |- _ => unfold is_u16 in H
  | H : is_u32 _ = true |- _ => unfold is_u32 in H
  end.

Lemma wf_parts (t : UTrie3) :
  well_formed t ->
  storage_ok t = true /\ fields_ok t = true /\ ascii_linear t = true
  /\ bmp_blocks_ok t = true /\ supp_blocks_ok t = true
  /\ null_data_ok t = true /\ null_index2_ok t = true
  /\ high_tail_ok t = true.
Proof. unfold well_formed, well_formedb. rewrite !andb_true_iff. tauto. Qed.

Lemma wf_fields (t : UTrie3) :
  well_formed t ->
  2048 <= indexLength t < 65536
  /\ 0 <= dataLength t < 262144 /\ dataLength t mod 32 = 0
  /\ 0 <= shiftedHighStart t
  /\ highStart t = shiftedHighStart t * 16384
  /\ highStart t <= 0x110000
  /\ 0 <= index2NullOffset t < 65536
  /\ 0 <= dataNullOffset t < 1048576
  /\ 0 <= highValue t < 4294967296
  /\ 0 <= errorValue t < 4294967296.
Proof.
  intros H. apply wf_parts in H. destruct H as (_ & H & _).
  unfold fields_ok in H. b2p.
  rewrite land_data_mask in *. rewrite shiftl_14 in *.
  change UTRIE3_INDEX_1_OFFSET with 2048 in *.
  change (2 ^ 16) with 65536 in *.
  change (2 ^ (16 + UTRIE3_INDEX_SHIFT)) with 262144 in *.
  change (2 ^ 20) with 1048576 in *.
  change (2 ^ 32) with 4294967296 in *.
  change (MAX_UNICODE + 1) with 0x110000 in *.
  repeat split; assumption.
Qed.

Lemma wf_storage (t : UTrie3) :
  well_formed t ->
  (data16 t = Some (indexLength t) /\ data32 t = None
   /\ zlen (index t) = indexLength t + dataLength t)
  \/ (data16 t = None
      /\ exists d32, data32 t = Some d32 /\ zlen (index t) = indexLength t
         /\ zlen d32 = dataLength t /\ forallb is_u32 d32 = true).
Proof.
  intros H. apply wf_parts in H. destruct H as (H & _).
  unfold storage_ok in H. apply andb_true_iff in H. destruct H as [_ H].
  destruct (data16 t) as [d16|], (data32 t) as [d32|]; try discriminate.
  - left. b2p. subst. auto.
  - right. b2p. split; [reflexivity|]. exists d32. auto.
Qed.

Lemma wf_index_u16 (t : UTrie3) (i e : Z) :
  well_formed t -> zth (index t) i = Some e -> 0 <= e < 65536.
Proof.
  intros H Hi. apply wf_parts in H. destruct H as (H & _).
  unfold storage_ok in H. apply andb_true_iff in H. destruct H as [H _].
  rewrite forallb_forall in H. apply zth_In in Hi. apply H in Hi.
  b2p. change (2 ^ 16) with 65536 in *. lia.
Qed.

Lemma wf_data_limit (t : UTrie3) :
  well_formed t -> data_limit t = data_start t + dataLength t.
Proof.
  intros H. unfold data_limit, data_start.
  destruct (wf_storage t H) as [(H16 & H32 & Hl)|(H16 & d & H32 & Hl & Hd & _)];
    rewrite H16, H32; lia.
Qed.

Lemma wf_data_start (t : UTrie3) :
  well_formed t -> 0 <= data_start t.
Proof.
  intros H. unfold data_start. pose proof (wf_fields t H).
  destruct (wf_storage t H) as [(H16 & _)|(H16 & _)]; rewrite H16; lia.
Qed.

Lemma read_data_in_range (t : UTrie3) (i : Z) :
  0 <= i < data_limit t -> exists v, read_data t i = Some v.
Proof.
  unfold data_limit, read_data. destruct (data32 t); apply zth_in_range.
Qed.

Lemma read_data_Some_range (t : UTrie3) (i v : Z) :
  read_data t i = Some v -> 0 <= i < data_limit t.
Proof.
  unfold data_limit, read_data. destruct (data32 t); apply zth_Some_range.
Qed.

Lemma block_holds_spec (t : UTrie3) (block v : Z) :
  block_holds t block v = true
  <-> (forall j, 0 <= j < 32 -> read_data t (block + j) = Some v).
Proof.
  unfold block_holds. rewrite between_spec.
  change UTRIE3_DATA_BLOCK_LENGTH with 32.
  split; intros H j Hj; specialize (H j Hj).
  - apply holds_spec in H. destruct H as (x & Hx & Hv).
    apply Z.eqb_eq in Hv. congruence.
  - apply holds_spec. exists v. split; [assumption|apply Z.eqb_refl].
Qed.

Lemma wf_ascii (t : UTrie3) (i : Z) :
  well_formed t -> 0 <= i < 4 ->
  zth (index t) i = Some (data_start t + 32 * i).
Proof.
  intros H Hi. apply wf_parts in H. destruct H as (_ & _ & H & _).
  unfold ascii_linear in H. rewrite between_spec in H.
  specialize (H i Hi). apply holds_spec in H. destruct H as (x & Hx & Hv).
  apply Z.eqb_eq in Hv. change UTRIE3_DATA_BLOCK_LENGTH with 32 in Hv.
  congruence.
Qed.

Lemma wf_bmp_block (t : UTrie3) (i : Z) :
  well_formed t -> 0 <= i < 2048 ->
  exists e, zth (index t) i = Some e /\ 0 <= e /\ e + 32 <= data_limit t.
Proof.
  intros H Hi. pose proof (wf_parts t H) as (_ & _ & _ & Hb & _).
  unfold bmp_blocks_ok in Hb. rewrite between_spec in Hb.
  specialize (Hb i Hi). apply holds_spec in Hb. destruct Hb as (e & He & Hv).
  apply Z.leb_le in Hv. change UTRIE3_DATA_BLOCK_LENGTH with 32 in Hv.
  exists e. pose proof (wf_index_u16 t i e H He). repeat split; [assumption|lia|lia].
Qed.

Lemma wf_supp_block (t : UTrie3) (k : Z) :
  well_formed t -> 4 <= k < shiftedHighStart t ->
  exists b, zth (index t) (2044 + k) = Some b
    /\ 2048 <= b /\ b + 512 <= indexLength t
    /\ forall j, 0 <= j < 512 ->
       exists e, zth (index t) (b + j) = Some e
         /\ 0 <= e /\ e * 4 + 32 <= data_limit t.
Proof.
  intros H Hk. pose proof (wf_parts t H) as (_ & _ & _ & _ & Hs & _).
  unfold supp_blocks_ok in Hs. rewrite between_spec in Hs.
  specialize (Hs k Hk). apply holds_spec in Hs. destruct Hs as (b & Hb & Hv).
  apply andb_true_iff in Hv. destruct Hv as [Hv Hj].
  apply andb_true_iff in Hv. destruct Hv as [Hlo Hhi].
  apply Z.leb_le in Hlo, Hhi. rewrite between_spec in Hj.
  exists b. repeat split; try assumption.
  intros j Hjr. specialize (Hj j Hjr). apply holds_spec in Hj.
  destruct Hj as (e & He & Hle). apply Z.leb_le in Hle.
  rewrite shiftl_2 in Hle. change UTRIE3_DATA_BLOCK_LENGTH with 32 in Hle.
  exists e. pose proof (wf_index_u16 t _ e H He).
  repeat split; [assumption|lia|lia].
Qed.

Lemma wf_null_data (t : UTrie3) :
  well_formed t ->
  (dataNullOffset t < data_limit t
   /\ forall j, 0 <= j < 32 ->
      read_data t (dataNullOffset t + j) = Some (initialValue t))
  \/ (data_limit t <= dataNullOffset t /\ initialValue t = highValue t).
Proof.
  intros H. pose proof (wf_parts t H) as (_ & _ & _ & _ & _ & Hn & _).
  unfold null_data_ok in Hn.
  destruct (Z.ltb_spec (dataNullOffset t) (data_limit t)) as [Hlt|Hge].
  - left. split; [assumption|]. apply block_holds_spec. assumption.
  - right. split; [assumption|]. apply Z.eqb_eq. assumption.
Qed.

Lemma wf_null_index2 (t : UTrie3) :
  well_formed t -> index2NullOffset t + 512 <= indexLength t ->
  dataNullOffset t < data_limit t
  /\ forall j, 0 <= j < 512 ->
     exists e, zth (index t) (index2NullOffset t + j) = Some e
       /\ (if index2NullOffset t >=? 2048 then e * 4 else e)
          = dataNullOffset t.
Proof.
  intros H Hr. pose proof (wf_parts t H) as (_ & _ & _ & _ & _ & _ & Hn & _).
  unfold null_index2_ok in Hn. change UTRIE3_INDEX_2_BLOCK_LENGTH with 512 in Hn.
  destruct (Z.leb_spec (index2NullOffset t + 512) (indexLength t)); [|lia].
  apply andb_true_iff in Hn. destruct Hn as [Hlt Hj].
  apply Z.ltb_lt in Hlt. split; [assumption|].
  rewrite between_spec in Hj. intros j Hjr. specialize (Hj j Hjr).
  apply holds_spec in Hj. destruct Hj as (e & He & Hv).
  apply Z.eqb_eq in Hv. rewrite shiftl_2 in Hv.
  change UTRIE3_INDEX_2_BMP_LENGTH with 2048 in Hv. eauto.
Qed.

Lemma wf_high_tail (t : UTrie3) (i : Z) :
  well_formed t -> highStart t / 32 <= i < 2048 ->
  exists e, zth (index t) i = Some e
    /\ forall j, 0 <= j < 32 -> read_data t (e + j) = Some (highValue t).
Proof.
  intros H Hi. pose proof (wf_parts t H) as (_ & _ & _ & _ & _ & _ & _ & Hh).
  unfold high_tail_ok in Hh. rewrite between_spec in Hh.
  rewrite shiftr_5 in Hh. change UTRIE3_INDEX_2_BMP_LENGTH with 2048 in Hh.
  specialize (Hh i Hi). apply holds_spec in Hh. destruct Hh as (e & He & Hv).
  exists e. split; [assumption|]. apply block_holds_spec. assumption.
Qed.

(** ** Point lookup *)

Lemma get_ascii (t : UTrie3) (c : Z) :
  well_formed t -> 0 <= c <= 0x7f ->
  utrie3_get t c = read_data t (data_start t + c).
Proof.
  intros H Hc. unfold utrie3_get. rewrite to_uint32_nonneg by lia.
  destruct (Z.leb_spec c 0x7f); [|lia].
  unfold read_data, data_start.
  destruct (wf_storage t H) as [(H16 & H32 & _)|(H16 & d & H32 & _)];
    rewrite H16, H32; reflexivity.
Qed.

Lemma get_bmp (t : UTrie3) (c : Z) :
  0x7f < c <= 0xffff ->
  utrie3_get t c
  = (e <- zth (index t) (c / 32) ;; read_data t (e + c mod 32)).
Proof.
  intros Hc. unfold utrie3_get. rewrite to_uint32_nonneg by lia.
  destruct (Z.leb_spec c 0x7f); [lia|].
  destruct (Z.leb_spec c 0xffff); [|lia].
  unfold _UTRIE3_INDEX_FROM_BMP. rewrite shiftr_5, land_data_mask.
  destruct (zth (index t) (c / 32)); reflexivity.
Qed.

Lemma get_supp (t : UTrie3) (c : Z) :
  0xffff < c <= 0x10ffff -> c < highStart t ->
  utrie3_get t c
  = (b <- zth (index t) (2044 + c / 16384) ;;
     e <- zth (index t) (b + (c / 32) mod 512) ;;
     read_data t (e * 4 + c mod 32)).
Proof.
  intros Hc Hh. unfold utrie3_get. rewrite to_uint32_nonneg by lia.
  destruct (Z.leb_spec c 0x7f); [lia|].
  destruct (Z.leb_spec c 0xffff); [lia|].
  destruct (Z.gtb_spec c 0x10ffff); [lia|].
  destruct (Z.geb_spec c (highStart t)); [lia|].
  unfold _UTRIE3_INDEX_FROM_SUPP.
  rewrite shiftr_5, shiftr_14, land_data_mask, land_index_2_mask.
  change (UTRIE3_INDEX_1_OFFSET - UTRIE3_OMITTED_BMP_INDEX_1_LENGTH) with 2044.
  destruct (zth (index t) (2044 + c / 16384)) as [b|]; [|reflexivity].
  cbn [obind].
  destruct (zth (index t) (b + (c / 32) mod 512)) as [e|]; [|reflexivity].
  cbn [obind]. rewrite shiftl_2. reflexivity.
Qed.

Lemma get_high (t : UTrie3) (c : Z) :
  0xffff < c <= 0x10ffff -> highStart t <= c ->
  utrie3_get t c = Some (highValue t).
Proof.
  intros Hc Hh. unfold utrie3_get. rewrite to_uint32_nonneg by lia.
  destruct (Z.leb_spec c 0x7f); [lia|].
  destruct (Z.leb_spec c 0xffff); [lia|].
  destruct (Z.gtb_spec c 0x10ffff); [lia|].
  destruct (Z.geb_spec c (highStart t)); [reflexivity|lia].
Qed.

Lemma get_out_of_range (t : UTrie3) (c : Z) :
  - 2 ^ 31 <= c < 2 ^ 31 -> c < 0 \/ 0x10ffff < c ->
  utrie3_get t c = Some (errorValue t).
Proof.
  intros Hc Ho. unfold utrie3_get.
  assert (Hu : 0x10ffff < to_uint32 c).
  { destruct Ho; [rewrite to_uint32_neg by lia|rewrite to_uint32_nonneg by lia];
      lia. }
  destruct (Z.leb_spec (to_uint32 c) 0x7f); [lia|].
  destruct (Z.leb_spec (to_uint32 c) 0xffff); [lia|].
  destruct (Z.gtb_spec (to_uint32 c) 0x10ffff); [reflexivity|lia].
Qed.

(** The data block of a BMP code point, through the BMP index. *)
Lemma get_bmp_block (t : UTrie3) (c : Z) :
  well_formed t -> 0 <= c <= 0xffff ->
  exists e, zth (index t) (c / 32) = Some e
    /\ 0 <= e /\ e + 32 <= data_limit t
    /\ utrie3_get t c = read_data t (e + c mod 32).
Proof.
  intros H Hc.
  destruct (wf_bmp_block t (c / 32) H) as (e & He & He0 & Hel); [dlia|].
  exists e. repeat split; try assumption.
  destruct (Z.le_gt_cases c 0x7f) as [Ha|Ha].
  - rewrite get_ascii by (assumption || lia).
    rewrite (wf_ascii t (c / 32) H) in He by dlia.
    assert (He' : e = data_start t + 32 * (c / 32)) by congruence.
    f_equal. dlia.
  - rewrite get_bmp by lia. rewrite He. reflexivity.
Qed.

(** The data block of a supplementary code point below [highStart]. *)
Lemma get_supp_block (t : UTrie3) (c : Z) :
  well_formed t -> 0xffff < c -> c < highStart t ->
  exists b e, zth (index t) (2044 + c / 16384) = Some b
    /\ 2048 <= b /\ b + 512 <= indexLength t
    /\ zth (index t) (b + (c / 32) mod 512) = Some e
    /\ 0 <= e /\ e * 4 + 32 <= data_limit t
    /\ utrie3_get t c = read_data t (e * 4 + c mod 32).
Proof.
  intros H Hc Hh. pose proof (wf_fields t H) as Hf.
  destruct (wf_supp_block t (c / 16384) H) as (b & Hb & Hb0 & Hb1 & Hj); [dlia|].
  destruct (Hj ((c / 32) mod 512)) as (e & He & He0 & Hel); [dlia|].
  exists b, e. repeat split; try assumption.
  rewrite get_supp by lia. rewrite Hb. simpl. rewrite He. reflexivity.
Qed.

Lemma sample_trie32_wf : well_formed Sample.trie32.
Proof. vm_compute. reflexivity. Qed.

Lemma sample_trie16_wf : well_formed Sample.trie16.
Proof. vm_compute. reflexivity. Qed.

Lemma sample_trie_low_wf : well_formed Sample.trie_low.
Proof. vm_compute. reflexivity. Qed.

(** C3.  utrie3_get is total on the 32-bit signed integers: outside
    U+0000..U+10FFFF it returns [errorValue], whatever the trie; on a
    well-formed trie every read stays inside the arrays, so that a value
    is returned for every [c]. *)
Theorem utrie3_get_total (t : UTrie3) (c : Z) :
  - 2 ^ 31 <= c < 2 ^ 31 ->
  (c < 0 \/ 0x10ffff < c -> utrie3_get t c = Some (errorValue t))
  /\ (well_formed t -> exists v, utrie3_get t c = Some v).
Proof.
  intros Hc. split; [apply get_out_of_range; assumption|].
  intros H. pose proof (wf_fields t H) as Hf.
  destruct (Z.lt_ge_cases c 0) as [Hn|Hn].
  { eexists. apply get_out_of_range; [assumption|lia]. }
  destruct (Z.le_gt_cases c 0xffff) as [Hb|Hb].
  { destruct (get_bmp_block t c H) as (e & _ & He0 & Hel & ->); [lia|].
    apply read_data_in_range. dlia. }
  destruct (Z.lt_ge_cases 0x10ffff c) as [Ho|Ho].
  { eexists. apply get_out_of_range; [assumption|lia]. }
  destruct (Z.le_gt_cases (highStart t) c) as [Hh|Hh].
  { eexists. apply get_high; lia. }
  destruct (get_supp_block t c H) as (b & e & _ & _ & _ & _ & He0 & Hel & ->);
    [lia|lia|].
  apply read_data_in_range. dlia.
Qed.

Lemma utrie3_get_total_witness :
  utrie3_get Sample.trie16 (-1) = Some (errorValue Sample.trie16)
  /\ exists v, utrie3_get Sample.trie16 0x10400 = Some v.
Proof.
  split.
  - apply (proj1 (utrie3_get_total Sample.trie16 (-1) ltac:(lia))). lia.
  - apply (proj2 (utrie3_get_total Sample.trie16 0x10400 ltac:(lia))).
    vm_compute. reflexivity.
Defined.

(** From [highStart] on, every code point has the value [highValue]. *)
Lemma get_high_tail (t : UTrie3) (cp : Z) :
  well_formed t -> highStart t <= cp <= 0x10ffff ->
  utrie3_get t cp = Some (highValue t).
Proof.
  intros H Hcp. pose proof (wf_fields t H) as Hf.
  destruct (Z.le_gt_cases cp 0xffff) as [Hb|Hb].
  - destruct (get_bmp_block t cp H) as (e & He & _ & _ & ->); [lia|].
    destruct (wf_high_tail t (cp / 32) H) as (e' & He' & Hv); [dlia|].
    assert (e' = e) by congruence. subst e'. apply Hv. dlia.
  - apply get_high; lia.
Qed.

(** C4.  On a well-formed trie every code point from [highStart] to
    U+10FFFF has the value [highValue].  Above U+FFFF utrie3_get compares
    with [highStart]; for U+0000..U+FFFF it reads the arrays, which hold
    [highValue] there. *)
Theorem utrie3_get_high_tail (t : UTrie3) (cp : Z) :
  well_formed t -> highStart t <= cp <= 0x10ffff ->
  utrie3_get t cp = Some (highValue t).
Proof. apply get_high_tail. Qed.

Lemma utrie3_get_high_tail_witness :
  utrie3_get Sample.trie_low 0x5000 = Some (highValue Sample.trie_low).
Proof.
  apply utrie3_get_high_tail.
  - vm_compute. reflexivity.
  - vm_compute. split; discriminate.
Defined.

Section RangeScan.

(** One trie, one callback and one call of utrie3_getRange. *)
Variable t : UTrie3.
Variable h : option UTrie3HandleValue.
Variable start : Z.
Variable pValue : option Z.
Hypothesis Hwf : well_formed t.
Hypothesis Hstart : 0 <= start.

Lemma handled_transform (raw : Z) :
  handled t h raw = transform h raw.
Proof.
  unfold handled, maybeHandleValue, transform.
  destruct (Z.eqb_spec raw (initialValue t)) as [->|_]; reflexivity.
Qed.

Lemma serves_bmp (base : Z) :
  0 <= base <= 0xffff -> base mod 16384 = 0 ->
  serves t base (base / 32).
Proof.
  intros Hb Hm i2 Hi2.
  destruct (wf_bmp_block t (base / 32 + i2) Hwf) as (e & He & He0 & Hel); [dlia|].
  exists e. unfold entry_block.
  destruct (Z.geb_spec (base / 32) 2048); [dlia|].
  repeat split; try assumption.
  intros k Hk.
  destruct (get_bmp_block t (base + 32 * i2 + k) Hwf) as (e' & He' & _ & _ & ->);
    [dlia|].
  replace ((base + 32 * i2 + k) / 32) with (base / 32 + i2) in He' by dlia.
  replace ((base + 32 * i2 + k) mod 32) with k by dlia.
  congruence.
Qed.

Lemma serves_supp (base : Z) :
  0xffff < base < highStart t -> base mod 16384 = 0 ->
  exists b, zth (index t) (2044 + base / 16384) = Some b
    /\ 2048 <= b /\ b + 512 <= indexLength t /\ serves t base b.
Proof.
  intros Hb Hm. pose proof (wf_fields t Hwf) as Hf.
  destruct (wf_supp_block t (base / 16384) Hwf) as (b & Hbi & Hb0 & Hb1 & Hj);
    [dlia|].
  exists b. repeat split; try assumption.
  intros i2 Hi2. destruct (Hj i2 Hi2) as (e & He & He0 & Hel).
  exists e. unfold entry_block. destruct (Z.geb_spec b 2048); [|lia].
  repeat split; try assumption; try lia.
  intros k Hk.
  destruct (get_supp_block t (base + 32 * i2 + k) Hwf)
    as (b' & e' & Hb' & _ & _ & He' & _ & _ & ->); [dlia|dlia|].
  replace ((base + 32 * i2 + k) / 16384) with (base / 16384) in Hb' by dlia.
  assert (b' = b) by congruence. subst b'.
  replace (((base + 32 * i2 + k) / 32) mod 512) with i2 in He' by dlia.
  replace ((base + 32 * i2 + k) mod 32) with k by dlia.
  congruence.
Qed.

(** The loop over the rest of a data block. *)
Lemma scan_block_spec (v : Z) :
  forall (fuel : nat) (c di : Z),
  32 - c mod 32 <= Z.of_nat fuel ->
  (forall k, 0 < k < 32 - c mod 32 ->
     exists x, read_data t (di + k) = Some x) ->
  exists r,
    scan_block fuel t h (transform h (initialValue t)) v c di = Some r
    /\ match r with
       | inr c' =>
           c' = c - c mod 32 + 32
           /\ forall k, 0 < k < 32 - c mod 32 ->
              option_map (handled t h) (read_data t (di + k)) = Some v
       | inl e =>
           exists k, 0 < k < 32 - c mod 32 /\ e = c + k - 1
             /\ (forall k', 0 < k' < k ->
                 option_map (handled t h) (read_data t (di + k')) = Some v)
             /\ exists x,
                 option_map (handled t h) (read_data t (di + k)) = Some x
                 /\ x <> v
       end.
Proof.
  induction fuel as [|fuel IH]; intros c di Hfuel Hread.
  { exfalso. dlia. }
  cbn [scan_block]. rewrite land_data_mask.
  destruct (Z.eqb_spec ((c + 1) mod 32) 0) as [Hz|Hz].
  { eexists. split; [reflexivity|]. split; [dlia|]. intros k Hk. exfalso. dlia. }
  destruct (Hread 1) as (x & Hx); [dlia|]. rewrite Hx. cbn [obind].
  fold (handled t h x).
  destruct (Z.eqb_spec (handled t h x) v) as [Hv|Hv].
  - destruct (IH (c + 1) (di + 1)) as (r & Hr & Hpost).
    + dlia.
    + intros k Hk. replace (di + 1 + k) with (di + (k + 1)) by lia.
      apply Hread. dlia.
    + exists r. split; [assumption|].
      assert (Hone : forall k, 0 < k < 2 ->
                option_map (handled t h) (read_data t (di + k)) = Some v).
      { intros k Hk. replace k with 1 by lia. rewrite Hx. simpl. congruence. }
      destruct r as [e|c'].
      * destruct Hpost as (k & Hk & He & Hbefore & x' & Hx' & Hne).
        exists (k + 1). split; [dlia|]. split; [lia|]. split.
        -- intros k' Hk'. destruct (Z.eq_dec k' 1) as [->|Hk1].
           ++ apply Hone. lia.
           ++ replace (di + k') with (di + 1 + (k' - 1)) by lia.
              apply Hbefore. lia.
        -- exists x'. replace (di + (k + 1)) with (di + 1 + k) by lia. auto.
      * destruct Hpost as (Hc' & Hall). split; [dlia|].
        intros k Hk. destruct (Z.eq_dec k 1) as [->|Hk1].
        -- apply Hone. lia.
        -- replace (di + k) with (di + 1 + (k - 1)) by lia. apply Hall. dlia.
  - eexists. split; [reflexivity|]. exists 1. split; [dlia|]. split; [lia|].
    split; [intros k' Hk'; lia|]. exists (handled t h x). rewrite Hx. auto.
Qed.

Lemma run_of_extend (mid stop v : Z) :
  run_of t h start mid v ->
  (forall cp, start <= cp -> mid <= cp < stop -> range_value t h cp = Some v) ->
  run_of t h start stop v.
Proof.
  intros Hrun Hext cp Hcp. destruct (Z.lt_ge_cases cp mid).
  - apply Hrun. lia.
  - apply Hext; lia.
Qed.

(** The comparison with the value of the range, or its first value. *)
Lemma check_value_spec (s : Scan) (x limit : Z) :
  scan_pre t h start pValue s ->
  range_value t h (sc_c s) = Some x -> sc_c s < limit ->
  match check_value s x with
  | Return e o => early_return t h start pValue limit e o
  | Next s' =>
      sc_c s' = sc_c s /\ sc_prevBlock s' = sc_prevBlock s
      /\ sc_prevI2Block s' = sc_prevI2Block s
      /\ sc_value s' = Some x
      /\ sc_out s' = option_map (fun _ => x) pValue
      /\ run_of t h start (sc_c s) x
      /\ (sc_value s = None \/ sc_value s = Some x)
  end.
Proof.
  unfold scan_pre, check_value. intros Hpre Hx Hlim.
  destruct (sc_value s) as [v|] eqn:Hv.
  - destruct Hpre as (Hlt & Hal & Hrun & Hout).
    destruct (Z.eqb_spec x v) as [->|Hne].
    + repeat split; auto.
    + exists v. replace (sc_c s - 1 + 1) with (sc_c s) by lia.
      repeat split; try assumption; try lia. exists x. auto.
  - destruct Hpre as (Hc & Hout). cbn. rewrite Hout.
    repeat split; auto. intros cp Hcp. lia.
Qed.

Lemma scan_pre_start (s : Scan) :
  scan_pre t h start pValue s -> start <= sc_c s.
Proof. unfold scan_pre. destruct (sc_value s); lia. Qed.

Lemma scan_pre_aligned (s : Scan) :
  scan_pre t h start pValue s -> start < sc_c s -> sc_c s mod 32 = 0.
Proof. unfold scan_pre. destruct (sc_value s); lia. Qed.

Lemma null_block_uniform :
  dataNullOffset t + 32 <= data_limit t ->
  uniform t h (dataNullOffset t) (transform h (initialValue t)).
Proof.
  intros Hl j Hj.
  destruct (wf_null_data t Hwf) as [(_ & Hn)|(Hge & _)]; [|lia].
  rewrite Hn by assumption. simpl. rewrite handled_transform. reflexivity.
Qed.

(** One data block of the scan. *)
Lemma data_block_step_spec (base i2Block i2 : Z) (s : Scan) :
  base mod 16384 = 0 -> serves t base i2Block ->
  0 <= i2 < 512 ->
  base + 32 * i2 <= sc_c s < base + 32 * i2 + 32 ->
  scan_inv t h start pValue s ->
  exists r,
    data_block_step t h (transform h (initialValue t)) start i2Block i2 s
    = Some r
    /\ match r with
       | Return e o =>
           early_return t h start pValue (base + 32 * i2 + 32) e o
       | Next s' =>
           sc_c s' = base + 32 * i2 + 32 /\ sc_value s' <> None
           /\ scan_inv t h start pValue s'
           /\ sc_prevI2Block s' = sc_prevI2Block s
       end.
Proof.
  intros Hbase Hserves Hi2 Hc [Hpre Hprev].
  destruct (Hserves i2 Hi2) as (e & He & Hb0 & Hbl & Hget).
  set (block := entry_block i2Block e) in *.
  assert (Hbb : exists bb, bb = base + 32 * i2) by eauto.
  destruct Hbb as (bb & Hbb). rewrite <- Hbb in *.
  assert (Hbbm : bb mod 32 = 0) by dlia.
  assert (Hval : forall cp, bb <= cp < bb + 32 ->
            range_value t h cp
            = option_map (handled t h) (read_data t (block + (cp - bb)))).
  { intros cp Hcp. unfold range_value.
    replace cp with (bb + (cp - bb)) at 1 by lia.
    rewrite Hget by lia. reflexivity. }
  assert (Huni : forall v, uniform t h block v ->
            forall cp, bb <= cp < bb + 32 -> range_value t h cp = Some v).
  { intros v Hu cp Hcp. rewrite Hval by assumption. apply Hu. lia. }
  pose proof (scan_pre_start _ Hpre) as Hsc.
  assert (Hfirst : start <= bb -> sc_c s = bb).
  { intros Hle. destruct (Z.eq_dec (sc_c s) start) as [Heq|Hne]; [lia|].
    pose proof (scan_pre_aligned _ Hpre ltac:(lia)). dlia. }
  unfold data_block_step. rewrite He. cbn [obind].
  rewrite shiftl_2. change UTRIE3_INDEX_2_BMP_LENGTH with 2048.
  fold (entry_block i2Block e). fold block.
  change UTRIE3_DATA_BLOCK_LENGTH with 32.
  rewrite land_data_mask.
  destruct ((block =? sc_prevBlock s) && (sc_c s - start >=? 32)) eqn:Hskip.
  { (* the block is the previous one *)
    b2p. eexists. split; [reflexivity|]. cbn.
    unfold scan_inv, scan_pre in *. cbn.
    destruct (sc_value s) as [v|] eqn:Hv; [|lia].
    destruct Hpre as (Hlt & Hal & Hrun & Hout).
    assert (Hu : uniform t h block v).
    { replace block with (sc_prevBlock s) by lia. apply Hprev; [reflexivity|lia]. }
    assert (sc_c s = bb) by dlia.
    split; [lia|]. split; [discriminate|]. split; [|reflexivity].
    split.
    - split; [lia|]. split; [dlia|]. split; [|assumption].
      apply run_of_extend with (mid := sc_c s); [assumption|].
      intros cp _ Hcp. apply Huni; [assumption|lia].
    - intros v' Hv' _. injection Hv' as <-. apply Hprev; [reflexivity|lia]. }
  clear Hskip.
  assert (Hnext : 32 * ((sc_c s + 32) / 32) = bb + 32) by dlia.
  assert (Hdone : forall s' v,
            sc_c s' = bb + 32 -> sc_value s' = Some v ->
            sc_prevBlock s' = block ->
            sc_out s' = option_map (fun _ => v) pValue ->
            run_of t h start (sc_c s) v ->
            (forall cp, sc_c s <= cp < bb + 32 -> range_value t h cp = Some v) ->
            scan_inv t h start pValue s').
  { intros s' v Hc' Hv' Hp' Ho' Hrun Hrest. unfold scan_inv, scan_pre.
    rewrite Hv', Hc', Hp'. split.
    - split; [lia|]. split; [dlia|]. split; [|assumption].
      apply run_of_extend with (mid := sc_c s); [assumption|].
      intros cp _ Hcp. apply Hrest. lia.
    - intros v' Hv'' Hfar. injection Hv'' as <-.
      intros j Hj. rewrite <- (Hrest (bb + j)) by (rewrite Hfirst; lia).
      rewrite Hval by lia. do 2 f_equal. lia. }
  destruct (Z.eqb_spec block (dataNullOffset t)) as [Hnull|Hnull].
  { (* the data null block *)
    assert (Hu : uniform t h block (transform h (initialValue t))).
    { rewrite Hnull. apply null_block_uniform; lia. }
    pose proof (check_value_spec (set_prevBlock s block)
                  (transform h (initialValue t)) (bb + 32)) as Hchk.
    cbn in Hchk. specialize (Hchk Hpre).
    destruct (check_value (set_prevBlock s block) (transform h (initialValue t)))
      as [r o|s'].
    - eexists. split; [reflexivity|]. apply Hchk; [|lia].
      apply Huni; [assumption|lia].
    - destruct Hchk as (Hc' & Hp' & Hi' & Hv' & Ho' & Hrun & _);
        [apply Huni; [assumption|lia]|lia|].
      eexists. split; [reflexivity|].
      cbn [sc_c sc_value sc_prevI2Block set_c].
      rewrite land_lnot_data_mask, Hc', Hnext.
      split; [reflexivity|]. split; [congruence|]. split; [|assumption].
      apply (Hdone _ (transform h (initialValue t))); cbn;
        try assumption; try reflexivity.
      intros cp Hcp. apply Huni; [assumption|lia]. }
  (* a block with data *)
  destruct (read_data_in_range t (block + sc_c s mod 32)) as (x & Hx); [dlia|].
  cbn [sc_c set_prevBlock]. rewrite Hx. cbn [obind]. fold (handled t h x).
  assert (Hcx : range_value t h (sc_c s) = Some (handled t h x)).
  { rewrite Hval by lia. replace (sc_c s - bb) with (sc_c s mod 32) by dlia.
    rewrite Hx. reflexivity. }
  pose proof (check_value_spec (set_prevBlock s block)
                (handled t h x) (bb + 32)) as Hchk.
  cbn in Hchk. specialize (Hchk Hpre Hcx ltac:(lia)).
  destruct (check_value (set_prevBlock s block) (handled t h x)) as [r o|s'].
  { eexists. split; [reflexivity|]. assumption. }
  destruct Hchk as (Hc' & Hp' & Hi' & Hv' & Ho' & Hrun & _).
  rewrite Hv'. cbn [obind]. rewrite Hc'.
  destruct (scan_block_spec (handled t h x) 32 (sc_c s)
              (block + sc_c s mod 32)) as (r & Hr & Hpost).
  { dlia. }
  { intros k Hk. apply read_data_in_range. dlia. }
  rewrite Hr. cbn [obind].
  assert (Hat : forall k, 0 < k -> sc_c s + k < bb + 32 ->
            range_value t h (sc_c s + k)
            = option_map (handled t h)
                (read_data t (block + sc_c s mod 32 + k))).
  { intros k Hk Hlt. rewrite Hval by lia. do 2 f_equal. dlia. }
  destruct r as [r|c'].
  - destruct Hpost as (k & Hk & -> & Hbefore & y & Hy & Hne).
    eexists. split; [reflexivity|].
    exists (handled t h x). replace (sc_c s + k - 1 + 1) with (sc_c s + k) by lia.
    split; [assumption|]. split; [lia|]. split; [dlia|]. split.
    + apply run_of_extend with (mid := sc_c s); [assumption|].
      intros cp _ Hcp. destruct (Z.eq_dec cp (sc_c s)) as [->|Hn]; [assumption|].
      replace cp with (sc_c s + (cp - sc_c s)) by lia.
      rewrite Hat by dlia. apply Hbefore. lia.
    + exists y. rewrite Hat by dlia. auto.
  - destruct Hpost as (-> & Hall).
    eexists. split; [reflexivity|]. cbn.
    replace (sc_c s - sc_c s mod 32 + 32) with (bb + 32) by dlia.
    split; [reflexivity|]. split; [congruence|]. split; [|assumption].
    apply (Hdone _ (handled t h x)); cbn; try assumption; try dlia.
    intros cp Hcp. destruct (Z.eq_dec cp (sc_c s)) as [->|Hn]; [assumption|].
    replace cp with (sc_c s + (cp - sc_c s)) by lia.
    rewrite Hat by dlia. apply Hall. dlia.
Qed.

Lemma early_return_mono (limit limit' e : Z) (o : option Z) :
  limit <= limit' ->
  early_return t h start pValue limit e o ->
  early_return t h start pValue limit' e o.
Proof.
  intros Hle (v & Ho & Hs & He & Hrun & Hx). exists v.
  repeat split; try assumption; lia.
Qed.

(** The loop over the data blocks of one index-2 block. *)
Lemma for_i2_spec (base i2Block : Z) :
  base mod 16384 = 0 -> serves t base i2Block ->
  forall (fuel : nat) (i2 : Z) (s : Scan),
  512 - i2 < Z.of_nat fuel -> 0 <= i2 <= 512 ->
  (i2 < 512 -> base + 32 * i2 <= sc_c s < base + 32 * i2 + 32) ->
  (i2 = 512 -> sc_c s = base + 16384 /\ sc_value s <> None) ->
  scan_inv t h start pValue s ->
  exists r,
    for_i2 fuel t h (transform h (initialValue t)) start i2Block i2 s = Some r
    /\ match r with
       | Return e o => early_return t h start pValue (base + 16384) e o
       | Next s' =>
           sc_c s' = base + 16384 /\ sc_value s' <> None
           /\ scan_inv t h start pValue s'
           /\ sc_prevI2Block s' = sc_prevI2Block s
       end.
Proof.
  intros Hbase Hserves.
  induction fuel as [|fuel IH]; intros i2 s Hfuel Hi2 Hin Hend Hinv; [lia|].
  cbn [for_i2]. change UTRIE3_INDEX_2_BLOCK_LENGTH with 512.
  destruct (Z.ltb_spec i2 512) as [Hlt|Hge].
  - destruct (data_block_step_spec base i2Block i2 s)
      as (r & Hr & Hpost); try assumption; [lia|auto|].
    rewrite Hr. cbn [obind]. destruct r as [e o|s'].
    + eexists. split; [reflexivity|].
      apply early_return_mono with (limit := base + 32 * i2 + 32); [lia|assumption].
    + destruct Hpost as (Hc' & Hv' & Hinv' & Hp').
      destruct (IH (i2 + 1) s') as (r & Hr' & Hpost'); try assumption; try lia.
      { intros Hlast. split; [lia|assumption]. }
      exists r. split; [assumption|].
      destruct r as [e o|s'']; [assumption|].
      destruct Hpost' as (Hc'' & Hv'' & Hinv'' & Hp'').
      split; [assumption|]. split; [assumption|]. split; [assumption|].
      congruence.
  - destruct Hend as (Hc & Hv); [lia|].
    eexists. split; [reflexivity|].
    split; [assumption|]. split; [assumption|]. split; [assumption|reflexivity].
Qed.

Lemma serves_value (base b v : Z) :
  base mod 16384 = 0 -> serves t base b -> uniform2 t h b v ->
  forall cp, base <= cp < base + 16384 -> range_value t h cp = Some v.
Proof.
  intros Hbase Hs Hu cp Hcp.
  destruct (Hs ((cp - base) / 32)) as (e & He & _ & _ & Hget); [dlia|].
  destruct (Hu ((cp - base) / 32)) as (e' & He' & Hun); [dlia|].
  assert (e' = e) by congruence. subst e'.
  unfold range_value.
  replace cp with (base + 32 * ((cp - base) / 32) + (cp - base) mod 32) at 1
    by dlia.
  rewrite Hget by dlia. apply Hun. dlia.
Qed.

Lemma serves_uniform2 (base b v : Z) :
  serves t base b ->
  (forall cp, base <= cp < base + 16384 -> range_value t h cp = Some v) ->
  uniform2 t h b v.
Proof.
  intros Hs Hv i2 Hi2. destruct (Hs i2 Hi2) as (e & He & _ & _ & Hget).
  exists e. split; [assumption|]. intros j Hj.
  rewrite <- Hget by assumption. apply Hv. lia.
Qed.

Lemma null_index2_uniform2 :
  index2NullOffset t + 512 <= indexLength t ->
  uniform t h (dataNullOffset t) (transform h (initialValue t))
  /\ uniform2 t h (index2NullOffset t) (transform h (initialValue t)).
Proof.
  intros Hr. destruct (wf_null_index2 t Hwf Hr) as (Hlt & Hj).
  assert (Hu : uniform t h (dataNullOffset t) (transform h (initialValue t))).
  { intros j Hjr. destruct (wf_null_data t Hwf) as [(_ & Hn)|(Hge & _)]; [|lia].
    rewrite Hn by assumption. simpl. rewrite handled_transform. reflexivity. }
  split; [assumption|].
  intros i2 Hi2. destruct (Hj i2 Hi2) as (e & He & Hd).
  exists e. split; [assumption|]. unfold entry_block. rewrite Hd. assumption.
Qed.

(** One index-2 block of the scan, once [i2Block] is known. *)
Lemma index2_block_spec (base i2Block : Z) (s : Scan) :
  base mod 16384 = 0 -> serves t base i2Block ->
  i2Block + 512 <= indexLength t ->
  base <= sc_c s < base + 16384 ->
  scan_inv t h start pValue s ->
  exists r,
    index2_block t h (transform h (initialValue t)) start i2Block s = Some r
    /\ match r with
       | Return e o => early_return t h start pValue (base + 16384) e o
       | Next s' =>
           sc_c s' = base + 16384 /\ sc_value s' <> None
           /\ scan_inv2 t h start pValue s'
       end.
Proof.
  intros Hbase Hserves Hlen Hc [Hpre Hprev].
  pose proof (scan_pre_start _ Hpre) as Hsc.
  unfold index2_block.
  destruct (Z.eqb_spec i2Block (index2NullOffset t)) as [Hnull|Hnull].
  - (* the index-2 null block *)
    destruct null_index2_uniform2 as (Hu & Hu2); [lia|].
    rewrite <- Hnull in Hu2.
    pose proof (serves_value base i2Block _ Hbase Hserves Hu2) as Hval.
    pose proof (check_value_spec (set_prevI2Block s i2Block)
                  (transform h (initialValue t)) (base + 16384)) as Hchk.
    cbn in Hchk. specialize (Hchk Hpre (Hval _ Hc) ltac:(lia)).
    destruct (check_value (set_prevI2Block s i2Block)
                (transform h (initialValue t))) as [e o|s'].
    + eexists. split; [reflexivity|]. assumption.
    + destruct Hchk as (Hc' & Hp' & Hi' & Hv' & Ho' & Hrun & _).
      eexists. split; [reflexivity|].
      cbn [sc_c sc_value sc_prevI2Block sc_prevBlock set_c set_prevBlock].
      rewrite land_lnot_cp_mask, Hc'.
      change UTRIE3_CP_PER_INDEX_1_ENTRY with 16384.
      replace (16384 * ((sc_c s + 16384) / 16384)) with (base + 16384) by dlia.
      split; [reflexivity|]. split; [congruence|].
      unfold scan_inv2, scan_inv, scan_pre.
      cbn [sc_c sc_value sc_prevI2Block sc_prevBlock sc_out set_c set_prevBlock].
      rewrite Hv', Hi'. cbn [sc_prevI2Block set_prevI2Block].
      split; [split|].
      * split; [lia|]. split; [dlia|]. split; [|assumption].
        apply run_of_extend with (mid := sc_c s); [assumption|].
        intros cp _ Hcp. apply Hval. lia.
      * intros v Hv _. injection Hv as <-. assumption.
      * intros v Hv. injection Hv as <-. split; [dlia|]. intros _. assumption.
  - rewrite shiftr_5, land_index_2_mask.
    destruct (for_i2_spec base i2Block Hbase Hserves
                513 ((sc_c s / 32) mod 512) (set_prevI2Block s i2Block))
      as (r & Hr & Hpost).
    + dlia.
    + dlia.
    + intros _. cbn [sc_c set_prevI2Block]. dlia.
    + intros Hi2. exfalso. dlia.
    + split; assumption.
    + cbn [sc_c set_prevI2Block] in *. rewrite Hr.
      eexists. split; [reflexivity|]. destruct r as [e o|s']; [assumption|].
      destruct Hpost as (Hc' & Hv' & Hinv' & Hi').
      split; [assumption|]. split; [assumption|]. split; [assumption|].
      intros v Hv. rewrite Hc'. split; [dlia|]. intros Hfar.
      rewrite Hi'. cbn. apply serves_uniform2 with (base := base); [assumption|].
      destruct Hinv' as [Hpre' _]. unfold scan_pre in Hpre'. rewrite Hv in Hpre'.
      destruct Hpre' as (_ & _ & Hrun & _). intros cp Hcp. apply Hrun. lia.
Qed.

(** One turn of the do-while loop. *)
Lemma index2_step_spec (s : Scan) :
  sc_c s < highStart t ->
  scan_inv2 t h start pValue s ->
  exists r,
    index2_step t h (transform h (initialValue t)) start s = Some r
    /\ match r with
       | Return e o =>
           early_return t h start pValue (16384 * (sc_c s / 16384) + 16384) e o
       | Next s' =>
           sc_c s' = 16384 * (sc_c s / 16384) + 16384
           /\ sc_value s' <> None
           /\ scan_inv2 t h start pValue s'
       end.
Proof.
  intros Hhigh [Hinv Hinv2].
  pose proof (wf_fields t Hwf) as Hf.
  pose proof (scan_pre_start _ (proj1 Hinv)) as Hsc.
  assert (Hb : exists base, base = 16384 * (sc_c s / 16384)) by eauto.
  destruct Hb as (base & Hb). rewrite <- Hb.
  assert (Hbase : base mod 16384 = 0) by dlia.
  assert (Hc : base <= sc_c s < base + 16384) by dlia.
  unfold index2_step.
  destruct (Z.leb_spec (sc_c s) 0xffff) as [Hbmp|Hsupp].
  - rewrite shiftr_5, land_lnot_index_2_mask.
    replace (512 * (sc_c s / 32 / 512)) with (base / 32) by dlia.
    apply index2_block_spec; try assumption.
    + apply serves_bmp; [dlia|assumption].
    + dlia.
  - rewrite shiftr_14.
    change (UTRIE3_INDEX_1_OFFSET - UTRIE3_OMITTED_BMP_INDEX_1_LENGTH) with 2044.
    destruct (serves_supp base) as (b & Hbi & Hb0 & Hb1 & Hserves);
      [dlia|assumption|].
    replace (sc_c s / 16384) with (base / 16384) by dlia.
    rewrite Hbi. cbn [obind]. change UTRIE3_CP_PER_INDEX_1_ENTRY with 16384.
    destruct ((b =? sc_prevI2Block s) && (sc_c s - start >=? 16384)) eqn:Hskip.
    + (* the index-2 block is the previous one *)
      b2p. eexists. split; [reflexivity|]. cbn [sc_c sc_value set_c].
      destruct Hinv as [Hpre Hprev]. unfold scan_pre in Hpre.
      destruct (sc_value s) as [v|] eqn:Hv; [|lia].
      destruct Hpre as (Hlt & Hal & Hrun & Hout).
      destruct (Hinv2 v eq_refl) as (Hal2 & Hu2).
      assert (Hcb : sc_c s = base) by dlia.
      assert (Hu : uniform2 t h b v).
      { replace b with (sc_prevI2Block s) by lia. apply Hu2. lia. }
      split; [lia|]. split; [discriminate|].
      unfold scan_inv2, scan_inv, scan_pre.
      cbn [sc_c sc_value sc_prevI2Block sc_prevBlock sc_out set_c]. rewrite Hv.
      split; [split|].
      * split; [lia|]. split; [dlia|]. split; [|assumption].
        apply run_of_extend with (mid := sc_c s); [assumption|].
        intros cp _ Hcp.
        apply (serves_value base b v Hbase Hserves Hu). lia.
      * intros v' Hv' _. injection Hv' as <-. apply Hprev; [reflexivity|lia].
      * intros v' Hv'. injection Hv' as <-. split; [dlia|].
        intros _. apply Hu2. lia.
    + apply index2_block_spec; assumption.
Qed.

(** The do-while loop: it returns early, or arrives at [highStart]. *)
Lemma do_while_spec :
  forall (fuel : nat) (s : Scan),
  highStart t / 16384 - sc_c s / 16384 <= Z.of_nat fuel ->
  sc_c s < highStart t ->
  scan_inv2 t h start pValue s ->
  exists r,
    do_while fuel t h (transform h (initialValue t)) start s = Some r
    /\ match r with
       | Return e o => early_return t h start pValue (highStart t) e o
       | Next s' =>
           sc_c s' = highStart t /\ sc_value s' <> None
           /\ scan_inv2 t h start pValue s'
       end.
Proof.
  pose proof (wf_fields t Hwf) as Hf.
  induction fuel as [|fuel IH]; intros s Hfuel Hhigh Hinv.
  { exfalso.
    pose proof (scan_pre_start _ (proj1 (proj1 Hinv))). dlia. }
  pose proof (scan_pre_start _ (proj1 (proj1 Hinv))) as Hsc.
  cbn [do_while].
  destruct (index2_step_spec s Hhigh Hinv)
    as (r & Hr & Hpost).
  rewrite Hr. cbn [obind]. destruct r as [e o|s'].
  - eexists. split; [reflexivity|].
    eapply early_return_mono; [|eassumption]. dlia.
  - destruct Hpost as (Hc' & Hv' & Hinv').
    destruct (Z.ltb_spec (sc_c s') (highStart t)) as [Hlt|Hge].
    + apply IH; [dlia|assumption|assumption].
    + eexists. split; [reflexivity|]. split; [dlia|]. split; assumption.
Qed.

End RangeScan.

(** C1.  On a well-formed trie, for a start in U+0000..U+10FFFF,
    utrie3_getRange returns an end from [start] to U+10FFFF and stores a
    value in [*pValue] (when [pValue] is not null) such that every code
    point from [start] to the end has that transformed value, a stored
    value equal to [initialValue] counting as the transformed
    [initialValue]; and the end is maximal: it is U+10FFFF, or the next
    code point has another transformed value. *)
Theorem utrie3_getRange_correct (t : UTrie3) (start : Z)
    (handleValue : option UTrie3HandleValue) (pValue : option Z) :
  well_formed t -> 0 <= start <= 0x10ffff ->
  exists e v,
    utrie3_getRange t start handleValue pValue
    = Some (e, option_map (fun _ => v) pValue)
    /\ start <= e <= 0x10ffff
    /\ (forall cp, start <= cp <= e -> range_value t handleValue cp = Some v)
    /\ (e = 0x10ffff
        \/ exists x, range_value t handleValue (e + 1) = Some x /\ x <> v).
Proof.
  intros H Hstart. pose proof (wf_fields t H) as Hf.
  unfold utrie3_getRange. rewrite to_uint32_nonneg by lia.
  change MAX_UNICODE with 0x10ffff.
  destruct (Z.gtb_spec start 0x10ffff) as [Hgt|_]; [lia|].
  assert (Htail : forall cp, highStart t <= cp <= 0x10ffff ->
            range_value t handleValue cp
            = Some (handled t handleValue (highValue t))).
  { intros cp Hcp. unfold range_value. rewrite get_high_tail by assumption.
    reflexivity. }
  destruct (Z.geb_spec start (highStart t)) as [Hhigh|Hlow].
  { exists 0x10ffff, (transform handleValue (highValue t)).
    split; [reflexivity|]. split; [lia|]. split; [|left; reflexivity].
    intros cp Hcp. rewrite Htail by lia. rewrite handled_transform. reflexivity. }
  destruct (do_while_spec t handleValue start pValue H (proj1 Hstart)
              (range_fuel t) (mkScan start (-1) (-1) None pValue))
    as (r & Hr & Hpost).
  { unfold range_fuel. rewrite shiftr_14. cbn [sc_c].
    rewrite Nat2Z.inj_succ, Z2Nat.id by dlia. dlia. }
  { assumption. }
  { unfold scan_inv2, scan_inv, scan_pre. cbn.
    repeat split; intros; discriminate. }
  rewrite Hr. cbn [obind]. destruct r as [e o|s].
  - destruct Hpost as (v & Ho & Hs & He & Hrun & Hx).
    exists e, v. rewrite Ho. split; [reflexivity|]. split; [lia|].
    split; [|right; assumption]. intros cp Hcp. apply Hrun. lia.
  - destruct Hpost as (Hc & Hv & [[Hpre _] _]). unfold scan_pre in Hpre.
    destruct (sc_value s) as [v|]; [|congruence].
    destruct Hpre as (Hlt & _ & Hrun & Hout). cbn [obind].
    fold (handled t handleValue (highValue t)). rewrite Hout, Hc in *.
    destruct (Z.eqb_spec (handled t handleValue (highValue t)) v) as [Heq|Hne];
      cbn [negb].
    + exists 0x10ffff, v. split; [reflexivity|]. split; [lia|].
      split; [|left; reflexivity]. intros cp Hcp.
      destruct (Z.lt_ge_cases cp (highStart t)).
      * apply Hrun. lia.
      * rewrite Htail by lia. congruence.
    + exists (highStart t - 1), v. split; [reflexivity|]. split; [lia|].
      split; [intros cp Hcp; apply Hrun; lia|].
      destruct (Z.eq_dec (highStart t) 0x110000) as [Hmax|Hmax]; [left; lia|].
      right. exists (handled t handleValue (highValue t)).
      replace (highStart t - 1 + 1) with (highStart t) by lia.
      split; [apply Htail; lia|assumption].
Qed.

Lemma utrie3_getRange_correct_witness :
  well_formed Sample.trie16 /\ 0 <= 0x42 <= 0x10ffff
  /\ exists e v,
       utrie3_getRange Sample.trie16 0x42 None (Some 0) = Some (e, Some v)
       /\ 0x42 <= e <= 0x10ffff
       /\ (forall cp, 0x42 <= cp <= e ->
           range_value Sample.trie16 None cp = Some v)
       /\ (e = 0x10ffff
           \/ exists x, range_value Sample.trie16 None (e + 1) = Some x
                /\ x <> v).
Proof.
  assert (Hwf : well_formed Sample.trie16) by (vm_compute; reflexivity).
  assert (Hr : 0 <= 0x42 <= 0x10ffff) by lia.
  split; [exact Hwf|]. split; [exact Hr|].
  exact (utrie3_getRange_correct Sample.trie16 0x42 None (Some 0) Hwf Hr).
Defined.


(** ** Bytes and words *)

Lemma byte_val_range (b : byte) : 0 <= byte_val b < 256.
Proof.
  unfold byte_val. pose proof (Byte.to_N_bounded b). lia.
Qed.

Lemma byte_of_val (b : byte) : byte_of (byte_val b) = b.
Proof.
  unfold byte_of. rewrite Z.mod_small by apply byte_val_range.
  unfold byte_val. rewrite N2Z.id, Byte.of_to_N. reflexivity.
Qed.

Lemma byte_val_of (z : Z) : byte_val (byte_of z) = z mod 256.
Proof.
  unfold byte_of, byte_val.
  pose proof (Z.mod_pos_bound z 256 ltac:(lia)) as Hr.
  destruct (Byte.of_N (Z.to_N (z mod 256))) as [b|] eqn:E.
  - apply Byte.to_of_N in E. rewrite E. lia.
  - apply Byte.of_N_None_iff in E. lia.
Qed.

Lemma lor_shiftl_add (a b n : Z) :
  0 <= n -> 0 <= a < 2 ^ n -> Z.lor a (Z.shiftl b n) = a + b * 2 ^ n.
Proof.
  intros Hn Ha. rewrite Z.shiftl_mul_pow2 by assumption.
  rewrite <- Z.lxor_lor, <- Z.add_nocarry_lxor; try reflexivity.
  all: apply Z.bits_inj'; intros m Hm; rewrite Z.land_spec, Z.bits_0;
    rewrite <- Z.shiftl_mul_pow2 by assumption;
    destruct (Z.lt_ge_cases m n);
    [rewrite Z.shiftl_spec_low by assumption; apply andb_false_r
    |rewrite <- (Z.mod_small a (2 ^ n)) by assumption;
     rewrite Z.mod_pow2_bits_high by lia; reflexivity].
Qed.

Lemma word16_of_bytes (b0 b1 : byte) :
  Z.lor (byte_val b0) (Z.shiftl (byte_val b1) 8)
  = byte_val b0 + 256 * byte_val b1.
Proof.
  rewrite lor_shiftl_add; [change (2 ^ 8) with 256; lia|lia|].
  apply byte_val_range.
Qed.

Lemma word32_of_words (lo hi : Z) :
  0 <= lo < 65536 -> Z.lor lo (Z.shiftl hi 16) = lo + 65536 * hi.
Proof.
  intros H. rewrite lor_shiftl_add; [change (2 ^ 16) with 65536; lia|lia|].
  assumption.
Qed.

Lemma shiftr_8 (v : Z) : Z.shiftr v 8 = v / 256.
Proof. rewrite Z.shiftr_div_pow2 by lia. reflexivity. Qed.

Lemma shiftr_16 (v : Z) : Z.shiftr v 16 = v / 65536.
Proof. rewrite Z.shiftr_div_pow2 by lia. reflexivity. Qed.

(** A 16-bit word written and read back, and the other way round. *)
Lemma units16_put_u16 (v : Z) (rest : list byte) :
  units16 (put_u16 v ++ rest) = v mod 65536 :: units16 rest.
Proof.
  unfold put_u16. cbn [app units16]. f_equal.
  rewrite word16_of_bytes, !byte_val_of, shiftr_8. dlia.
Qed.

Lemma byte_of_eq (z : Z) (b : byte) : z mod 256 = byte_val b -> byte_of z = b.
Proof.
  intros H. rewrite <- (byte_of_val b). unfold byte_of.
  rewrite H, (Z.mod_small (byte_val b)) by apply byte_val_range. reflexivity.
Qed.

Lemma put_u16_word (b0 b1 : byte) :
  put_u16 (Z.lor (byte_val b0) (Z.shiftl (byte_val b1) 8)) = [b0; b1].
Proof.
  unfold put_u16. rewrite word16_of_bytes, shiftr_8.
  pose proof (byte_val_range b0). pose proof (byte_val_range b1).
  f_equal; [|f_equal]; apply byte_of_eq; dlia.
Qed.

Lemma units32_put_u32 (v : Z) (rest : list byte) :
  units32 (put_u32 v ++ rest) = v mod 4294967296 :: units32 rest.
Proof.
  unfold put_u32, put_u16. cbn [app units32]. f_equal.
  rewrite !word16_of_bytes, word32_of_words, !byte_val_of, !shiftr_8, shiftr_16.
  - dlia.
  - rewrite !byte_val_of. dlia.
Qed.

Lemma put_u32_word (b0 b1 b2 b3 : byte) :
  put_u32 (Z.lor (Z.lor (byte_val b0) (Z.shiftl (byte_val b1) 8))
             (Z.shiftl (Z.lor (byte_val b2) (Z.shiftl (byte_val b3) 8)) 16))
  = [b0; b1; b2; b3].
Proof.
  pose proof (byte_val_range b0). pose proof (byte_val_range b1).
  pose proof (byte_val_range b2). pose proof (byte_val_range b3).
  unfold put_u32, put_u16.
  rewrite !word16_of_bytes, word32_of_words by lia.
  rewrite shiftr_16, !shiftr_8. cbn [app].
  repeat f_equal; apply byte_of_eq; dlia.
Qed.

Lemma get_u16_range (mem : list byte) (off v : Z) :
  get_u16 mem off = Some v -> 0 <= v < 65536.
Proof.
  unfold get_u16. destruct (zth mem off) as [b0|]; [|discriminate].
  destruct (zth mem (off + 1)) as [b1|]; [|discriminate]. cbn [obind].
  intros Hv. assert (Hv' : v = Z.lor (byte_val b0) (Z.shiftl (byte_val b1) 8))
    by congruence.
  rewrite Hv', word16_of_bytes.
  pose proof (byte_val_range b0). pose proof (byte_val_range b1). lia.
Qed.

Lemma get_u32_range (mem : list byte) (off v : Z) :
  get_u32 mem off = Some v -> 0 <= v < 4294967296.
Proof.
  unfold get_u32. destruct (get_u16 mem off) as [lo|] eqn:Hlo; [|discriminate].
  destruct (get_u16 mem (off + 2)) as [hi|] eqn:Hhi; [|discriminate].
  cbn [obind]. intros Hv.
  assert (Hv' : v = Z.lor lo (Z.shiftl hi 16)) by congruence.
  apply get_u16_range in Hlo, Hhi.
  rewrite Hv', word32_of_words by assumption. lia.
Qed.

(** Arrays of words written and read back. *)
Lemma units16_put_u16s (l : list Z) (rest : list byte) :
  forallb is_u16 l = true ->
  units16 (put_u16s l ++ rest) = l ++ units16 rest.
Proof.
  induction l as [|v l IH]; intros Hl; [reflexivity|].
  cbn [forallb] in Hl. apply andb_true_iff in Hl. destruct Hl as [Hv Hl].
  change (put_u16s (v :: l)) with (put_u16 v ++ put_u16s l).
  rewrite <- app_assoc, units16_put_u16, IH by assumption.
  b2p. rewrite Z.mod_small by (change (2 ^ 16) with 65536 in *; lia).
  reflexivity.
Qed.

Lemma units32_put_u32s (l : list Z) (rest : list byte) :
  forallb is_u32 l = true ->
  units32 (put_u32s l ++ rest) = l ++ units32 rest.
Proof.
  induction l as [|v l IH]; intros Hl; [reflexivity|].
  cbn [forallb] in Hl. apply andb_true_iff in Hl. destruct Hl as [Hv Hl].
  change (put_u32s (v :: l)) with (put_u32 v ++ put_u32s l).
  rewrite <- app_assoc, units32_put_u32, IH by assumption.
  b2p. rewrite Z.mod_small by (change (2 ^ 32) with 4294967296 in *; lia).
  reflexivity.
Qed.

Lemma put_u16s_units16 (n : nat) :
  forall mem : list byte, List.length mem = (2 * n)%nat ->
  put_u16s (units16 mem) = mem.
Proof.
  induction n as [|n IH]; intros mem Hlen.
  - destruct mem; [reflexivity|discriminate].
  - destruct mem as [|b0 [|b1 mem]];
      try (exfalso; cbn [List.length] in Hlen; lia).
    cbn [units16]. change (put_u16s (?v :: ?l)) with (put_u16 v ++ put_u16s l).
    rewrite put_u16_word, IH by (cbn [List.length] in Hlen; lia). reflexivity.
Qed.

Lemma put_u32s_units32 (n : nat) :
  forall mem : list byte, List.length mem = (4 * n)%nat ->
  put_u32s (units32 mem) = mem.
Proof.
  induction n as [|n IH]; intros mem Hlen.
  - destruct mem; [reflexivity|discriminate].
  - destruct mem as [|b0 [|b1 [|b2 [|b3 mem]]]];
      try (exfalso; cbn [List.length] in Hlen; lia).
    cbn [units32]. change (put_u32s (?v :: ?l)) with (put_u32 v ++ put_u32s l).
    rewrite put_u32_word, IH by (cbn [List.length] in Hlen; lia). reflexivity.
Qed.

Lemma zlen_app {A : Type} (l1 l2 : list A) : zlen (l1 ++ l2) = zlen l1 + zlen l2.
Proof. unfold zlen. rewrite length_app. lia. Qed.

Lemma zlen_put_u16s (l : list Z) : zlen (put_u16s l) = 2 * zlen l.
Proof.
  induction l as [|v l IH]; [reflexivity|].
  change (put_u16s (v :: l)) with (put_u16 v ++ put_u16s l).
  rewrite zlen_app, IH. unfold zlen. cbn [List.length put_u16]. lia.
Qed.

Lemma zlen_put_u32s (l : list Z) : zlen (put_u32s l) = 4 * zlen l.
Proof.
  induction l as [|v l IH]; [reflexivity|].
  change (put_u32s (v :: l)) with (put_u32 v ++ put_u32s l).
  rewrite zlen_app, IH. unfold zlen. cbn [List.length put_u32 put_u16 app]. lia.
Qed.

Lemma zlen_units16 (n : nat) :
  forall mem : list byte, List.length mem = (2 * n)%nat ->
  zlen (units16 mem) = Z.of_nat n.
Proof.
  induction n as [|n IH]; intros mem Hlen.
  - destruct mem; [reflexivity|discriminate].
  - destruct mem as [|b0 [|b1 mem]];
      try (exfalso; cbn [List.length] in Hlen; lia).
    cbn [units16]. unfold zlen in *. cbn [List.length] in *.
    rewrite Nat2Z.inj_succ, IH by lia. lia.
Qed.

Lemma zlen_units32 (n : nat) :
  forall mem : list byte, List.length mem = (4 * n)%nat ->
  zlen (units32 mem) = Z.of_nat n.
Proof.
  induction n as [|n IH]; intros mem Hlen.
  - destruct mem; [reflexivity|discriminate].
  - destruct mem as [|b0 [|b1 [|b2 [|b3 mem]]]];
      try (exfalso; cbn [List.length] in Hlen; lia).
    cbn [units32]. unfold zlen in *. cbn [List.length] in *.
    rewrite Nat2Z.inj_succ, IH by lia. lia.
Qed.

Lemma units16_u16 (mem : list byte) : forallb is_u16 (units16 mem) = true.
Proof.
  assert (H : forall n (m : list byte), (List.length m <= n)%nat ->
            forallb is_u16 (units16 m) = true).
  { induction n as [|n IH]; intros m Hm.
    - destruct m; [reflexivity|cbn in Hm; lia].
    - destruct m as [|b0 [|b1 m]]; try reflexivity.
      cbn [units16 forallb]. rewrite IH by (cbn in Hm; lia).
      rewrite andb_true_r. unfold is_u16. rewrite word16_of_bytes.
      pose proof (byte_val_range b0). pose proof (byte_val_range b1).
      apply andb_true_iff. split; [apply Z.leb_le|apply Z.ltb_lt];
        change (2 ^ 16) with 65536; lia. }
  apply (H (List.length mem)). lia.
Qed.

Lemma units32_u32 (mem : list byte) : forallb is_u32 (units32 mem) = true.
Proof.
  assert (H : forall n (m : list byte), (List.length m <= n)%nat ->
            forallb is_u32 (units32 m) = true).
  { induction n as [|n IH]; intros m Hm.
    - destruct m; [reflexivity|cbn in Hm; lia].
    - destruct m as [|b0 [|b1 [|b2 [|b3 m]]]]; try reflexivity.
      cbn [units32 forallb]. rewrite IH by (cbn in Hm; lia).
      rewrite andb_true_r. unfold is_u32.
      pose proof (byte_val_range b0). pose proof (byte_val_range b1).
      pose proof (byte_val_range b2). pose proof (byte_val_range b3).
      rewrite !word16_of_bytes, word32_of_words by lia.
      apply andb_true_iff. split; [apply Z.leb_le|apply Z.ltb_lt];
        change (2 ^ 32) with 4294967296; lia. }
  apply (H (List.length mem)). lia.
Qed.

(** ** Slices *)

Lemma zslice_Some {A : Type} (l : list A) (off n : Z) (r : list A) :
  zslice l off n = Some r ->
  0 <= off /\ 0 <= n /\ off + n <= zlen l
  /\ r = firstn (Z.to_nat n) (skipn (Z.to_nat off) l) /\ zlen r = n.
Proof.
  unfold zslice.
  destruct ((0 <=? off) && (0 <=? n) && (off + n <=? zlen l)) eqn:E;
    [|discriminate].
  intros Hr. injection Hr as <-. b2p. repeat split; try assumption.
  unfold zlen in *. rewrite length_firstn, length_skipn. lia.
Qed.

Lemma zslice_in_range {A : Type} (l : list A) (off n : Z) :
  0 <= off -> 0 <= n -> off + n <= zlen l ->
  zslice l off n = Some (firstn (Z.to_nat n) (skipn (Z.to_nat off) l)).
Proof.
  intros H0 H1 H2. unfold zslice.
  destruct (Z.leb_spec 0 off); [|lia]. destruct (Z.leb_spec 0 n); [|lia].
  destruct (Z.leb_spec (off + n) (zlen l)); [|lia]. reflexivity.
Qed.

Lemma zslice_app_mid {A : Type} (pre mid post : list A) :
  zslice (pre ++ mid ++ post) (zlen pre) (zlen mid) = Some mid.
Proof.
  rewrite zslice_in_range.
  - unfold zlen. rewrite !Nat2Z.id, skipn_app, skipn_all, Nat.sub_diag.
    cbn [skipn app]. rewrite firstn_app, firstn_all, Nat.sub_diag.
    cbn [firstn]. rewrite app_nil_r. reflexivity.
  - apply zlen_nonneg.
  - apply zlen_nonneg.
  - rewrite !zlen_app. pose proof (zlen_nonneg post). lia.
Qed.

Lemma overwrite_front {A : Type} (dst src : list A) :
  zlen src <= zlen dst ->
  overwrite dst 0 src = Some (src ++ skipn (List.length src) dst).
Proof.
  intros H. unfold overwrite. cbn [Z.leb Z.compare andb].
  destruct (Z.leb_spec (0 + zlen src) (zlen dst)); [|lia]. reflexivity.
Qed.

Lemma overwrite_Some {A : Type} (dst : list A) (off : Z) (src out : list A) :
  overwrite dst off src = Some out -> 0 <= off /\ off + zlen src <= zlen dst.
Proof.
  unfold overwrite.
  destruct ((0 <=? off) && (off + zlen src <=? zlen dst)) eqn:E; [|discriminate].
  intros _. b2p. lia.
Qed.

(** ** The header *)

Lemma Some_eq {A : Type} (a b : A) : Some a = Some b -> a = b.
Proof. congruence. Qed.

Lemma read_header_inv (mem : list byte) (h : UTrie3Header) :
  read_header mem = Some h -> exists rest, mem = write_header h ++ rest.
Proof.
  intros H.
  do 24 (destruct mem as [|? mem]; [discriminate H|]).
  exists mem.
  cbn -[byte_val Z.lor Z.shiftl] in H. apply Some_eq in H. rewrite <- H.
  unfold write_header.
  cbn [h_signature h_options h_indexLength h_shiftedDataLength
       h_index2NullOffset h_shiftedHighStart h_highValue h_errorValue].
  rewrite !put_u32_word, !put_u16_word. reflexivity.
Qed.

Lemma read_header_write (h : UTrie3Header) (rest : list byte) :
  read_header (write_header h ++ rest)
  = Some (mkHeader (h_signature h mod 4294967296) (h_options h mod 4294967296)
            (h_indexLength h mod 65536) (h_shiftedDataLength h mod 65536)
            (h_index2NullOffset h mod 65536) (h_shiftedHighStart h mod 65536)
            (h_highValue h mod 4294967296) (h_errorValue h mod 4294967296)).
Proof.
  pose proof (units32_put_u32 (h_signature h) []) as H0.
  pose proof (units32_put_u32 (h_options h) []) as H1.
  pose proof (units16_put_u16 (h_indexLength h) []) as H2.
  pose proof (units16_put_u16 (h_shiftedDataLength h) []) as H3.
  pose proof (units16_put_u16 (h_index2NullOffset h) []) as H4.
  pose proof (units16_put_u16 (h_shiftedHighStart h) []) as H5.
  pose proof (units32_put_u32 (h_highValue h) []) as H6.
  pose proof (units32_put_u32 (h_errorValue h) []) as H7.
  unfold put_u32, put_u16 in *.
  cbn -[byte_val byte_of Z.lor Z.shiftl Z.shiftr Z.modulo] in *.
  unfold write_header, put_u32, put_u16. cbn [app].
  repeat match goal with
         | |- context [byte_of ?x] => set (byte_of x) in *
         end.
  clearbody b b0 b1 b2 b3 b4 b5 b6 b7 b8 b9 b10 b11 b12 b13 b14 b15 b16 b17 b18
    b19 b20 b21 b22.
  cbv -[byte_val Z.lor Z.shiftl Z.modulo
       h_signature h_options h_indexLength h_shiftedDataLength
       h_index2NullOffset h_shiftedHighStart h_highValue h_errorValue].
  congruence.
Qed.

Lemma zlen_write_header (h : UTrie3Header) : zlen (write_header h) = 24.
Proof. reflexivity. Qed.

(** ** The options word *)

Lemma land_value_bits (o : Z) :
  Z.land o UTRIE3_OPTIONS_VALUE_BITS_MASK = o mod 256.
Proof.
  change UTRIE3_OPTIONS_VALUE_BITS_MASK with (Z.ones 8).
  rewrite Z.land_ones by lia. reflexivity.
Qed.

Lemma land_reserved (o : Z) :
  Z.land o UTRIE3_OPTIONS_RESERVED_MASK = 256 * ((o / 256) mod 16).
Proof.
  change UTRIE3_OPTIONS_RESERVED_MASK
    with (Z.land (Z.lnot (Z.ones 8)) (Z.shiftl (Z.ones 4) 8)).
  rewrite Z.land_assoc, <- Z.ldiff_land, Z.ldiff_ones_r by lia.
  rewrite <- Z.shiftl_land, Z.land_ones by lia.
  rewrite Z.shiftl_mul_pow2, Z.shiftr_div_pow2 by lia.
  change (2 ^ 8) with 256. change (2 ^ 4) with 16. lia.
Qed.

Lemma options_word (d vb : Z) :
  0 <= d < 1048576 -> 0 <= vb <= 1 ->
  Z.lor (to_uint32 (Z.shiftl (to_uint32 d) 12)) vb = d * 4096 + vb.
Proof.
  intros Hd Hvb. rewrite (to_uint32_nonneg d) by lia.
  rewrite to_uint32_nonneg
    by (rewrite Z.shiftl_mul_pow2 by lia; change (2 ^ 12) with 4096; lia).
  rewrite Z.lor_comm, lor_shiftl_add; [change (2 ^ 12) with 4096; lia|lia|lia].
Qed.

Lemma options_word_back (o : Z) :
  0 <= o < 4294967296 -> Z.land o UTRIE3_OPTIONS_RESERVED_MASK = 0 ->
  Z.lor (to_uint32 (Z.shiftl (to_uint32 (Z.shiftr o 12)) 12))
        (Z.land o UTRIE3_OPTIONS_VALUE_BITS_MASK) = o.
Proof.
  intros Ho Hres. rewrite land_reserved in Hres. rewrite land_value_bits.
  rewrite Z.shiftr_div_pow2 by lia. change (2 ^ 12) with 4096.
  rewrite (to_uint32_nonneg (o / 4096)) by dlia.
  rewrite to_uint32_nonneg
    by (rewrite Z.shiftl_mul_pow2 by lia; change (2 ^ 12) with 4096; dlia).
  rewrite Z.lor_comm, lor_shiftl_add; [change (2 ^ 12) with 4096; dlia|lia|dlia].
Qed.

(** ** Writing a trie *)

Lemma storage_ok_cases (t : UTrie3) :
  storage_ok t = true ->
  forallb is_u16 (index t) = true
  /\ ((data16 t = Some (indexLength t) /\ data32 t = None
       /\ zlen (index t) = indexLength t + dataLength t)
      \/ (data16 t = None
          /\ exists d32, data32 t = Some d32 /\ zlen (index t) = indexLength t
             /\ zlen d32 = dataLength t /\ forallb is_u32 d32 = true)).
Proof.
  unfold storage_ok. intros H. apply andb_true_iff in H. destruct H as [Hu H].
  split; [assumption|].
  destruct (data16 t) as [d16|], (data32 t) as [d32|]; try discriminate.
  - left. b2p. subst. auto.
  - right. b2p. split; [reflexivity|]. exists d32. auto.
Qed.

Lemma zlen_firstn {A : Type} (l : list A) (n : Z) :
  0 <= n <= zlen l -> zlen (firstn (Z.to_nat n) l) = n.
Proof. unfold zlen. intros H. rewrite length_firstn. lia. Qed.

Lemma zlen_skipn {A : Type} (l : list A) (n : Z) :
  0 <= n <= zlen l -> zlen (skipn (Z.to_nat n) l) = zlen l - n.
Proof. unfold zlen. intros H. rewrite length_skipn. lia. Qed.

Lemma zlen_image_of (t : UTrie3) :
  storage_ok t = true -> 0 <= indexLength t -> 0 <= dataLength t ->
  zlen (image_of t) = serialized_length t.
Proof.
  intros Hs Hi Hd. unfold image_of, serialized_length, index_array, data_array,
    trie_valueBits.
  destruct (storage_ok_cases t Hs)
    as (_ & [(H16 & H32 & Hl)|(H16 & d32 & H32 & Hl & Hdl & _)]);
    rewrite H16; try rewrite H32; cbn [Z.eqb UTRIE3_16_VALUE_BITS UTRIE3_32_VALUE_BITS];
    rewrite !zlen_app, zlen_write_header.
  - rewrite !zlen_put_u16s, zlen_firstn, zlen_firstn by (rewrite ?zlen_skipn; lia).
    change sizeof_UTrie3Header with 24. lia.
  - change (UTRIE3_32_VALUE_BITS =? UTRIE3_16_VALUE_BITS) with false. cbv iota.
    rewrite zlen_put_u16s, zlen_put_u32s, !zlen_firstn by lia.
    change sizeof_UTrie3Header with 24. lia.
Qed.

(** utrie3_serialize with legal arguments and enough room. *)
Lemma serialize_writes (t : UTrie3) (dst : Buffer) (capacity : Z)
    (e : UErrorCode) :
  storage_ok t = true -> 0 <= indexLength t -> 0 <= dataLength t ->
  U_FAILURE e = false -> Z.land (addr dst) 3 = 0 ->
  serialized_length t <= capacity <= zlen (bytes dst) ->
  utrie3_serialize (Some t) (Some dst) capacity e
  = Some (serialized_length t,
          Some (mkBuffer (addr dst)
                  (image_of t
                   ++ skipn (Z.to_nat (serialized_length t)) (bytes dst))),
          e).
Proof.
  intros Hs Hi Hd He Ha Hcap.
  pose proof (zlen_image_of t Hs Hi Hd) as Hlen.
  unfold utrie3_serialize. rewrite He.
  unfold U_POINTER_MASK_LSB. rewrite Ha. cbn [Z.eqb negb orb andb].
  rewrite andb_false_r, orb_false_r.
  unfold image_of, serialized_length, index_array, data_array, trie_valueBits
    in *.
  change sizeof_UTrie3Header with 24 in *.
  destruct (storage_ok_cases t Hs)
    as (_ & [(H16 & H32 & Hl)|(H16 & d32 & H32 & Hl & Hdl & _)]);
    rewrite H16 in *; try rewrite H32 in *.
  - change (UTRIE3_16_VALUE_BITS =? UTRIE3_16_VALUE_BITS) with true in *.
    cbv iota in *.
    destruct (Z.ltb_spec capacity 0) as [Hneg|_]; [exfalso; clear - Hcap Hi Hd Hneg; lia|].
    destruct (Z.ltb_spec capacity (24 + indexLength t * 2 + dataLength t * 2))
      as [Hlt|_]; [exfalso; clear - Hcap Hlt; lia|].
    cbn [obind]. rewrite !zslice_in_range by lia.
    cbn [obind option_map skipn Z.to_nat].
    rewrite overwrite_front by lia. cbn [obind].
    replace (24 + indexLength t * 2 + dataLength t * 2)
      with (24 + 2 * indexLength t + 2 * dataLength t) by lia.
    unfold zlen in Hlen. rewrite <- Hlen, Nat2Z.id. reflexivity.
  - change (UTRIE3_32_VALUE_BITS =? UTRIE3_16_VALUE_BITS) with false in *.
    cbv iota in *.
    destruct (Z.ltb_spec capacity 0) as [Hneg|_]; [exfalso; clear - Hcap Hi Hd Hneg; lia|].
    destruct (Z.ltb_spec capacity (24 + indexLength t * 2 + dataLength t * 4))
      as [Hlt|_]; [exfalso; clear - Hcap Hlt; lia|].
    cbn [obind]. rewrite !zslice_in_range by lia.
    cbn [obind option_map skipn Z.to_nat].
    rewrite overwrite_front by lia. cbn [obind].
    replace (24 + indexLength t * 2 + dataLength t * 4)
      with (24 + 2 * indexLength t + 4 * dataLength t) by lia.
    unfold zlen in Hlen. rewrite <- Hlen, Nat2Z.id. reflexivity.
Qed.

(** ** Reading back what was written *)

Lemma wf_valueBits (t : UTrie3) :
  well_formed t ->
  (trie_valueBits t = 0 /\ data16 t = Some (indexLength t) /\ data32 t = None
   /\ zlen (index t) = indexLength t + dataLength t)
  \/ (trie_valueBits t = 1 /\ data16 t = None
      /\ exists d32, data32 t = Some d32 /\ zlen (index t) = indexLength t
         /\ zlen d32 = dataLength t /\ forallb is_u32 d32 = true).
Proof.
  intros H. unfold trie_valueBits.
  destruct (wf_storage t H) as [(H16 & H32 & Hl)|(H16 & d32 & H32 & Hr)];
    rewrite H16; [left|right]; repeat split; try assumption; try reflexivity.
  exists d32. split; assumption.
Qed.

Lemma wf_index_entries (t : UTrie3) :
  well_formed t -> forallb is_u16 (index t) = true.
Proof.
  intros H. apply wf_parts in H. destruct H as (H & _).
  unfold storage_ok in H. apply andb_true_iff in H. tauto.
Qed.

Lemma read_serialized_header (t : UTrie3) (vb : Z) (rest : list byte) :
  well_formed t -> 0 <= vb <= 1 ->
  read_header (write_header (serialized_header t vb) ++ rest)
  = Some (mkHeader UTRIE3_SIG
            (dataNullOffset t * 4096 + vb)
            (indexLength t) (dataLength t / 4)
            (index2NullOffset t) (shiftedHighStart t)
            (highValue t) (errorValue t)).
Proof.
  intros H Hvb. pose proof (wf_fields t H) as Hf.
  rewrite read_header_write. unfold serialized_header.
  cbn [h_signature h_options h_indexLength h_shiftedDataLength
       h_index2NullOffset h_shiftedHighStart h_highValue h_errorValue].
  rewrite options_word by lia. unfold to_uint16.
  change UTRIE3_INDEX_SHIFT with 2. rewrite Z.shiftr_div_pow2 by lia.
  change (2 ^ 2) with 4. change (2 ^ 16) with 65536.
  change UTRIE3_SIG with 0x54726933.
  f_equal. f_equal; try (rewrite ?Z.mod_mod by lia; apply Z.mod_small; dlia).
Qed.

Lemma firstn_skipn_all {A : Type} (l : list A) (n m : Z) :
  0 <= n -> 0 <= m -> zlen l = n + m ->
  firstn (Z.to_nat n) l ++ firstn (Z.to_nat m) (skipn (Z.to_nat n) l) = l.
Proof.
  intros Hn Hm Hl. rewrite (firstn_all2 (n := Z.to_nat m)).
  - apply firstn_skipn.
  - rewrite length_skipn. unfold zlen in Hl. lia.
Qed.

Lemma put_u16s_app (l1 l2 : list Z) :
  put_u16s (l1 ++ l2) = put_u16s l1 ++ put_u16s l2.
Proof. apply flat_map_app. Qed.

Lemma image_of_16 (t : UTrie3) :
  well_formed t -> trie_valueBits t = 0 ->
  image_of t
  = write_header (serialized_header t (trie_valueBits t))
    ++ put_u16s (index t) ++ [].
Proof.
  intros H Hvb. pose proof (wf_fields t H) as Hf.
  destruct (wf_valueBits t H) as [(_ & H16 & H32 & Hl)|(Hvb' & _)]; [|lia].
  unfold image_of, index_array, data_array. rewrite Hvb, H16.
  change (0 =? UTRIE3_16_VALUE_BITS) with true. cbv iota.
  rewrite app_nil_r, <- put_u16s_app, firstn_skipn_all by lia. reflexivity.
Qed.

Lemma image_of_32 (t : UTrie3) (d32 : list Z) :
  well_formed t -> trie_valueBits t = 1 -> data32 t = Some d32 ->
  image_of t
  = (write_header (serialized_header t (trie_valueBits t))
     ++ put_u16s (index t)) ++ put_u32s d32 ++ [].
Proof.
  intros H Hvb H32. pose proof (wf_fields t H) as Hf.
  destruct (wf_valueBits t H)
    as [(Hvb' & _)|(_ & H16 & d & H32' & Hl & Hdl & _)]; [lia|].
  assert (d = d32) by congruence. subst d.
  unfold image_of, index_array, data_array. rewrite Hvb, H16, H32.
  change (1 =? UTRIE3_16_VALUE_BITS) with false. cbv iota.
  rewrite !firstn_all2 by (unfold zlen in *; lia).
  rewrite app_nil_r, app_assoc. reflexivity.
Qed.

Lemma units16_put_u16s_all (l : list Z) :
  forallb is_u16 l = true -> units16 (put_u16s l) = l.
Proof.
  intros H. rewrite <- (app_nil_r (put_u16s l)), units16_put_u16s by assumption.
  apply app_nil_r.
Qed.

Lemma units32_put_u32s_all (l : list Z) :
  forallb is_u32 l = true -> units32 (put_u32s l) = l.
Proof.
  intros H. rewrite <- (app_nil_r (put_u32s l)), units32_put_u32s by assumption.
  apply app_nil_r.
Qed.

Lemma zslice_second {A : Type} (l1 l2 rest : list A) (off n : Z) :
  off = zlen l1 -> n = zlen l2 ->
  zslice (l1 ++ l2 ++ rest) off n = Some l2.
Proof. intros -> ->. apply zslice_app_mid. Qed.

Lemma zslice_third {A : Type} (l1 l2 l3 rest : list A) (off n : Z) :
  off = zlen l1 + zlen l2 -> n = zlen l3 ->
  zslice (l1 ++ l2 ++ l3 ++ rest) off n = Some l3.
Proof.
  intros -> ->. rewrite app_assoc, <- zlen_app. apply zslice_app_mid.
Qed.

Lemma wf_initial_read (t : UTrie3) :
  well_formed t ->
  (if dataNullOffset t <? data_limit t
   then read_data t (dataNullOffset t)
   else Some (highValue t)) = Some (initialValue t).
Proof.
  intros H. destruct (wf_null_data t H) as [(Hlt & Hn)|(Hge & Hn)].
  - destruct (Z.ltb_spec (dataNullOffset t) (data_limit t)); [|lia].
    specialize (Hn 0 ltac:(lia)). rewrite Z.add_0_r in Hn. assumption.
  - destruct (Z.ltb_spec (dataNullOffset t) (data_limit t)); [lia|congruence].
Qed.

(** utrie3_openFromSerialized on the image of a well-formed trie. *)
Lemma open_image (t : UTrie3) (a : Z) (rest : list byte) (length : Z)
    (pActualLength : option Z) (e : UErrorCode) (heap heap' : Heap) :
  well_formed t -> U_FAILURE e = false -> Z.land a 3 = 0 ->
  serialized_length t <= length ->
  uprv_malloc heap = Some heap' ->
  utrie3_openFromSerialized (trie_valueBits t)
    (Some (mkBuffer a (image_of t ++ rest))) length pActualLength e heap
  = Some (mkOpened (Some (with_name t "fromSerialized"))
            (option_map (fun _ => serialized_length t) pActualLength)
            e heap').
Proof.
  intros H He Ha Hlen Hheap. pose proof (wf_fields t H) as Hf.
  pose proof (wf_index_entries t H) as Hu16.
  pose proof (wf_initial_read t H) as Hinit.
  unfold utrie3_openFromSerialized. rewrite He.
  unfold U_POINTER_MASK_LSB. cbn [addr bytes option_map obind]. rewrite Ha.
  change (0 =? 0) with true. cbn [negb orb].
  unfold serialized_length in *. change sizeof_UTrie3Header with 24 in *.
  change UTRIE3_16_VALUE_BITS with 0 in *. change UTRIE3_32_VALUE_BITS with 1 in *.
  destruct (Z.leb_spec length 0) as [Hl0|_].
  { exfalso. destruct (trie_valueBits t =? 0); clear - Hlen Hf Hl0; lia. }
  destruct (Z.ltb_spec length 24) as [Hl0|_].
  { exfalso. destruct (trie_valueBits t =? 0); clear - Hlen Hf Hl0; lia. }
  unfold data_limit, read_data in Hinit.
  destruct (wf_valueBits t H)
    as [(Hvb & H16 & H32 & Hl)|(Hvb & H16 & d32 & H32 & Hl & Hdl & Hu32)];
    rewrite H32 in Hinit.
  - (* 16-bit values *)
    rewrite (image_of_16 t H Hvb).
    rewrite Hvb in *. change (0 =? 0) with true in *. cbv iota in *.
    change (0 <? 0) with false. change (1 <? 0) with false. cbn [orb]. cbv iota.
    rewrite <- !app_assoc.
    rewrite read_serialized_header by (assumption || lia).
    cbn [obind h_signature h_options h_indexLength
      h_shiftedDataLength h_index2NullOffset h_shiftedHighStart h_highValue
      h_errorValue].
    rewrite Z.eqb_refl. cbn [negb].
    rewrite land_value_bits, land_reserved, shiftl_2, shiftl_14.
    rewrite Z.shiftr_div_pow2 by lia. change (2 ^ 12) with 4096.
    replace ((dataNullOffset t * 4096 + 0) mod 256) with 0 by dlia.
    replace ((dataNullOffset t * 4096 + 0) / 256 mod 16) with 0 by dlia.
    replace ((dataNullOffset t * 4096 + 0) / 4096) with (dataNullOffset t) by dlia.
    replace (dataLength t / 4 * 4) with (dataLength t) by dlia.
    change (256 * 0 =? 0) with true. change (0 =? 0) with true.
    cbn [negb orb]. cbv iota.
    destruct (Z.ltb_spec length (24 + indexLength t * 2 + dataLength t * 2))
      as [Hl0|_]; [exfalso; clear - Hlen Hl0; lia|].
    rewrite Hheap. unfold get_u16s.
    rewrite zslice_second
      by (rewrite ?zlen_put_u16s, ?zlen_write_header; lia).
    cbn [option_map obind]. rewrite units16_put_u16s_all by assumption.
    rewrite Hl in Hinit. rewrite Hinit. cbn [obind]. unfold with_name.
    rewrite H16, H32. destruct Hf as (_ & _ & _ & _ & -> & _).
    replace (24 + indexLength t * 2 + dataLength t * 2)
      with (24 + 2 * indexLength t + 2 * dataLength t) by lia.
    reflexivity.
  - (* 32-bit values *)
    rewrite (image_of_32 t d32 H Hvb H32).
    rewrite Hvb in *. change (1 =? 0) with false in *. cbv iota in *.
    change (1 <? 0) with false. change (1 <? 1) with false. cbn [orb]. cbv iota.
    rewrite <- !app_assoc.
    rewrite read_serialized_header by (assumption || lia).
    cbn [obind h_signature h_options h_indexLength
      h_shiftedDataLength h_index2NullOffset h_shiftedHighStart h_highValue
      h_errorValue].
    rewrite Z.eqb_refl. cbn [negb].
    rewrite land_value_bits, land_reserved, shiftl_2, shiftl_14.
    rewrite Z.shiftr_div_pow2 by lia. change (2 ^ 12) with 4096.
    replace ((dataNullOffset t * 4096 + 1) mod 256) with 1 by dlia.
    replace ((dataNullOffset t * 4096 + 1) / 256 mod 16) with 0 by dlia.
    replace ((dataNullOffset t * 4096 + 1) / 4096) with (dataNullOffset t) by dlia.
    replace (dataLength t / 4 * 4) with (dataLength t) by dlia.
    change (256 * 0 =? 0) with true. change (1 =? 1) with true.
    cbn [negb orb]. cbv iota.
    destruct (Z.ltb_spec length (24 + indexLength t * 2 + dataLength t * 4))
      as [Hl0|_]; [exfalso; clear - Hlen Hl0; lia|].
    rewrite Hheap. unfold get_u16s, get_u32s.
    rewrite zslice_second
      by (rewrite ?zlen_put_u16s, ?zlen_write_header; lia).
    cbn [option_map obind]. rewrite units16_put_u16s_all by assumption.
    rewrite zslice_third
      by (rewrite ?zlen_put_u16s, ?zlen_put_u32s, ?zlen_write_header; lia).
    cbn [option_map obind]. rewrite units32_put_u32s_all by assumption.
    rewrite Hdl in Hinit. rewrite Hinit. cbn [obind]. unfold with_name.
    rewrite H16, H32. destruct Hf as (_ & _ & _ & _ & -> & _).
    replace (24 + indexLength t * 2 + dataLength t * 4)
      with (24 + 2 * indexLength t + 4 * dataLength t) by lia.
    reflexivity.
Qed.

(** ** Writing back what was read *)

Lemma read_header_ranges (mem : list byte) (h : UTrie3Header) :
  read_header mem = Some h ->
  0 <= h_signature h < 4294967296 /\ 0 <= h_options h < 4294967296
  /\ 0 <= h_indexLength h < 65536 /\ 0 <= h_shiftedDataLength h < 65536
  /\ 0 <= h_index2NullOffset h < 65536 /\ 0 <= h_shiftedHighStart h < 65536
  /\ 0 <= h_highValue h < 4294967296 /\ 0 <= h_errorValue h < 4294967296.
Proof.
  intros H. destruct (read_header_inv mem h H) as (rest & ->).
  rewrite read_header_write in H. apply Some_eq in H.
  destruct h as [s o il sdl i2 shs hv ev].
  cbn [h_signature h_options h_indexLength h_shiftedDataLength
       h_index2NullOffset h_shiftedHighStart h_highValue h_errorValue] in *.
  assert (Hs : s mod 4294967296 = s) by congruence.
  assert (Ho : o mod 4294967296 = o) by congruence.
  assert (Hil : il mod 65536 = il) by congruence.
  assert (Hsdl : sdl mod 65536 = sdl) by congruence.
  assert (Hi2 : i2 mod 65536 = i2) by congruence.
  assert (Hshs : shs mod 65536 = shs) by congruence.
  assert (Hhv : hv mod 4294967296 = hv) by congruence.
  assert (Hev : ev mod 4294967296 = ev) by congruence.
  clear H. dlia.
Qed.

Lemma serialized_header_back (t : UTrie3) (h : UTrie3Header) (mem : list byte) :
  read_header mem = Some h ->
  h_signature h = UTRIE3_SIG ->
  Z.land (h_options h) UTRIE3_OPTIONS_RESERVED_MASK = 0 ->
  indexLength t = h_indexLength h ->
  dataLength t = Z.shiftl (h_shiftedDataLength h) UTRIE3_INDEX_SHIFT ->
  index2NullOffset t = h_index2NullOffset h ->
  dataNullOffset t = Z.shiftr (h_options h) 12 ->
  shiftedHighStart t = h_shiftedHighStart h ->
  highValue t = h_highValue h -> errorValue t = h_errorValue h ->
  serialized_header t (Z.land (h_options h) UTRIE3_OPTIONS_VALUE_BITS_MASK) = h.
Proof.
  intros Hr Hsig Hres Hil Hdl Hi2 Hdn Hshs Hhv Hev.
  pose proof (read_header_ranges mem h Hr) as Hrange.
  unfold serialized_header.
  rewrite Hil, Hdl, Hi2, Hdn, Hshs, Hhv, Hev, <- Hsig.
  rewrite options_word_back by tauto.
  unfold to_uint16. rewrite shiftl_2. change UTRIE3_INDEX_SHIFT with 2.
  rewrite Z.shiftr_div_pow2 by lia. change (2 ^ 2) with 4.
  change (2 ^ 16) with 65536.
  rewrite Z.div_mul by lia. rewrite !Z.mod_small by tauto.
  destruct h; reflexivity.
Qed.

Lemma skipn_app_exact {A : Type} (l1 l2 : list A) (n : nat) :
  n = List.length l1 -> skipn n (l1 ++ l2) = l2.
Proof.
  intros ->. rewrite skipn_app, skipn_all, Nat.sub_diag. reflexivity.
Qed.

(** What utrie3_openFromSerialized returns can be written back: the image
    it was read from is the image of the trie. *)
Lemma open_image_back (valueBits : Z) (a : Z) (mem : list byte) (length : Z)
    (pActualLength : option Z) (e : UErrorCode) (heap : Heap)
    (o : Opened) (t : UTrie3) :
  utrie3_openFromSerialized valueBits (Some (mkBuffer a mem)) length
    pActualLength e heap = Some o ->
  op_trie o = Some t ->
  exists rest,
    mem = image_of t ++ rest
    /\ storage_ok t = true /\ 0 <= indexLength t /\ 0 <= dataLength t
    /\ serialized_length t <= length
    /\ op_actualLength o
       = option_map (fun _ => serialized_length t) pActualLength
    /\ op_error o = e /\ U_FAILURE e = false
    /\ trie_valueBits t = valueBits.
Proof.
  intros Hopen Htrie. unfold utrie3_openFromSerialized in Hopen.
  assert (Hno : forall e' h',
            Some (mkOpened None pActualLength e' h') = Some o -> False).
  { intros e' h' Heq. apply Some_eq in Heq. rewrite <- Heq in Htrie.
    discriminate Htrie. }
  cbv zeta in Hopen.
  destruct (U_FAILURE e) eqn:He; [exfalso; cbn [negb orb] in Hopen; eapply Hno; eassumption|].
  match type of Hopen with
  | (if ?c then _ else _) = _ =>
      destruct c eqn:Hill; [exfalso; cbn [negb orb] in Hopen; eapply Hno; eassumption|]
  end.
  repeat (apply orb_false_iff in Hill; destruct Hill as [Hill ?]).
  destruct (length <? sizeof_UTrie3Header);
    [exfalso; cbn [negb orb] in Hopen; eapply Hno; eassumption|].
  cbn [option_map bytes obind] in Hopen.
  destruct (read_header mem) as [h|] eqn:Hh; [|discriminate Hopen].
  cbn [obind] in Hopen.
  destruct (Z.eqb_spec (h_signature h) UTRIE3_SIG) as [Hsig|];
    [|exfalso; cbn [negb orb] in Hopen; eapply Hno; eassumption].
  cbn [negb] in Hopen.
  destruct (Z.eqb_spec valueBits
              (Z.land (h_options h) UTRIE3_OPTIONS_VALUE_BITS_MASK))
    as [Hvb|]; [|exfalso; cbn [negb orb] in Hopen; eapply Hno; eassumption].
  destruct (Z.eqb_spec (Z.land (h_options h) UTRIE3_OPTIONS_RESERVED_MASK) 0)
    as [Hres|]; [|exfalso; cbn [negb orb] in Hopen; eapply Hno; eassumption].
  cbn [negb orb] in Hopen.
  pose proof (read_header_ranges mem h Hh) as Hrange.
  destruct (read_header_inv mem h Hh) as (rest0 & Hmem).
  change UTRIE3_16_VALUE_BITS with 0 in *. change UTRIE3_32_VALUE_BITS with 1 in *.
  change sizeof_UTrie3Header with 24 in *.
  rewrite shiftl_2 in Hopen.
  match type of Hopen with
  | (if length <? ?al then _ else _) = _ =>
      destruct (Z.ltb_spec length al) as [|Hal];
        [exfalso; cbn [negb orb] in Hopen; eapply Hno; eassumption|]
  end.
  destruct (uprv_malloc heap) as [heap'|];
    [|exfalso; cbn [negb orb] in Hopen; eapply Hno; eassumption].
  assert (Hskip : skipn (Z.to_nat 24) mem = rest0).
  { rewrite Hmem. apply skipn_app_exact. reflexivity. }
  destruct (Z.eqb_spec valueBits 0) as [Hv0|Hv0].
  - (* 16-bit values *)
    unfold get_u16s in Hopen.
    destruct (zslice mem 24
                (2 * (h_indexLength h + h_shiftedDataLength h * 4)))
      as [bs|] eqn:Hbs; [|discriminate Hopen].
    cbn [option_map obind] in Hopen.
    match type of Hopen with
    | (initial <- ?i ;; _) = _ => destruct i as [initial|];
        [|discriminate Hopen]
    end.
    cbn [obind] in Hopen. apply Some_eq in Hopen. rewrite <- Hopen in *.
    cbn [op_trie op_actualLength op_error] in *.
    apply Some_eq in Htrie. rewrite <- Htrie.
    apply zslice_Some in Hbs. destruct Hbs as (_ & _ & Hfit & Hbs & Hlen).
    rewrite Hskip in Hbs.
    assert (Hnat : List.length bs
                   = (2 * Z.to_nat (h_indexLength h
                                    + h_shiftedDataLength h * 4))%nat).
    { unfold zlen in Hlen. lia. }
    exists (skipn (Z.to_nat (2 * (h_indexLength h + h_shiftedDataLength h * 4)))
              rest0).
    assert (Hix : zlen (units16 bs)
                  = h_indexLength h + h_shiftedDataLength h * 4).
    { rewrite (zlen_units16 _ bs Hnat). lia. }
    unfold image_of, serialized_length, index_array, data_array,
      trie_valueBits, storage_ok.
    cbn [index data16 data32 indexLength dataLength].
    change UTRIE3_16_VALUE_BITS with 0. change (0 =? 0) with true. cbv iota.
    rewrite units16_u16, Z.eqb_refl, Hix, Z.eqb_refl.
    change sizeof_UTrie3Header with 24.
    replace (24 + h_indexLength h * 2 + h_shiftedDataLength h * 4 * 2)
      with (24 + 2 * h_indexLength h + 2 * (h_shiftedDataLength h * 4)) in *
      by lia.
    repeat split; try reflexivity; try lia; try assumption; try congruence.
    rewrite <- put_u16s_app, firstn_skipn_all by lia.
    rewrite (put_u16s_units16 _ bs Hnat).
    rewrite Hv0 in Hvb. rewrite Hvb.
    rewrite (serialized_header_back _ h mem)
      by (assumption || reflexivity || (symmetry; apply shiftl_2)).
    rewrite Hmem at 1. rewrite <- app_assoc. f_equal.
    rewrite Hbs. symmetry. apply firstn_skipn.
  - (* 32-bit values *)
    assert (Hv1 : valueBits = 1) by (b2p; lia). rewrite Hv1 in *.
    change (1 =? 0) with false in Hopen. change (1 =? 1) with true in Hopen.
    cbv iota in Hopen.
    unfold get_u16s, get_u32s in Hopen.
    destruct (zslice mem 24 (2 * h_indexLength h)) as [bs|] eqn:Hbs;
      [|discriminate Hopen].
    cbn [option_map obind] in Hopen.
    destruct (zslice mem (24 + 2 * h_indexLength h)
                (4 * (h_shiftedDataLength h * 4)))
      as [ds|] eqn:Hds; [|discriminate Hopen].
    cbn [option_map obind] in Hopen.
    match type of Hopen with
    | (initial <- ?i ;; _) = _ => destruct i as [initial|];
        [|discriminate Hopen]
    end.
    cbn [obind] in Hopen. apply Some_eq in Hopen. rewrite <- Hopen in *.
    cbn [op_trie op_actualLength op_error] in *.
    apply Some_eq in Htrie. rewrite <- Htrie.
    apply zslice_Some in Hbs. destruct Hbs as (_ & _ & Hfit & Hbs & Hlen).
    apply zslice_Some in Hds. destruct Hds as (_ & _ & Hfit' & Hds & Hlen').
    rewrite Hskip in Hbs.
    assert (Hskip' : skipn (Z.to_nat (24 + 2 * h_indexLength h)) mem
                     = skipn (Z.to_nat (2 * h_indexLength h)) rest0).
    { rewrite <- Hskip, skipn_skipn. f_equal. lia. }
    rewrite Hskip' in Hds.
    assert (Hnat : List.length bs = (2 * Z.to_nat (h_indexLength h))%nat).
    { unfold zlen in Hlen. lia. }
    assert (Hnat' : List.length ds
                    = (4 * Z.to_nat (h_shiftedDataLength h * 4))%nat).
    { unfold zlen in Hlen'. lia. }
    exists (skipn (Z.to_nat (4 * (h_shiftedDataLength h * 4)))
              (skipn (Z.to_nat (2 * h_indexLength h)) rest0)).
    assert (Hix : zlen (units16 bs) = h_indexLength h).
    { rewrite (zlen_units16 _ bs Hnat). lia. }
    assert (Hdx : zlen (units32 ds) = h_shiftedDataLength h * 4).
    { rewrite (zlen_units32 _ ds Hnat'). lia. }
    unfold image_of, serialized_length, index_array, data_array,
      trie_valueBits, storage_ok.
    cbn [index data16 data32 indexLength dataLength].
    change UTRIE3_16_VALUE_BITS with 0. change UTRIE3_32_VALUE_BITS with 1.
    change (1 =? 0) with false. cbv iota.
    rewrite units16_u16, units32_u32, Hix, Hdx, !Z.eqb_refl.
    change sizeof_UTrie3Header with 24.
    replace (24 + h_indexLength h * 2 + h_shiftedDataLength h * 4 * 4)
      with (24 + 2 * h_indexLength h + 4 * (h_shiftedDataLength h * 4)) in *
      by lia.
    repeat split; try reflexivity; try lia; try assumption; try congruence.
    rewrite !firstn_all2 by (unfold zlen in *; lia).
    rewrite (put_u16s_units16 _ bs Hnat), (put_u32s_units32 _ ds Hnat').
    rewrite Hvb.
    rewrite (serialized_header_back _ h mem)
      by (assumption || reflexivity || (symmetry; apply shiftl_2)).
    rewrite Hmem at 1. rewrite <- !app_assoc. f_equal.
    rewrite Hbs, Hds.
    rewrite <- (firstn_skipn (Z.to_nat (2 * h_indexLength h)) rest0) at 1.
    f_equal. symmetry. apply firstn_skipn.
Qed.

Lemma zth_units16_in_range (bs : list byte) (n i : Z) :
  zlen bs = 2 * n -> 0 <= i < n -> exists v, zth (units16 bs) i = Some v.
Proof.
  intros Hlen Hi. apply zth_in_range.
  rewrite (zlen_units16 (Z.to_nat n)); unfold zlen in *; lia.
Qed.

Lemma zth_units32_in_range (bs : list byte) (n i : Z) :
  zlen bs = 4 * n -> 0 <= i < n -> exists v, zth (units32 bs) i = Some v.
Proof.
  intros Hlen Hi. apply zth_in_range.
  rewrite (zlen_units32 (Z.to_nat n)); unfold zlen in *; lia.
Qed.

Lemma read_header_in_range (mem : list byte) :
  24 <= zlen mem -> exists h, read_header mem = Some h.
Proof.
  intros H.
  do 24 (destruct mem as [|? mem]; [exfalso; unfold zlen in H; cbn in H; lia|]).
  eexists. reflexivity.
Qed.

(** The outcome of utrie3_openFromSerialized for every input, when the
    error code is not a failure on entry and the buffer holds [length]
    bytes. *)
Lemma open_outcome (valueBits a : Z) (mem : list byte) (length : Z)
    (pActualLength : option Z) (e : UErrorCode) (heap : Heap) :
  U_FAILURE e = false -> length <= zlen mem ->
  let data := Some (mkBuffer a mem) in
  let refused err := Some (mkOpened None pActualLength err heap) in
  let result :=
    utrie3_openFromSerialized valueBits data length pActualLength e heap in
  if illegal_argument valueBits data length
  then result = refused U_ILLEGAL_ARGUMENT_ERROR
  else if invalid_format valueBits mem length
  then result = refused U_INVALID_FORMAT_ERROR
  else
    match uprv_malloc heap with
    | None => result = refused U_MEMORY_ALLOCATION_ERROR
    | Some heap' =>
        exists h t,
          read_header mem = Some h
          /\ result
             = Some (mkOpened (Some t)
                       (option_map (fun _ => declared_length valueBits h)
                          pActualLength)
                       e heap')
    end.
Proof.
  intros He Hlen data refused result. subst data refused result.
  unfold utrie3_openFromSerialized, illegal_argument, invalid_format.
  rewrite He.
  destruct ((length <=? 0)
            || negb (U_POINTER_MASK_LSB (Some (mkBuffer a mem)) 3 =? 0)
            || (valueBits <? 0) || (UTRIE3_32_VALUE_BITS <? valueBits))
    eqn:Hill; [reflexivity|].
  repeat (apply orb_false_iff in Hill; destruct Hill as [Hill ?]).
  change sizeof_UTrie3Header with 24 in *.
  change UTRIE3_32_VALUE_BITS with 1 in *. change UTRIE3_16_VALUE_BITS with 0 in *.
  destruct (Z.ltb_spec length 24) as [|H24]; [reflexivity|].
  cbn [orb option_map bytes obind].
  destruct (read_header_in_range mem) as (h & Hh); [lia|]. rewrite Hh.
  cbn [obind].
  destruct (Z.eqb_spec (h_signature h) UTRIE3_SIG) as [Hsig|];
    [|reflexivity].
  rewrite (Z.eqb_sym valueBits).
  destruct (Z.eqb_spec (Z.land (h_options h) UTRIE3_OPTIONS_VALUE_BITS_MASK)
              valueBits) as [Hvb|]; [|reflexivity].
  destruct (Z.eqb_spec (Z.land (h_options h) UTRIE3_OPTIONS_RESERVED_MASK) 0)
    as [Hres|]; [|reflexivity].
  cbn [negb orb]. unfold declared_length. rewrite shiftl_2.
  change sizeof_UTrie3Header with 24. change UTRIE3_16_VALUE_BITS with 0.
  pose proof (read_header_ranges mem h Hh) as Hr.
  assert (Hlens : 24 + h_indexLength h * 2
                  + (if valueBits =? 0 then h_shiftedDataLength h * 4 * 2
                     else h_shiftedDataLength h * 4 * 4)
                  = 24 + 2 * h_indexLength h
                    + (if valueBits =? 0 then 2 else 4)
                      * (4 * h_shiftedDataLength h)).
  { destruct (valueBits =? 0); lia. }
  rewrite Hlens.
  destruct (Z.ltb_spec length
              (24 + 2 * h_indexLength h
               + (if valueBits =? 0 then 2 else 4)
                 * (4 * h_shiftedDataLength h))) as [|Hal]; [reflexivity|].
  destruct (uprv_malloc heap) as [heap'|]; [|reflexivity].
  exists h. unfold get_u16s, get_u32s.
  destruct (Z.eqb_spec valueBits 0) as [Hv0|Hv0].
  - rewrite zslice_in_range by lia. cbn [option_map obind].
    set (bs := firstn _ (skipn _ mem)).
    assert (Hbs : zlen bs
                  = 2 * (h_indexLength h + h_shiftedDataLength h * 4)).
    { unfold bs, zlen in *. rewrite length_firstn, length_skipn. lia. }
    destruct (Z.ltb_spec (Z.shiftr (h_options h) 12)
                (h_indexLength h + h_shiftedDataLength h * 4)) as [Hdn|Hdn].
    + destruct (zth_units16_in_range bs _ (Z.shiftr (h_options h) 12) Hbs)
        as (v & Hv).
      { split; [apply Z.shiftr_nonneg; lia|assumption]. }
      rewrite Hv. cbn [obind]. eexists. split; reflexivity.
    + cbn [obind]. eexists. split; reflexivity.
  - assert (Hv1 : valueBits = 1) by (b2p; lia). rewrite Hv1.
    change (1 =? 1) with true. cbv iota.
    rewrite !zslice_in_range by lia. cbn [option_map obind].
    set (ds := firstn (Z.to_nat (4 * (h_shiftedDataLength h * 4))) _).
    assert (Hds : zlen ds = 4 * (h_shiftedDataLength h * 4)).
    { unfold ds, zlen in *. rewrite length_firstn, length_skipn. lia. }
    destruct (Z.ltb_spec (Z.shiftr (h_options h) 12)
                (h_shiftedDataLength h * 4)) as [Hdn|Hdn].
    + destruct (zth_units32_in_range ds _ (Z.shiftr (h_options h) 12) Hds)
        as (v & Hv).
      { split; [apply Z.shiftr_nonneg; lia|assumption]. }
      rewrite Hv. cbn [obind]. eexists. split; reflexivity.
    + cbn [obind]. eexists. split; reflexivity.
Qed.

(** C5, as the code has it.  When the error code is not a failure on
    entry and the buffer holds [length] bytes, utrie3_openFromSerialized
    returns NULL with ILLEGAL_ARGUMENT when the length is not positive, the
    pointer is not 4-byte aligned or the value-width tag is out of range;
    otherwise with INVALID_FORMAT when the length is smaller than the
    header, the signature is wrong, the tag disagrees with the options
    word, reserved bits are set or the length is smaller than the declared
    arrays need; otherwise with MEMORY_ALLOCATION when the allocation
    fails; and otherwise it returns a trie.  Every refusal leaves
    [*pActualLength] and the allocator as they were. *)
Theorem utrie3_openFromSerialized_outcome (valueBits a : Z) (mem : list byte)
    (length : Z) (pActualLength : option Z) (e : UErrorCode) (heap : Heap) :
  U_FAILURE e = false -> length <= zlen mem ->
  let data := Some (mkBuffer a mem) in
  let refused err := Some (mkOpened None pActualLength err heap) in
  let result :=
    utrie3_openFromSerialized valueBits data length pActualLength e heap in
  if illegal_argument valueBits data length
  then result = refused U_ILLEGAL_ARGUMENT_ERROR
  else if invalid_format valueBits mem length
  then result = refused U_INVALID_FORMAT_ERROR
  else
    match uprv_malloc heap with
    | None => result = refused U_MEMORY_ALLOCATION_ERROR
    | Some heap' =>
        exists h t,
          read_header mem = Some h
          /\ result
             = Some (mkOpened (Some t)
                       (option_map (fun _ => declared_length valueBits h)
                          pActualLength)
                       e heap')
    end.
Proof. apply open_outcome. Qed.

Lemma utrie3_openFromSerialized_outcome_witness :
  U_FAILURE U_ZERO_ERROR = false /\ 4 <= zlen Images.image_low
  /\ utrie3_openFromSerialized 1 (Some (mkBuffer 0x1000 Images.image_low)) 4
       (Some 0) U_ZERO_ERROR (mkHeap 1 0)
     = Some (mkOpened None (Some 0) U_INVALID_FORMAT_ERROR (mkHeap 1 0)).
Proof.
  assert (H1 : U_FAILURE U_ZERO_ERROR = false) by reflexivity.
  assert (H2 : 4 <= zlen Images.image_low) by (vm_compute; discriminate).
  split; [exact H1|]. split; [exact H2|].
  exact (utrie3_openFromSerialized_outcome 1 0x1000 Images.image_low 4
           (Some 0) U_ZERO_ERROR (mkHeap 1 0) H1 H2).
Defined.

(** C5 as stated fails: a valid image is refused when the allocation
    fails, and a misaligned image with a wrong signature is refused with
    ILLEGAL_ARGUMENT, not INVALID_FORMAT. *)
Lemma utrie3_openFromSerialized_counterexample :
  (illegal_argument 1 (Some (mkBuffer 0x1000 Images.image_low)) 4760 = false
   /\ invalid_format 1 Images.image_low 4760 = false
   /\ utrie3_openFromSerialized 1 (Some (mkBuffer 0x1000 Images.image_low))
        4760 None U_ZERO_ERROR (mkHeap 0 0)
      = Some (mkOpened None None U_MEMORY_ALLOCATION_ERROR (mkHeap 0 0)))
  /\ (utrie3_openFromSerialized 1
        (Some (mkBuffer 0x1001 (repeat Byte.x00 24))) 24 None U_ZERO_ERROR
        (mkHeap 1 0)
      = Some (mkOpened None None U_ILLEGAL_ARGUMENT_ERROR (mkHeap 1 0))).
Proof. vm_compute. repeat split; reflexivity. Qed.

Lemma serialized_length_eq (t : UTrie3) :
  sizeof_UTrie3Header + indexLength t * 2
  + match data16 t with
    | Some _ => dataLength t * 2
    | None => dataLength t * 4
    end
  = serialized_length t.
Proof.
  unfold serialized_length, trie_valueBits.
  destruct (data16 t); cbn [Z.eqb UTRIE3_16_VALUE_BITS UTRIE3_32_VALUE_BITS];
    change (UTRIE3_32_VALUE_BITS =? UTRIE3_16_VALUE_BITS) with false; lia.
Qed.

Lemma serialize_overflow (t : UTrie3) (data : option Buffer) (capacity : Z)
    (e : UErrorCode) :
  U_FAILURE e = false -> 0 <= capacity < serialized_length t ->
  (0 < capacity -> exists dst, data = Some dst /\ Z.land (addr dst) 3 = 0) ->
  utrie3_serialize (Some t) data capacity e
  = Some (serialized_length t, data, U_BUFFER_OVERFLOW_ERROR).
Proof.
  intros He Hcap Hdst. unfold utrie3_serialize. rewrite He.
  rewrite serialized_length_eq.
  destruct (Z.ltb_spec capacity 0) as [|_]; [lia|]. cbn [orb].
  assert (Hlegal : (capacity >? 0)
                   && (match data with None => true | Some _ => false end
                       || negb (U_POINTER_MASK_LSB data 3 =? 0)) = false).
  { destruct (Z.gtb_spec capacity 0) as [Hpos|]; [|reflexivity].
    destruct (Hdst Hpos) as (dst & -> & Ha). cbn. rewrite Ha. reflexivity. }
  rewrite Hlegal.
  destruct (Z.ltb_spec capacity (serialized_length t)); [reflexivity|lia].
Qed.

(** ** The header that utrie3_serialize writes *)

Lemma byte_of_congr (a b : Z) : a mod 256 = b mod 256 -> byte_of a = byte_of b.
Proof. intros H. unfold byte_of. rewrite H. reflexivity. Qed.

Lemma put_u16_congr (a b : Z) :
  a mod 65536 = b mod 65536 -> put_u16 a = put_u16 b.
Proof.
  intros H. unfold put_u16. rewrite !shiftr_8.
  f_equal; [|f_equal]; apply byte_of_congr; dlia.
Qed.

Lemma put_u32_congr (a b : Z) :
  a mod 4294967296 = b mod 4294967296 -> put_u32 a = put_u32 b.
Proof.
  intros H. unfold put_u32. rewrite !shiftr_16.
  f_equal; apply put_u16_congr; dlia.
Qed.

(** The options word, whatever [dataNullOffset] is: the casts and the
    wrap of the shift do not show in the 32 bits that are stored. *)
Lemma options_word_stored (d vb : Z) :
  0 <= vb <= 1 ->
  put_u32 (Z.lor (to_uint32 (Z.shiftl (to_uint32 d) 12)) vb)
  = put_u32 (Z.lor (Z.shiftl d 12) vb).
Proof.
  intros Hvb. apply put_u32_congr.
  assert (Hl : to_uint32 (Z.shiftl (to_uint32 d) 12)
               = Z.shiftl (d mod 1048576) 12).
  { unfold to_uint32. rewrite !Z.shiftl_mul_pow2 by lia.
    change (2 ^ 32) with 4294967296. change (2 ^ 12) with 4096. dlia. }
  rewrite Hl, (Z.lor_comm _ vb), (Z.lor_comm _ vb).
  rewrite !lor_shiftl_add by lia. change (2 ^ 12) with 4096. dlia.
Qed.

(** The header that utrie3_serialize lays out is the header of the
    specification. *)
Lemma write_header_layout (t : UTrie3) :
  write_header (serialized_header t (trie_valueBits t)) = layout_header t.
Proof.
  unfold write_header, serialized_header, layout_header.
  cbn [h_signature h_options h_indexLength h_shiftedDataLength
       h_index2NullOffset h_shiftedHighStart h_highValue h_errorValue].
  change (put_u32 UTRIE3_SIG) with [Byte.x33; Byte.x69; Byte.x72; Byte.x54].
  change UTRIE3_INDEX_SHIFT with 2.
  assert (Hvb : trie_valueBits t
                = match data16 t with Some _ => 0 | None => 1 end).
  { unfold trie_valueBits. destruct (data16 t); reflexivity. }
  rewrite Hvb.
  rewrite options_word_stored by (destruct (data16 t); lia).
  rewrite (put_u16_congr (to_uint16 (indexLength t)) (indexLength t)),
    (put_u16_congr (to_uint16 (Z.shiftr (dataLength t) 2))
       (Z.shiftr (dataLength t) 2));
    [reflexivity| |]; unfold to_uint16; change (2 ^ 16) with 65536;
    apply Z.mod_mod; lia.
Qed.

Lemma image_of_layout (t : UTrie3) : image_of t = layout_image t.
Proof.
  unfold image_of, layout_image. rewrite write_header_layout.
  unfold trie_valueBits. destruct (data16 t); reflexivity.
Qed.

(** The header of the image of a well-formed trie, read back. *)
Lemma read_image_header (t : UTrie3) :
  well_formed t ->
  read_header (image_of t)
  = Some (mkHeader 0x54726933
            (dataNullOffset t * 4096 + trie_valueBits t)
            (indexLength t) (dataLength t / 4)
            (index2NullOffset t) (shiftedHighStart t)
            (highValue t) (errorValue t)).
Proof.
  intros H. unfold image_of.
  apply read_serialized_header; [assumption|].
  destruct (wf_valueBits t H) as [(-> & _)|(-> & _)]; lia.
Qed.

(** C6.  For legal arguments (no failure on entry, a capacity that is not
    negative, and a 4-byte aligned destination of that capacity when the
    capacity is positive), utrie3_serialize computes the length of the
    image: header size plus 2 bytes per index entry plus 2 or 4 bytes per
    data entry.  With a smaller capacity it sets BUFFER_OVERFLOW and
    returns that length; otherwise it writes that many bytes, laid out as
    header, index array and data array, and returns the length.  The
    bytes written are those of [layout_image], the image as section 4.3
    of the specification describes it: the header begins with the
    signature Tri3 and holds the options word and the six other fields,
    and for a well-formed trie it reads back as these fields. *)
Theorem utrie3_serialize_spec (t : UTrie3) (data : option Buffer)
    (capacity : Z) (e : UErrorCode) :
  storage_ok t = true -> 0 <= indexLength t -> 0 <= dataLength t ->
  U_FAILURE e = false -> 0 <= capacity ->
  (0 < capacity ->
   exists dst, data = Some dst /\ Z.land (addr dst) 3 = 0
     /\ capacity <= zlen (bytes dst)) ->
  if capacity <? serialized_length t
  then utrie3_serialize (Some t) data capacity e
       = Some (serialized_length t, data, U_BUFFER_OVERFLOW_ERROR)
  else exists dst,
    data = Some dst
    /\ zlen (image_of t) = serialized_length t
    /\ utrie3_serialize (Some t) data capacity e
       = Some (serialized_length t,
               Some (mkBuffer (addr dst)
                       (image_of t
                        ++ skipn (Z.to_nat (serialized_length t))
                             (bytes dst))),
               e)
    /\ image_of t = layout_image t
    /\ (well_formed t ->
        read_header (image_of t)
        = Some (mkHeader 0x54726933
                  (dataNullOffset t * 4096 + trie_valueBits t)
                  (indexLength t) (dataLength t / 4)
                  (index2NullOffset t) (shiftedHighStart t)
                  (highValue t) (errorValue t))).
Proof.
  intros Hs Hi Hd He Hcap Hdst.
  pose proof (zlen_image_of t Hs Hi Hd) as Hlen.
  destruct (Z.ltb_spec capacity (serialized_length t)) as [Hlt|Hge].
  - apply serialize_overflow; [assumption|lia|].
    intros Hpos. destruct (Hdst Hpos) as (dst & ? & ? & _). eauto.
  - assert (Hpos : 0 < capacity).
    { unfold serialized_length in Hge. change sizeof_UTrie3Header with 24 in Hge.
      destruct (trie_valueBits t =? UTRIE3_16_VALUE_BITS); lia. }
    destruct (Hdst Hpos) as (dst & -> & Ha & Hroom).
    exists dst. split; [reflexivity|]. split; [assumption|].
    split; [apply serialize_writes; try assumption; lia|].
    split; [apply image_of_layout|apply read_image_header].
Qed.

Lemma utrie3_serialize_spec_witness :
  utrie3_serialize (Some Sample.trie_low) (Some Images.room) 4800 U_ZERO_ERROR
  = Some (4760,
          Some (mkBuffer 0x1000 (Images.image_low ++ repeat Byte.x00 40)),
          U_ZERO_ERROR)
  /\ Images.image_low = layout_image Sample.trie_low
  /\ read_header Images.image_low
     = Some (mkHeader 0x54726933 524289 2048 40 512 1 7 0).
Proof.
  pose proof (utrie3_serialize_spec Sample.trie_low (Some Images.room) 4800
                U_ZERO_ERROR) as H.
  destruct H as (dst & Hdst & _ & Hres & Hlay & Hread).
  - vm_compute. reflexivity.
  - vm_compute. discriminate.
  - vm_compute. discriminate.
  - reflexivity.
  - lia.
  - intros _. exists Images.room. repeat split. vm_compute. discriminate.
  - split; [|split].
    + rewrite Hres. apply Some_eq in Hdst. rewrite <- Hdst.
      vm_compute. reflexivity.
    + exact Hlay.
    + exact (Hread sample_trie_low_wf).
Defined.

(** C10.  A call of utrie3_serialize that ends with BUFFER_OVERFLOW leaves
    the destination as it was: nothing is written before the capacity is
    compared with the length. *)
Theorem utrie3_serialize_overflow_untouched (trie : option UTrie3)
    (data out : option Buffer) (capacity r : Z) (e e' : UErrorCode) :
  utrie3_serialize trie data capacity e = Some (r, out, e') ->
  e' = U_BUFFER_OVERFLOW_ERROR -> out = data.
Proof.
  unfold utrie3_serialize. intros H He'.
  destruct (U_FAILURE e) eqn:He; [congruence|].
  destruct trie as [t|]; [|congruence].
  destruct ((capacity <? 0)
            || (capacity >? 0)
               && (match data with Some _ => false | None => true end
                   || negb (U_POINTER_MASK_LSB data 3 =? 0)));
    [congruence|].
  match type of H with
  | (if ?c then _ else _) = _ => destruct c; [congruence|]
  end.
  destruct data as [dst|]; [|discriminate H]. cbn [obind] in H.
  destruct (zslice (index t) 0 (indexLength t)); [|discriminate H].
  cbn [obind] in H.
  match type of H with
  | (d <- ?x ;; _) = _ => destruct x; [|discriminate H]
  end.
  cbn [obind] in H.
  match type of H with
  | (out <- ?x ;; _) = _ => destruct x; [|discriminate H]
  end.
  cbn [obind] in H. apply Some_eq in H.
  assert (Heq : e' = e) by congruence.
  rewrite Heq in He'. rewrite He' in He. discriminate He.
Qed.

Lemma utrie3_serialize_overflow_untouched_witness :
  utrie3_serialize (Some Sample.trie_low) (Some Images.room) 100 U_ZERO_ERROR
  = Some (4760, Some Images.room, U_BUFFER_OVERFLOW_ERROR)
  /\ Some Images.room = Some Images.room.
Proof.
  assert (H : utrie3_serialize (Some Sample.trie_low) (Some Images.room) 100
                U_ZERO_ERROR
              = Some (4760, Some Images.room, U_BUFFER_OVERFLOW_ERROR))
    by (vm_compute; reflexivity).
  split; [exact H|].
  exact (utrie3_serialize_overflow_untouched _ _ _ _ _ _ _ H eq_refl).
Defined.

(** C7.  With a failure in the error code on entry, each of
    utrie3_openFromSerialized, utrie3_clone, utrie3_serialize and
    utrie3_swap returns NULL or 0 at once: the error code, the
    out-parameters, the destination and the allocator stay as they
    were. *)
Theorem sticky_failure (e : UErrorCode) :
  U_FAILURE e = true ->
  (forall valueBits data length pActualLength heap,
     utrie3_openFromSerialized valueBits data length pActualLength e heap
     = Some (mkOpened None pActualLength e heap))
  /\ (forall other heap, utrie3_clone other e heap = Some (None, e, heap))
  /\ (forall trie data capacity,
        utrie3_serialize trie data capacity e = Some (0, data, e))
  /\ (forall ds inData length outData,
        utrie3_swap ds inData length outData e = Some (0, outData, e)).
Proof.
  intros He. repeat split; intros;
    unfold utrie3_openFromSerialized, utrie3_clone, utrie3_serialize,
      utrie3_swap; rewrite He; reflexivity.
Qed.

Lemma sticky_failure_witness :
  U_FAILURE U_BUFFER_OVERFLOW_ERROR = true
  /\ utrie3_serialize (Some Sample.trie_low) (Some Images.room) 4800
       U_BUFFER_OVERFLOW_ERROR
     = Some (0, Some Images.room, U_BUFFER_OVERFLOW_ERROR)
  /\ utrie3_clone (Some Sample.trie_low) U_BUFFER_OVERFLOW_ERROR (mkHeap 1 0)
     = Some (None, U_BUFFER_OVERFLOW_ERROR, mkHeap 1 0).
Proof.
  assert (H : U_FAILURE U_BUFFER_OVERFLOW_ERROR = true) by reflexivity.
  destruct (sticky_failure U_BUFFER_OVERFLOW_ERROR H) as (_ & Hc & Hs & _).
  split; [exact H|]. split; [apply Hs|apply Hc].
Defined.

Lemma utrie3_get_with_name (t : UTrie3) (n : string) (c : Z) :
  utrie3_get (with_name t n) c = utrie3_get t c.
Proof. reflexivity. Qed.

Lemma firstn_app_exact {A : Type} (l1 l2 : list A) (n : nat) :
  n = List.length l1 -> firstn n (l1 ++ l2) = l1.
Proof.
  intros ->. rewrite firstn_app, firstn_all, Nat.sub_diag. cbn [firstn].
  apply app_nil_r.
Qed.

(** C2, as the code has it.  A well-formed trie that is serialized and
    opened again comes back with the same arrays and fields (under the
    name that utrie3_openFromSerialized gives it), hence with the same
    value for every code point.  For an image that
    utrie3_openFromSerialized accepts, serializing the resulting trie
    reproduces the first [actualLength] bytes of the image: the bytes
    behind the declared arrays are accepted and not written back. *)
Theorem serialize_open_roundtrip :
  (forall (t : UTrie3) (dst : Buffer) (capacity : Z)
          (pActualLength : option Z) (e : UErrorCode) (heap heap' : Heap),
     well_formed t -> U_FAILURE e = false -> Z.land (addr dst) 3 = 0 ->
     serialized_length t <= capacity <= zlen (bytes dst) ->
     uprv_malloc heap = Some heap' ->
     exists out t',
       utrie3_serialize (Some t) (Some dst) capacity e
       = Some (serialized_length t, Some out, e)
       /\ utrie3_openFromSerialized (trie_valueBits t) (Some out)
            (serialized_length t) pActualLength e heap
          = Some (mkOpened (Some t')
                    (option_map (fun _ => serialized_length t) pActualLength)
                    e heap')
       /\ t' = with_name t "fromSerialized"
       /\ (forall c, utrie3_get t' c = utrie3_get t c)
       /\ indexLength t' = indexLength t /\ dataLength t' = dataLength t
       /\ index2NullOffset t' = index2NullOffset t
       /\ dataNullOffset t' = dataNullOffset t
       /\ highStart t' = highStart t /\ highValue t' = highValue t
       /\ errorValue t' = errorValue t /\ initialValue t' = initialValue t
       /\ trie_valueBits t' = trie_valueBits t)
  /\ (forall (valueBits a : Z) (mem : list byte) (length : Z)
             (pActualLength : option Z) (e : UErrorCode) (heap : Heap)
             (o : Opened) (t : UTrie3) (dst : Buffer) (capacity : Z),
        utrie3_openFromSerialized valueBits (Some (mkBuffer a mem)) length
          pActualLength e heap = Some o ->
        op_trie o = Some t ->
        Z.land (addr dst) 3 = 0 ->
        serialized_length t <= capacity <= zlen (bytes dst) ->
        serialized_length t <= length
        /\ op_actualLength o
           = option_map (fun _ => serialized_length t) pActualLength
        /\ utrie3_serialize (Some t) (Some dst) capacity (op_error o)
           = Some (serialized_length t,
                   Some (mkBuffer (addr dst)
                           (firstn (Z.to_nat (serialized_length t)) mem
                            ++ skipn (Z.to_nat (serialized_length t))
                                 (bytes dst))),
                   op_error o)).
Proof.
  split.
  - intros t dst capacity pActualLength e heap heap' H He Ha Hcap Hheap.
    pose proof (wf_fields t H) as Hf.
    pose proof (wf_parts t H) as (Hs & _).
    eexists. exists (with_name t "fromSerialized").
    split; [apply serialize_writes; try assumption; lia|].
    split; [apply open_image; try assumption; lia|].
    repeat split; reflexivity.
  - intros valueBits a mem length pActualLength e heap o t dst capacity
      Hopen Htrie Ha Hcap.
    destruct (open_image_back _ _ _ _ _ _ _ _ _ Hopen Htrie)
      as (rest & Hmem & Hs & Hi & Hd & Hlen & Hal & Herr & He & _).
    split; [assumption|]. split; [assumption|].
    rewrite Herr, serialize_writes by assumption.
    rewrite Hmem, firstn_app_exact; [reflexivity|].
    pose proof (zlen_image_of t Hs Hi Hd) as Hz. unfold zlen in Hz. lia.
Qed.

Lemma serialize_open_roundtrip_witness :
  (exists out t',
     utrie3_serialize (Some Sample.trie16) (Some (mkBuffer 0x1000
         (repeat Byte.x00 (Z.to_nat 5600)))) 5600 U_ZERO_ERROR
     = Some (serialized_length Sample.trie16, Some out, U_ZERO_ERROR)
     /\ utrie3_openFromSerialized 0 (Some out)
          (serialized_length Sample.trie16) (Some 0) U_ZERO_ERROR (mkHeap 1 0)
        = Some (mkOpened (Some t') (Some (serialized_length Sample.trie16))
                  U_ZERO_ERROR (mkHeap 0 1))
     /\ t' = with_name Sample.trie16 "fromSerialized")
  /\ (forall o t,
        utrie3_openFromSerialized 1
          (Some (mkBuffer 0x1000 Images.padded_low)) 4764 None U_ZERO_ERROR
          (mkHeap 1 0) = Some o ->
        op_trie o = Some t ->
        serialized_length t <= 4800 <= zlen (bytes Images.room) ->
        utrie3_serialize (Some t) (Some Images.room) 4800 (op_error o)
        = Some (serialized_length t,
                Some (mkBuffer (addr Images.room)
                        (firstn (Z.to_nat (serialized_length t))
                           Images.padded_low
                         ++ skipn (Z.to_nat (serialized_length t))
                              (bytes Images.room))),
                op_error o)).
Proof.
  split.
  - destruct (proj1 serialize_open_roundtrip Sample.trie16
                (mkBuffer 0x1000 (repeat Byte.x00 (Z.to_nat 5600))) 5600 (Some 0)
                U_ZERO_ERROR (mkHeap 1 0) (mkHeap 0 1))
      as (out & t' & Hw & Hr & Ht & _).
    + vm_compute. reflexivity.
    + reflexivity.
    + reflexivity.
    + vm_compute. split; discriminate.
    + reflexivity.
    + exists out, t'. auto.
  - intros o t Hopen Htrie Hcap.
    apply (proj2 serialize_open_roundtrip 1 0x1000 Images.padded_low 4764
             None U_ZERO_ERROR (mkHeap 1 0) o t Images.room 4800 Hopen Htrie
             eq_refl Hcap).
Defined.

(** C2 as stated fails in its second half: an image followed by four more
    bytes is accepted, and the trie read from it serializes to the
    4760 bytes of the image proper, not to the 4764 bytes that were
    accepted. *)
Lemma serialize_open_roundtrip_counterexample :
  exists o t out,
    utrie3_openFromSerialized 1 (Some (mkBuffer 0x1000 Images.padded_low))
      4764 None U_ZERO_ERROR (mkHeap 1 0) = Some o
    /\ op_trie o = Some t
    /\ zlen Images.padded_low = 4764
    /\ utrie3_serialize (Some t) (Some Images.room) 4800 U_ZERO_ERROR
       = Some (4760, Some out, U_ZERO_ERROR)
    /\ firstn (Z.to_nat 4764) (bytes out) <> Images.padded_low.
Proof.
  eexists. eexists. eexists.
  split; [vm_compute; reflexivity|].
  split; [vm_compute; reflexivity|].
  split; [vm_compute; reflexivity|].
  split; [vm_compute; reflexivity|].
  intros Heq. apply (f_equal (fun l => nth_error l (Z.to_nat 4760))) in Heq.
  vm_compute in Heq. discriminate Heq.
Qed.

(** ** Version detection *)

Lemma put_u32_inj (x y : Z) :
  0 <= x < 4294967296 -> 0 <= y < 4294967296 ->
  put_u32 x = put_u32 y -> x = y.
Proof.
  intros Hx Hy H.
  pose proof (units32_put_u32 x []) as Ux.
  pose proof (units32_put_u32 y []) as Uy.
  rewrite H, Uy in Ux. apply (f_equal (hd 0)) in Ux. cbn [hd units32] in Ux.
  rewrite !Z.mod_small in Ux by assumption. congruence.
Qed.

Lemma first_word (mem : list byte) :
  4 <= zlen mem ->
  exists s, get_u32 mem 0 = Some s /\ 0 <= s < 4294967296
    /\ firstn 4 mem = put_u32 s.
Proof.
  intros H.
  do 4 (destruct mem as [|? mem]; [exfalso; unfold zlen in H; cbn in H; lia|]).
  eexists. split; [reflexivity|]. split.
  - apply (get_u32_range (b :: b0 :: b1 :: b2 :: mem) 0). reflexivity.
  - cbn [firstn]. rewrite put_u32_word. reflexivity.
Qed.

Lemma getVersion_cascade (buf : Buffer) (length : Z) (anyEndianOk : bool) :
  16 <= length <= zlen (bytes buf) -> Z.land (addr buf) 3 = 0 ->
  exists s, 0 <= s < 4294967296
    /\ firstn 4 (bytes buf) = put_u32 s
    /\ utrie3_getVersion (Some buf) length anyEndianOk
       = Some (signature_cascade s anyEndianOk).
Proof.
  intros Hlen Ha.
  destruct (first_word (bytes buf)) as (s & Hs & Hr & Hf); [lia|].
  exists s. split; [assumption|]. split; [assumption|].
  unfold utrie3_getVersion, U_POINTER_MASK_LSB. rewrite Ha.
  destruct (Z.ltb_spec length 16); [lia|].
  cbn [orb negb Z.eqb option_map obind]. rewrite Hs. cbn [obind].
  unfold signature_cascade.
  repeat match goal with
         | |- context [if ?c then _ else _] => destruct c; try reflexivity
         end.
Qed.

(** C9.  For a non-null, 4-byte aligned buffer of at least 16 bytes,
    utrie3_getVersion returns 3, 2 or 1 when the first four bytes are the
    signature of that trie version, or its byte-reversed form when
    [anyEndianOk] is set, and 0 otherwise; for a null, shorter or
    misaligned buffer it returns 0. *)
Theorem utrie3_getVersion_spec (data : option Buffer) (length : Z)
    (anyEndianOk : bool) :
  (forall buf, data = Some buf ->
     16 <= length <= zlen (bytes buf) -> Z.land (addr buf) 3 = 0 ->
     let first4 := firstn 4 (bytes buf) in
     let has sig :=
       first4 = put_u32 sig
       \/ (anyEndianOk = true /\ first4 = rev (put_u32 sig)) in
     exists v, utrie3_getVersion data length anyEndianOk = Some v
       /\ (has UTRIE3_SIG -> v = 3)
       /\ (has UTRIE2_SIG -> v = 2)
       /\ (has UTRIE_SIG -> v = 1)
       /\ (~ has UTRIE3_SIG -> ~ has UTRIE2_SIG -> ~ has UTRIE_SIG -> v = 0))
  /\ (data = None \/ length < 16
      \/ (exists buf, data = Some buf /\ Z.land (addr buf) 3 <> 0) ->
      utrie3_getVersion data length anyEndianOk = Some 0).
Proof.
  split.
  - intros buf -> Hlen Ha first4 has.
    destruct (getVersion_cascade buf length anyEndianOk Hlen Ha)
      as (s & Hr & Hf & Hv).
    exists (signature_cascade s anyEndianOk). split; [assumption|].
    assert (Hfwd : forall sig, 0 <= sig < 4294967296 ->
              first4 = put_u32 sig -> s = sig).
    { intros sig Hsig Heq. apply put_u32_inj; try assumption.
      unfold first4 in Heq. congruence. }
    assert (H3 : has UTRIE3_SIG
                 <-> s = UTRIE3_SIG
                     \/ (anyEndianOk = true /\ s = UTRIE3_OE_SIG)).
    { unfold has. change (rev (put_u32 UTRIE3_SIG)) with (put_u32 UTRIE3_OE_SIG).
      split; (intros [Hx|[Hok Hx]]; [left|right; split; [assumption|]]);
        try (apply Hfwd; [vm_compute; split; [discriminate|reflexivity]|assumption]);
        subst s; assumption. }
    assert (H2 : has UTRIE2_SIG
                 <-> s = UTRIE2_SIG
                     \/ (anyEndianOk = true /\ s = UTRIE2_OE_SIG)).
    { unfold has. change (rev (put_u32 UTRIE2_SIG)) with (put_u32 UTRIE2_OE_SIG).
      split; (intros [Hx|[Hok Hx]]; [left|right; split; [assumption|]]);
        try (apply Hfwd; [vm_compute; split; [discriminate|reflexivity]|assumption]);
        subst s; assumption. }
    assert (H1 : has UTRIE_SIG
                 <-> s = UTRIE_SIG
                     \/ (anyEndianOk = true /\ s = UTRIE_OE_SIG)).
    { unfold has. change (rev (put_u32 UTRIE_SIG)) with (put_u32 UTRIE_OE_SIG).
      split; (intros [Hx|[Hok Hx]]; [left|right; split; [assumption|]]);
        try (apply Hfwd; [vm_compute; split; [discriminate|reflexivity]|assumption]);
        subst s; assumption. }
    rewrite H3, H2, H1. clear H3 H2 H1 Hfwd Hv Hf has first4.
    unfold signature_cascade.
    destruct (Z.eqb_spec s UTRIE3_SIG) as [E3|N3];
      [subst s; repeat split; intros; try reflexivity;
       repeat match goal with
              | H : _ \/ _ |- _ => destruct H
              | H : _ /\ _ |- _ => destruct H
              end; try discriminate; tauto|].
    destruct (Z.eqb_spec s UTRIE3_OE_SIG) as [E3'|N3'];
      [subst s; destruct anyEndianOk; cbn [andb]; repeat split; intros;
       try reflexivity;
       repeat match goal with
              | H : _ \/ _ |- _ => destruct H
              | H : _ /\ _ |- _ => destruct H
              end; try discriminate; tauto|].
    rewrite andb_false_r.
    destruct (Z.eqb_spec s UTRIE2_SIG) as [E2|N2];
      [subst s; repeat split; intros; try reflexivity;
       repeat match goal with
              | H : _ \/ _ |- _ => destruct H
              | H : _ /\ _ |- _ => destruct H
              end; try discriminate; tauto|].
    destruct (Z.eqb_spec s UTRIE2_OE_SIG) as [E2'|N2'];
      [subst s; destruct anyEndianOk; cbn [andb]; repeat split; intros;
       try reflexivity;
       repeat match goal with
              | H : _ \/ _ |- _ => destruct H
              | H : _ /\ _ |- _ => destruct H
              end; try discriminate; tauto|].
    rewrite andb_false_r.
    destruct (Z.eqb_spec s UTRIE_SIG) as [E1|N1];
      [subst s; repeat split; intros; try reflexivity;
       repeat match goal with
              | H : _ \/ _ |- _ => destruct H
              | H : _ /\ _ |- _ => destruct H
              end; try discriminate; tauto|].
    destruct (Z.eqb_spec s UTRIE_OE_SIG) as [E1'|N1'];
      [subst s; destruct anyEndianOk; cbn [andb]; repeat split; intros;
       try reflexivity;
       repeat match goal with
              | H : _ \/ _ |- _ => destruct H
              | H : _ /\ _ |- _ => destruct H
              end; try discriminate; tauto|].
    rewrite andb_false_r. repeat split; intros; try reflexivity; tauto.
  - unfold utrie3_getVersion. intros [->|[Hshort|(buf & -> & Ha)]].
    + rewrite orb_true_r. reflexivity.
    + destruct (Z.ltb_spec length 16); [reflexivity|lia].
    + unfold U_POINTER_MASK_LSB.
      destruct (Z.eqb_spec (Z.land (addr buf) 3) 0); [contradiction|].
      rewrite orb_true_r. reflexivity.
Qed.

Lemma utrie3_getVersion_spec_witness :
  utrie3_getVersion (Some Probe.reversed3) 16 true = Some 3
  /\ utrie3_getVersion (Some Probe.reversed3) 16 false = Some 0.
Proof.
  split.
  - destruct (proj1 (utrie3_getVersion_spec (Some Probe.reversed3) 16 true)
                Probe.reversed3 eq_refl)
      as (v & Hv & H3 & _).
    + vm_compute. split; discriminate.
    + reflexivity.
    + rewrite Hv. f_equal. apply H3. right. split; reflexivity.
  - destruct (proj1 (utrie3_getVersion_spec (Some Probe.reversed3) 16 false)
                Probe.reversed3 eq_refl)
      as (v & Hv & _ & _ & _ & H0).
    + vm_compute. split; discriminate.
    + reflexivity.
    + rewrite Hv. f_equal.
      apply H0; intros [H|[H _]]; vm_compute in H; discriminate H.
Defined.

(** ** The backward UTF-8 helper *)

Lemma lor_low3 (hi n : Z) :
  0 <= n < 8 -> Z.lor (Z.shiftl hi 3) n = hi * 8 + n.
Proof.
  intros Hn. rewrite Z.lor_comm, lor_shiftl_add by lia.
  change (2 ^ 3) with 8. lia.
Qed.

Lemma packed_low3 (hi n : Z) :
  0 <= n < 8 ->
  Z.land (hi * 8 + n) 7 = n /\ Z.shiftr (hi * 8 + n) 3 = hi.
Proof.
  intros Hn. change 7 with (Z.ones 3).
  rewrite Z.land_ones, Z.shiftr_div_pow2 by lia. change (2 ^ 3) with 8. dlia.
Qed.

(** The helper, case by case.  [n] is the number of bytes that the
    decoder consumed before [src]. *)
Lemma U8PrevIndex_cases (dec : Utf8PrevDecoder) (trie : UTrie3) (c : Z)
    (text : list byte) (start src : Z) :
  decoder_moves_back dec -> 0 <= start <= src -> src <= zlen text ->
  let length := Z.min (src - start) 7 in
  let window :=
    firstn (Z.to_nat length) (skipn (Z.to_nat (src - length)) text) in
  let cp := fst (dec window length c) in
  let n := length - snd (dec window length c) in
  0 <= n <= length
  /\ utrie3_internalU8PrevIndex dec trie c text start src
     = if cp <? 0 then Some (-1 * 8 + n)
       else if cp <=? 0xffff
       then option_map (fun idx => idx * 8 + n)
              (_UTRIE3_INDEX_FROM_BMP (index trie) cp)
       else if cp >=? highStart trie then Some (-2 * 8 + n)
       else option_map (fun idx => idx * 8 + n)
              (_UTRIE3_INDEX_FROM_SUPP (index trie) cp).
Proof.
  intros Hdec Hs Hsrc length window cp n.
  assert (Hn : 0 <= n <= length).
  { unfold n. pose proof (Hdec window length c ltac:(unfold length; lia)). lia. }
  split; [assumption|].
  unfold utrie3_internalU8PrevIndex.
  assert (Hlen : (if src - start <=? 7 then src - start else 7) = length).
  { unfold length. destruct (Z.leb_spec (src - start) 7); lia. }
  assert (Hst : (if src - start <=? 7 then start else src - 7) = src - length).
  { unfold length. destruct (Z.leb_spec (src - start) 7); lia. }
  rewrite Hlen, Hst.
  rewrite zslice_in_range by (unfold length; lia). cbn [obind]. fold window.
  destruct (dec window length c) as [cp' i] eqn:Hd.
  cbn [fst snd] in *. subst cp n.
  assert (Hn8 : 0 <= length - i < 8) by (unfold length in *; lia).
  change (-8) with (Z.shiftl (-1) 3). change (-16) with (Z.shiftl (-2) 3).
  rewrite !lor_low3 by assumption.
  destruct (Z.geb_spec cp' 0); destruct (Z.ltb_spec cp' 0); try lia;
    [|reflexivity].
  destruct (Z.leb_spec cp' 0xffff).
  - destruct (_UTRIE3_INDEX_FROM_BMP (index trie) cp'); [|reflexivity].
    cbn [obind option_map]. rewrite lor_low3 by assumption. reflexivity.
  - destruct (cp' >=? highStart trie); [reflexivity|].
    destruct (_UTRIE3_INDEX_FROM_SUPP (index trie) cp'); [|reflexivity].
    cbn [obind option_map]. rewrite lor_low3 by assumption. reflexivity.
Qed.

(** C8, as the code has it.  The helper returns a packed integer whose
    low 3 bits are the number [n] of bytes consumed before [src], from 0
    to 7, and whose remaining bits are -1 for ill-formed text, -2 for a
    code point above U+FFFF that is at or above [highStart], and
    otherwise the data index of the code point, which is not negative.
    A code point of the BMP gets its data index also when it is at or
    above [highStart]. *)
Theorem utrie3_internalU8PrevIndex_spec (dec : Utf8PrevDecoder)
    (trie : UTrie3) (c : Z) (text : list byte) (start src : Z) :
  decoder_moves_back dec -> well_formed trie ->
  0 <= start <= src -> src <= zlen text ->
  let length := Z.min (src - start) 7 in
  let window :=
    firstn (Z.to_nat length) (skipn (Z.to_nat (src - length)) text) in
  let cp := fst (dec window length c) in
  let n := length - snd (dec window length c) in
  cp <= 0x10ffff ->
  exists r,
    utrie3_internalU8PrevIndex dec trie c text start src = Some r
    /\ 0 <= n <= 7 /\ n <= src - start /\ Z.land r 7 = n
    /\ (cp < 0 -> r = Z.lor (-8) n /\ Z.shiftr r 3 = -1)
    /\ (0xffff < cp -> highStart trie <= cp ->
        r = Z.lor (-16) n /\ Z.shiftr r 3 = -2)
    /\ (0 <= cp -> cp <= 0xffff \/ cp < highStart trie ->
        exists dataIndex,
          r = Z.lor (Z.shiftl dataIndex 3) n /\ Z.shiftr r 3 = dataIndex
          /\ 0 <= dataIndex
          /\ read_data trie dataIndex = utrie3_get trie cp).
Proof.
  intros Hdec H Hs Hsrc length window cp n Hcp.
  destruct (U8PrevIndex_cases dec trie c text start src Hdec Hs Hsrc)
    as (Hn & Hr).
  fold length window cp n in Hn, Hr.
  assert (Hn8 : 0 <= n < 8) by (unfold length in *; lia).
  assert (Hpack : forall hi, Z.land (hi * 8 + n) 7 = n
                             /\ Z.shiftr (hi * 8 + n) 3 = hi
                             /\ hi * 8 + n = Z.lor (Z.shiftl hi 3) n).
  { intros hi. destruct (packed_low3 hi n Hn8). rewrite lor_low3 by assumption.
    auto. }
  rewrite Hr. clear Hr.
  destruct (Z.ltb_spec cp 0) as [Hneg|Hpos].
  { destruct (Hpack (-1)) as (Hl & Hh & Ho).
    eexists. split; [reflexivity|].
    repeat split; try lia; try assumption; try (intros; lia);
      try (unfold length in *; lia). }
  destruct (Z.leb_spec cp 0xffff) as [Hbmp|Hsupp].
  { destruct (get_bmp_block trie cp H) as (e & He & He0 & _ & Hget); [lia|].
    unfold _UTRIE3_INDEX_FROM_BMP. rewrite shiftr_5, land_data_mask, He.
    cbn [obind option_map].
    destruct (Hpack (e + cp mod 32)) as (Hl & Hh & Ho).
    eexists. split; [reflexivity|].
    repeat split; try lia; try assumption; try (intros; lia);
      try (unfold length in *; lia).
    intros _ _. exists (e + cp mod 32).
    repeat split; try assumption; try dlia. congruence. }
  destruct (Z.geb_spec cp (highStart trie)) as [Hhigh|Hlow].
  { destruct (Hpack (-2)) as (Hl & Hh & Ho).
    eexists. split; [reflexivity|].
    repeat split; try lia; try assumption; try (intros; lia);
      try (unfold length in *; lia). }
  destruct (get_supp_block trie cp H) as (b & e & Hb & _ & _ & He & He0 & _ & Hget);
    [lia|lia|].
  unfold _UTRIE3_INDEX_FROM_SUPP.
  rewrite shiftr_5, shiftr_14, land_data_mask, land_index_2_mask.
  change (UTRIE3_INDEX_1_OFFSET - UTRIE3_OMITTED_BMP_INDEX_1_LENGTH) with 2044.
  rewrite Hb. cbn [obind]. rewrite He. cbn [obind option_map]. rewrite shiftl_2.
  destruct (Hpack (e * 4 + cp mod 32)) as (Hl & Hh & Ho).
  eexists. split; [reflexivity|].
  repeat split; try lia; try assumption; try (intros; lia);
    try (unfold length in *; lia).
  intros _ _. exists (e * 4 + cp mod 32).
  repeat split; try assumption; try dlia. congruence.
Qed.

Lemma prev_char_moves_back : decoder_moves_back Utf8.prev_char.
Proof.
  intros window i c Hi. unfold Utf8.prev_char.
  repeat match goal with
         | |- context [if ?b then _ else _] => destruct b eqn:?
         end; cbn [snd]; b2p; lia.
Qed.

Lemma utrie3_internalU8PrevIndex_spec_witness :
  exists r,
    utrie3_internalU8PrevIndex Utf8.prev_char Sample.trie_low 0x80
      Probe.text 0 3 = Some r
    /\ Z.land r 7 = 2
    /\ exists dataIndex,
         r = Z.lor (Z.shiftl dataIndex 3) 2
         /\ read_data Sample.trie_low dataIndex
            = utrie3_get Sample.trie_low 0x5000.
Proof.
  destruct (utrie3_internalU8PrevIndex_spec Utf8.prev_char Sample.trie_low
              0x80 Probe.text 0 3)
    as (r & Hr & _ & _ & Hl & _ & _ & Hd).
  - exact prev_char_moves_back.
  - vm_compute. reflexivity.
  - lia.
  - vm_compute. discriminate.
  - vm_compute. discriminate.
  - exists r. split; [exact Hr|]. split; [exact Hl|].
    destruct Hd as (di & Hdi & _ & _ & Hget).
    + vm_compute. discriminate.
    + left. vm_compute. discriminate.
    + exists di. split; [exact Hdi|exact Hget].
Defined.

(** C8 as stated fails twice.  The code point U+5000 lies at or above
    [highStart] = 0x4000 of the sample trie, and the helper returns its
    data index 128 with 2 bytes consumed, not -16 | 2.  And at the start
    of the text no byte is consumed: the low 3 bits are 0. *)
Lemma utrie3_internalU8PrevIndex_counterexample :
  (fst (Utf8.prev_char [Byte.x61; Byte.xe5; Byte.x80] 3 0x80) = 0x5000
   /\ highStart Sample.trie_low <= 0x5000
   /\ utrie3_internalU8PrevIndex Utf8.prev_char Sample.trie_low 0x80
        Probe.text 0 3 = Some (Z.lor (Z.shiftl 128 3) 2)
   /\ Z.lor (Z.shiftl 128 3) 2 <> Z.lor (-16) 2)
  /\ (utrie3_internalU8PrevIndex Utf8.prev_char Sample.trie_low 0x80
        Probe.text 3 3 = Some (-8)
      /\ Z.land (-8) 7 = 0).
Proof. vm_compute. repeat split; discriminate. Qed.

(** ** Cloning and closing *)

(** The index and the data of a trie with consistent storage are its
    whole arrays, so that copying them gives the trie again. *)
Lemma clone_copy (t : UTrie3) (e : UErrorCode) (heap heap' : Heap) :
  storage_ok t = true -> 0 <= indexLength t -> 0 <= dataLength t ->
  U_FAILURE e = false -> uprv_malloc heap = Some heap' ->
  utrie3_clone (Some t) e heap = Some (Some t, e, heap').
Proof.
  intros Hs Hi Hd He Hheap. unfold utrie3_clone. rewrite He, Hheap.
  destruct (storage_ok_cases t Hs)
    as (_ & [(H16 & H32 & Hl)|(H16 & d32 & H32 & Hl & Hdl & _)]).
  - rewrite H16. rewrite !zslice_in_range by lia. cbn [obind].
    change (Z.to_nat 0) with O. cbn [skipn].
    rewrite firstn_skipn_all by assumption.
    destruct t; cbn in *. subst. reflexivity.
  - rewrite H16, H32. rewrite zslice_in_range by lia. cbn [obind].
    rewrite zslice_in_range by lia. cbn [obind].
    change (Z.to_nat 0) with O. cbn [skipn].
    assert (Hix : firstn (Z.to_nat (indexLength t)) (index t) = index t).
    { rewrite <- Hl. unfold zlen. rewrite Nat2Z.id. apply firstn_all. }
    assert (Hdx : firstn (Z.to_nat (dataLength t)) d32 = d32).
    { rewrite <- Hdl. unfold zlen. rewrite Nat2Z.id. apply firstn_all. }
    rewrite Hix, Hdx. destruct t; cbn in *. subst. reflexivity.
Qed.

Lemma malloc_free (heap heap' : Heap) :
  uprv_malloc heap = Some heap' -> uprv_free heap' = heap.
Proof.
  unfold uprv_malloc, uprv_free. destruct heap as [f l]. cbn.
  destruct f as [|n]; [discriminate|]. intros H. apply Some_eq in H.
  subst heap'. reflexivity.
Qed.

(** What utrie3_clone leaves in the allocator. *)
Lemma clone_heap (other : option UTrie3) (e e' : UErrorCode)
    (heap heap' : Heap) (r : option UTrie3) :
  utrie3_clone other e heap = Some (r, e', heap') ->
  match r with
  | Some _ => uprv_malloc heap = Some heap' /\ e' = e /\ U_FAILURE e = false
  | None => heap' = heap /\ U_FAILURE e' = true
  end.
Proof.
  unfold utrie3_clone. destruct (U_FAILURE e) eqn:He.
  { intros H. apply Some_eq in H. inversion H. subst. auto. }
  destruct other as [t|].
  2:{ intros H. apply Some_eq in H. inversion H. subst. auto. }
  destruct (uprv_malloc heap) as [h1|] eqn:Hm.
  2:{ intros H. apply Some_eq in H. inversion H. subst. auto. }
  destruct (zslice (index t) 0 (indexLength t)); [|discriminate].
  cbn [obind]. destruct (data16 t).
  - destruct (zslice (index t) z (dataLength t)); [|discriminate].
    cbn [obind]. intros H. apply Some_eq in H. inversion H. subst. auto.
  - destruct (data32 t); [|discriminate]. cbn [obind].
    destruct (zslice l0 0 (dataLength t)); [|discriminate].
    cbn [obind]. intros H. apply Some_eq in H. inversion H. subst. auto.
Qed.

(** What utrie3_openFromSerialized leaves in the allocator. *)
Lemma open_heap (valueBits : Z) (data : option Buffer) (length : Z)
    (pActualLength : option Z) (e : UErrorCode) (heap : Heap) (o : Opened) :
  utrie3_openFromSerialized valueBits data length pActualLength e heap
  = Some o ->
  match op_trie o with
  | Some _ => uprv_malloc heap = Some (op_heap o)
  | None => op_heap o = heap /\ op_actualLength o = pActualLength
            /\ U_FAILURE (op_error o) = true
  end.
Proof.
  unfold utrie3_openFromSerialized.
  destruct (U_FAILURE e) eqn:He.
  { intros H. apply Some_eq in H. subst o. cbn. auto. }
  destruct ((length <=? 0) || negb (U_POINTER_MASK_LSB data 3 =? 0)
            || (valueBits <? 0) || (UTRIE3_32_VALUE_BITS <? valueBits)) eqn:Hill.
  { intros H. apply Some_eq in H. subst o. cbn. auto. }
  destruct (length <? sizeof_UTrie3Header).
  { intros H. apply Some_eq in H. subst o. cbn. auto. }
  destruct (option_map bytes data) as [mem|]; [|discriminate]. cbn [obind].
  destruct (read_header mem) as [h|]; [|discriminate]. cbn [obind].
  destruct (negb (h_signature h =? UTRIE3_SIG)).
  { intros H. apply Some_eq in H. subst o. cbn. auto. }
  match goal with
  | |- (if ?c then _ else _) = _ -> _ => destruct c
  end.
  { intros H. apply Some_eq in H. subst o. cbn. auto. }
  cbv zeta.
  match goal with
  | |- (if ?c then _ else _) = _ -> _ => destruct c
  end.
  { intros H. apply Some_eq in H. subst o. cbn. auto. }
  destruct (uprv_malloc heap) as [h1|].
  2:{ intros H. apply Some_eq in H. subst o. cbn. auto. }
  destruct (Z.eqb_spec valueBits UTRIE3_16_VALUE_BITS) as [E0|N0].
  { match goal with
    | |- (ix <- ?x ;; _) = _ -> _ => destruct x; [|discriminate]
    end.
    cbn [obind].
    match goal with
    | |- (initial <- ?x ;; _) = _ -> _ => destruct x; [|discriminate]
    end.
    cbn [obind]. intros H. apply Some_eq in H. subst o. cbn. reflexivity. }
  destruct (Z.eqb_spec valueBits UTRIE3_32_VALUE_BITS) as [E1|N1].
  { match goal with
    | |- (ix <- ?x ;; _) = _ -> _ => destruct x; [|discriminate]
    end.
    cbn [obind].
    match goal with
    | |- (d32 <- ?x ;; _) = _ -> _ => destruct x; [|discriminate]
    end.
    cbn [obind].
    match goal with
    | |- (initial <- ?x ;; _) = _ -> _ => destruct x; [|discriminate]
    end.
    cbn [obind]. intros H. apply Some_eq in H. subst o. cbn. reflexivity. }
  exfalso. apply orb_false_iff in Hill. destruct Hill as [Hill H1].
  apply orb_false_iff in Hill. destruct Hill as [_ H0].
  apply Z.ltb_ge in H0, H1.
  change UTRIE3_32_VALUE_BITS with 1 in *.
  change UTRIE3_16_VALUE_BITS with 0 in *. lia.
Qed.

(** For a call without a failure on entry, utrie3_clone returns NULL with
    ILLEGAL_ARGUMENT for a null trie and NULL with MEMORY_ALLOCATION when
    the allocation fails, both without a change of the allocator;
    otherwise it takes one allocation, leaves the error code alone and
    returns a trie with the arrays and all fields of the original. *)
Theorem utrie3_clone_outcome (other : option UTrie3) (e : UErrorCode)
    (heap : Heap) :
  U_FAILURE e = false ->
  (forall t, other = Some t ->
     storage_ok t = true /\ 0 <= indexLength t /\ 0 <= dataLength t) ->
  utrie3_clone other e heap
  = match other, uprv_malloc heap with
    | None, _ => Some (None, U_ILLEGAL_ARGUMENT_ERROR, heap)
    | Some _, None => Some (None, U_MEMORY_ALLOCATION_ERROR, heap)
    | Some t, Some heap' => Some (Some t, e, heap')
    end.
Proof.
  intros He Hok. destruct other as [t|].
  - destruct (uprv_malloc heap) as [heap'|] eqn:Hm.
    + destruct (Hok t eq_refl) as (Hs & Hi & Hd).
      apply clone_copy; assumption.
    + unfold utrie3_clone. rewrite He, Hm. reflexivity.
  - unfold utrie3_clone. rewrite He. reflexivity.
Qed.

Lemma utrie3_clone_outcome_witness :
  utrie3_clone (Some Sample.trie16) U_ZERO_ERROR (mkHeap 1 0)
  = Some (Some Sample.trie16, U_ZERO_ERROR, mkHeap 0 1).
Proof.
  apply (utrie3_clone_outcome (Some Sample.trie16) U_ZERO_ERROR (mkHeap 1 0)).
  - reflexivity.
  - intros t Ht. apply Some_eq in Ht. subst t. vm_compute.
    repeat split; discriminate.
Defined.

(** A trie that utrie3_openFromSerialized has returned can be cloned: the
    clone has the same arrays and fields, and so the same value for every
    code point. *)
Theorem utrie3_clone_of_opened (valueBits : Z) (data : Buffer) (length : Z)
    (pActualLength : option Z) (e e2 : UErrorCode) (heap heap2 heap2' : Heap)
    (o : Opened) (t : UTrie3) :
  utrie3_openFromSerialized valueBits (Some data) length pActualLength e heap
  = Some o ->
  op_trie o = Some t ->
  U_FAILURE e2 = false -> uprv_malloc heap2 = Some heap2' ->
  exists t',
    utrie3_clone (Some t) e2 heap2 = Some (Some t', e2, heap2')
    /\ t' = t /\ forall c, utrie3_get t' c = utrie3_get t c.
Proof.
  intros Hopen Htrie He2 Hm. destruct data as [a mem].
  destruct (open_image_back _ _ _ _ _ _ _ _ _ Hopen Htrie)
    as (_ & _ & Hs & Hi & Hd & _).
  exists t. split; [apply clone_copy; assumption|]. split; reflexivity.
Qed.

Lemma utrie3_clone_of_opened_witness :
  exists t',
    utrie3_clone (Some (with_name Sample.trie_low "fromSerialized"))
      U_ZERO_ERROR (mkHeap 1 1)
    = Some (Some t', U_ZERO_ERROR, mkHeap 0 2)
    /\ t' = with_name Sample.trie_low "fromSerialized"
    /\ forall c, utrie3_get t' c
                 = utrie3_get (with_name Sample.trie_low "fromSerialized") c.
Proof.
  apply (utrie3_clone_of_opened 1 (mkBuffer 0x1000 Images.image_low) 4760
           None U_ZERO_ERROR U_ZERO_ERROR (mkHeap 1 0) (mkHeap 1 1) (mkHeap 0 2)
           (mkOpened (Some (with_name Sample.trie_low "fromSerialized")) None
              U_ZERO_ERROR (mkHeap 0 1))).
  - vm_compute. reflexivity.
  - reflexivity.
  - reflexivity.
  - reflexivity.
Defined.

(** Allocations are balanced: a call of utrie3_openFromSerialized or
    utrie3_clone that returns a trie has taken one allocation, which
    utrie3_close gives back, and has left the error code alone; a call
    that returns NULL leaves the allocator as it was and ends with a
    failure code. *)
Theorem utrie3_close_releases :
  (forall valueBits data length pActualLength e heap o,
     utrie3_openFromSerialized valueBits data length pActualLength e heap
     = Some o ->
     match op_trie o with
     | Some _ => utrie3_close (op_heap o) = heap
     | None => op_heap o = heap /\ U_FAILURE (op_error o) = true
     end)
  /\ (forall other e heap r e' heap',
        utrie3_clone other e heap = Some (r, e', heap') ->
        match r with
        | Some _ => utrie3_close heap' = heap /\ e' = e
        | None => heap' = heap /\ U_FAILURE e' = true
        end).
Proof.
  split.
  - intros valueBits data length pActualLength e heap o Hopen.
    pose proof (open_heap _ _ _ _ _ _ _ Hopen) as H.
    destruct (op_trie o).
    + apply malloc_free. assumption.
    + tauto.
  - intros other e heap r e' heap' Hclone.
    pose proof (clone_heap _ _ _ _ _ _ Hclone) as H.
    destruct r.
    + split; [apply malloc_free|]; tauto.
    + assumption.
Qed.

Lemma utrie3_close_releases_witness :
  utrie3_clone (Some Sample.trie_low) U_ZERO_ERROR (mkHeap 3 3)
  = Some (Some Sample.trie_low, U_ZERO_ERROR, mkHeap 2 4)
  /\ utrie3_close (mkHeap 2 4) = mkHeap 3 3.
Proof.
  assert (H : utrie3_clone (Some Sample.trie_low) U_ZERO_ERROR (mkHeap 3 3)
              = Some (Some Sample.trie_low, U_ZERO_ERROR, mkHeap 2 4))
    by (vm_compute; reflexivity).
  split; [exact H|].
  exact (proj1 (proj2 utrie3_close_releases _ _ _ _ _ _ H)).
Defined.

(** ** Ranges and point lookups *)

Lemma range_value_transform (t : UTrie3) (h : option UTrie3HandleValue)
    (cp : Z) :
  range_value t h cp = option_map (transform h) (utrie3_get t cp).
Proof.
  unfold range_value. destruct (utrie3_get t cp) as [raw|]; [|reflexivity].
  cbn [option_map]. rewrite handled_transform. reflexivity.
Qed.

(** utrie3_getRange returns the longest run that begins at [start]. *)
Lemma getRange_run (t : UTrie3) (start : Z)
    (h : option UTrie3HandleValue) (pValue : option Z) :
  well_formed t -> 0 <= start <= 0x10ffff ->
  exists e v,
    utrie3_getRange t start h pValue
    = Some (e, option_map (fun _ => v) pValue)
    /\ maximal_run t h start e v.
Proof.
  intros H Hstart. pose proof (wf_fields t H) as Hf.
  unfold maximal_run. setoid_rewrite <- range_value_transform.
  unfold utrie3_getRange. rewrite to_uint32_nonneg by lia.
  change MAX_UNICODE with 0x10ffff.
  destruct (Z.gtb_spec start 0x10ffff) as [Hgt|_]; [lia|].
  assert (Htail : forall cp, highStart t <= cp <= 0x10ffff ->
            range_value t h cp = Some (transform h (highValue t))).
  { intros cp Hcp. rewrite range_value_transform, get_high_tail by assumption.
    reflexivity. }
  destruct (Z.geb_spec start (highStart t)) as [Hhigh|Hlow].
  { exists 0x10ffff, (transform h (highValue t)).
    split; [reflexivity|]. split; [lia|]. split; [|left; reflexivity].
    intros cp Hcp. apply Htail. lia. }
  destruct (do_while_spec t h start pValue H (proj1 Hstart)
              (range_fuel t) (mkScan start (-1) (-1) None pValue))
    as (r & Hr & Hpost).
  { unfold range_fuel. rewrite shiftr_14. cbn [sc_c].
    rewrite Nat2Z.inj_succ, Z2Nat.id by dlia. dlia. }
  { assumption. }
  { unfold scan_inv2, scan_inv, scan_pre. cbn.
    repeat split; intros; discriminate. }
  rewrite Hr. cbn [obind]. destruct r as [e o|s].
  - destruct Hpost as (v & Ho & Hs & He & Hrun & Hx).
    exists e, v. rewrite Ho. split; [reflexivity|]. split; [lia|].
    split; [|right; assumption]. intros cp Hcp. apply Hrun. lia.
  - destruct Hpost as (Hc & Hv & [[Hpre _] _]). unfold scan_pre in Hpre.
    destruct (sc_value s) as [v|]; [|congruence].
    destruct Hpre as (Hlt & _ & Hrun & Hout). cbn [obind].
    fold (handled t h (highValue t)). rewrite handled_transform.
    rewrite Hout, Hc in *.
    destruct (Z.eqb_spec (transform h (highValue t)) v) as [Heq|Hne];
      cbn [negb].
    + exists 0x10ffff, v. split; [reflexivity|]. split; [lia|].
      split; [|left; reflexivity]. intros cp Hcp.
      destruct (Z.lt_ge_cases cp (highStart t)).
      * apply Hrun. lia.
      * rewrite Htail by lia. congruence.
    + exists (highStart t - 1), v. split; [reflexivity|]. split; [lia|].
      split; [intros cp Hcp; apply Hrun; lia|].
      destruct (Z.eq_dec (highStart t) 0x110000) as [Hmax|Hmax]; [left; lia|].
      right. exists (transform h (highValue t)).
      replace (highStart t - 1 + 1) with (highStart t) by lia.
      split; [apply Htail; lia|assumption].
Qed.

(** A longest run is determined by any of its code points. *)
Lemma maximal_run_unique (t : UTrie3) (h : option UTrie3HandleValue)
    (start start' e e' v v' : Z) :
  maximal_run t h start e v -> maximal_run t h start' e' v' ->
  start <= start' <= e -> e' = e /\ v' = v.
Proof.
  intros (He & Hrun & Hmax) (He' & Hrun' & Hmax') Hs.
  assert (Hv : v' = v).
  { pose proof (Hrun start' ltac:(lia)) as H1.
    pose proof (Hrun' start' ltac:(lia)) as H2. congruence. }
  subst v'. split; [|reflexivity].
  destruct (Z.lt_trichotomy e' e) as [Hlt|[Heq|Hgt]]; [|assumption|].
  - exfalso. destruct Hmax' as [Hm|(x & Hx & Hne)]; [lia|].
    pose proof (Hrun (e' + 1) ltac:(lia)). congruence.
  - exfalso. destruct Hmax as [Hm|(x & Hx & Hne)]; [lia|].
    pose proof (Hrun' (e + 1) ltac:(lia)). congruence.
Qed.

(** The range that utrie3_getRange returns is read off utrie3_get: on a
    well-formed trie and for a start in U+0000..U+10FFFF, every code point
    of the range has a value that the callback maps to the value stored
    in [*pValue] (without a callback: has that value), and the range is
    the longest such run; the special treatment of [initialValue] does
    not show. *)
Theorem utrie3_getRange_get (t : UTrie3) (start : Z)
    (h : option UTrie3HandleValue) (pValue : option Z) :
  well_formed t -> 0 <= start <= 0x10ffff ->
  exists e v,
    utrie3_getRange t start h pValue
    = Some (e, option_map (fun _ => v) pValue)
    /\ start <= e <= 0x10ffff
    /\ (forall cp, start <= cp <= e ->
        exists raw, utrie3_get t cp = Some raw /\ transform h raw = v)
    /\ (h = None -> utrie3_get t start = Some v)
    /\ (e = 0x10ffff
        \/ exists raw, utrie3_get t (e + 1) = Some raw
             /\ transform h raw <> v).
Proof.
  intros H Hstart.
  destruct (getRange_run t start h pValue H Hstart)
    as (e & v & Hr & He & Hrun & Hmax).
  exists e, v. split; [assumption|]. split; [assumption|].
  assert (Hraw : forall cp x,
            option_map (transform h) (utrie3_get t cp) = Some x ->
            exists raw, utrie3_get t cp = Some raw /\ transform h raw = x).
  { intros cp x Hx. destruct (utrie3_get t cp) as [raw|]; [|discriminate].
    exists raw. split; [reflexivity|]. cbn in Hx. congruence. }
  split; [intros cp Hcp; apply Hraw, Hrun; assumption|].
  split.
  - intros ->. destruct (Hraw start v (Hrun start ltac:(lia)))
      as (raw & Hget & Hv). cbn in Hv. congruence.
  - destruct Hmax as [Hm|(x & Hx & Hne)]; [left; assumption|].
    right. destruct (Hraw _ _ Hx) as (raw & Hget & Hv).
    exists raw. split; [assumption|congruence].
Qed.

Lemma utrie3_getRange_get_witness :
  exists e v,
    utrie3_getRange Sample.trie32 0x10000 None (Some 0) = Some (e, Some v)
    /\ 0x10000 <= e <= 0x10ffff
    /\ (forall cp, 0x10000 <= cp <= e ->
        exists raw, utrie3_get Sample.trie32 cp = Some raw /\ raw = v)
    /\ (@None UTrie3HandleValue = None ->
        utrie3_get Sample.trie32 0x10000 = Some v)
    /\ (e = 0x10ffff
        \/ exists raw, utrie3_get Sample.trie32 (e + 1) = Some raw
             /\ raw <> v).
Proof.
  apply (utrie3_getRange_get Sample.trie32 0x10000 None (Some 0)).
  - vm_compute. reflexivity.
  - lia.
Defined.

(** Ranges do not depend on where the enumeration enters them: a call
    that starts inside the range of an earlier call returns the same end
    and the same value, whatever [*pValue] held before and also when one
    of the calls passes no [pValue]. *)
Theorem utrie3_getRange_restart (t : UTrie3) (start start' e : Z)
    (h : option UTrie3HandleValue) (pValue pValue' o : option Z) :
  well_formed t -> 0 <= start <= 0x10ffff ->
  utrie3_getRange t start h pValue = Some (e, o) ->
  start <= start' <= e ->
  exists v,
    o = option_map (fun _ => v) pValue
    /\ utrie3_getRange t start' h pValue'
       = Some (e, option_map (fun _ => v) pValue').
Proof.
  intros H Hstart Hr Hs.
  destruct (getRange_run t start h pValue H Hstart) as (e1 & v1 & Hr1 & Hrun1).
  rewrite Hr1 in Hr. apply Some_eq in Hr.
  assert (He : e1 = e) by congruence.
  assert (Ho : o = option_map (fun _ => v1) pValue) by congruence.
  subst e1. clear Hr.
  assert (Hstart' : 0 <= start' <= 0x10ffff).
  { destruct Hrun1 as (He & _). lia. }
  destruct (getRange_run t start' h pValue' H Hstart')
    as (e2 & v2 & Hr2 & Hrun2).
  destruct (maximal_run_unique _ _ _ _ _ _ _ _ Hrun1 Hrun2 Hs) as [-> ->].
  exists v1. split; assumption.
Qed.

Lemma utrie3_getRange_restart_witness :
  exists v,
    Some 7 = option_map (fun _ => v) (Some 0)
    /\ utrie3_getRange Sample.trie16 0x1000 None None
       = Some (0xffff, None).
Proof.
  apply (utrie3_getRange_restart Sample.trie16 0x42 0x1000 0xffff None
           (Some 0) None (Some 7)).
  - vm_compute. reflexivity.
  - lia.
  - vm_compute. reflexivity.
  - lia.
Defined.

(** The sentinel is a reliable end mark: for a 32-bit [start] and a
    well-formed trie, utrie3_getRange returns [U_SENTINEL] exactly when
    [start] lies outside U+0000..U+10FFFF, and then it leaves [*pValue]
    alone; every other result is a code point from [start] on. *)
Theorem utrie3_getRange_sentinel (t : UTrie3) (start : Z)
    (h : option UTrie3HandleValue) (pValue : option Z) :
  well_formed t -> - 2 ^ 31 <= start < 2 ^ 31 ->
  exists e o,
    utrie3_getRange t start h pValue = Some (e, o)
    /\ (e = U_SENTINEL <-> start < 0 \/ 0x10ffff < start)
    /\ (e = U_SENTINEL -> o = pValue)
    /\ (e <> U_SENTINEL -> start <= e <= 0x10ffff).
Proof.
  intros H Hr.
  destruct (Z.lt_ge_cases start 0) as [Hneg|Hpos].
  { exists U_SENTINEL, pValue. unfold utrie3_getRange.
    rewrite to_uint32_neg by lia. change MAX_UNICODE with 0x10ffff.
    destruct (Z.gtb_spec (start + 2 ^ 32) 0x10ffff) as [_|Hle]; [|lia].
    split; [reflexivity|]. split; [split; auto|]. split; [auto|congruence]. }
  destruct (Z.lt_ge_cases 0x10ffff start) as [Hbig|Hin].
  { exists U_SENTINEL, pValue. unfold utrie3_getRange.
    rewrite to_uint32_nonneg by lia. change MAX_UNICODE with 0x10ffff.
    destruct (Z.gtb_spec start 0x10ffff) as [_|Hle]; [|lia].
    split; [reflexivity|]. split; [split; auto|]. split; [auto|congruence]. }
  destruct (getRange_run t start h pValue H ltac:(lia))
    as (e & v & Hres & He & _).
  exists e, (option_map (fun _ => v) pValue). split; [assumption|].
  change U_SENTINEL with (-1).
  split; [split; intros; lia|]. split; intros; lia.
Qed.

Lemma utrie3_getRange_sentinel_witness :
  exists e o,
    utrie3_getRange Sample.trie16 0x110000 None (Some 5) = Some (e, o)
    /\ (e = U_SENTINEL <-> 0x110000 < 0 \/ 0x10ffff < 0x110000)
    /\ (e = U_SENTINEL -> o = Some 5)
    /\ (e <> U_SENTINEL -> 0x110000 <= e <= 0x10ffff).
Proof.
  apply (utrie3_getRange_sentinel Sample.trie16 0x110000 None (Some 5)).
  - vm_compute. reflexivity.
  - lia.
Defined.

(** ** The width of the values *)

(** On a well-formed trie utrie3_get returns an unsigned 32-bit value for
    every 32-bit [c]; from a trie with 16-bit data every code point of
    the BMP and every code point below [highStart] gets a 16-bit value. *)
Theorem utrie3_get_width (t : UTrie3) (c v : Z) :
  well_formed t -> - 2 ^ 31 <= c < 2 ^ 31 ->
  utrie3_get t c = Some v ->
  0 <= v < 2 ^ 32
  /\ (data32 t = None -> 0 <= c -> c <= 0xffff \/ c < highStart t ->
      v < 2 ^ 16).
Proof.
  intros H Hc Hget. pose proof (wf_fields t H) as Hf.
  assert (Hread : forall i, read_data t i = Some v ->
            0 <= v < 2 ^ 32 /\ (data32 t = None -> v < 2 ^ 16)).
  { intros i Hi. unfold read_data in Hi.
    destruct (wf_storage t H)
      as [(H16 & H32 & Hl)|(H16 & d32 & H32 & Hl & Hd & Hu)];
      rewrite H32 in Hi.
    - pose proof (wf_index_u16 t i v H Hi).
      change (2 ^ 32) with 4294967296. change (2 ^ 16) with 65536. lia.
    - split; [|congruence]. rewrite forallb_forall in Hu.
      apply zth_In in Hi. apply Hu in Hi. b2p. lia. }
  change (2 ^ 32) with 4294967296 in *.
  destruct (Z.lt_ge_cases c 0) as [Hneg|Hpos].
  { rewrite get_out_of_range in Hget by (assumption || lia).
    apply Some_eq in Hget. split; [lia|intros; lia]. }
  destruct (Z.le_gt_cases c 0xffff) as [Hbmp|Hsupp].
  { destruct (get_bmp_block t c H) as (e & _ & _ & _ & Heq); [lia|].
    rewrite Heq in Hget. destruct (Hread _ Hget). auto. }
  destruct (Z.lt_ge_cases 0x10ffff c) as [Hout|Hin].
  { rewrite get_out_of_range in Hget by (assumption || lia).
    apply Some_eq in Hget. split; [lia|intros; lia]. }
  destruct (Z.le_gt_cases (highStart t) c) as [Hhigh|Hlow].
  { rewrite get_high in Hget by lia. apply Some_eq in Hget.
    split; [lia|intros; lia]. }
  destruct (get_supp_block t c H) as (b & e & _ & _ & _ & _ & _ & _ & Heq);
    [lia|lia|].
  rewrite Heq in Hget. destruct (Hread _ Hget). auto.
Qed.

Lemma utrie3_get_width_witness :
  0 <= 9 < 2 ^ 32
  /\ (data32 Sample.trie16 = None -> 0 <= 0x41 ->
      0x41 <= 0xffff \/ 0x41 < highStart Sample.trie16 -> 9 < 2 ^ 16).
Proof.
  apply (utrie3_get_width Sample.trie16 0x41 9).
  - vm_compute. reflexivity.
  - lia.
  - vm_compute. reflexivity.
Defined.

(** ** What utrie3_serialize returns *)

Lemma read_header_signature (mem : list byte) (h : UTrie3Header) :
  read_header mem = Some h -> get_u32 mem 0 = Some (h_signature h).
Proof.
  unfold read_header. intros H.
  destruct (get_u32 mem 0) as [s|]; [|discriminate H]. cbn [obind] in H.
  repeat match type of H with
         | (_ <- ?x ;; _) = _ =>
             destruct x; [cbn [obind] in H|discriminate H]
         end.
  apply Some_eq in H. subst h. reflexivity.
Qed.

Lemma image_signature (t : UTrie3) (vb : Z) (rest : list byte) :
  get_u32 (write_header (serialized_header t vb) ++ rest) 0 = Some UTRIE3_SIG.
Proof.
  erewrite read_header_signature by apply read_header_write. reflexivity.
Qed.

(** The three ways in which utrie3_serialize returns. *)
Lemma serialize_result (trie : option UTrie3) (data out : option Buffer)
    (capacity r : Z) (e e' : UErrorCode) :
  utrie3_serialize trie data capacity e = Some (r, out, e') ->
  (U_FAILURE e' = true /\ out = data
   /\ (r = 0 \/ (e' = U_BUFFER_OVERFLOW_ERROR /\ capacity < r)))
  \/ (U_FAILURE e' = false /\ e' = e /\ 24 <= r <= capacity
      /\ exists t dst body,
           trie = Some t /\ data = Some dst /\ Z.land (addr dst) 3 = 0
           /\ out = Some (mkBuffer (addr dst)
                            (write_header
                               (serialized_header t (trie_valueBits t))
                             ++ body))).
Proof.
  unfold utrie3_serialize. intros H.
  destruct (U_FAILURE e) eqn:He.
  { apply Some_eq in H. inversion H. subst. left. auto. }
  destruct trie as [t|].
  2:{ apply Some_eq in H. inversion H. subst. left. auto. }
  destruct ((capacity <? 0)
            || (capacity >? 0)
               && (match data with Some _ => false | None => true end
                   || negb (U_POINTER_MASK_LSB data 3 =? 0))) eqn:Hill.
  { apply Some_eq in H. inversion H. subst. left. auto. }
  rewrite serialized_length_eq in H.
  destruct (Z.ltb_spec capacity (serialized_length t)) as [Hlt|Hge].
  { apply Some_eq in H. inversion H. subst. left. auto. }
  destruct data as [dst|]; [|discriminate H]. cbn [obind] in H.
  destruct (zslice (index t) 0 (indexLength t)) as [ix|] eqn:Hix;
    [|discriminate H].
  cbn [obind] in H.
  match type of H with
  | (d <- ?x ;; _) = _ => destruct x as [d|] eqn:Hdata; [|discriminate H]
  end.
  cbn [obind] in H.
  match type of H with
  | (out <- ?x ;; _) = _ => destruct x as [bs|] eqn:Hover; [|discriminate H]
  end.
  cbn [obind] in H. apply Some_eq in H. inversion H. subst r out e'. clear H.
  right. split; [assumption|]. split; [reflexivity|].
  apply zslice_Some in Hix. destruct Hix as (_ & Hi & _).
  assert (Hd : 0 <= dataLength t).
  { destruct (data16 t).
    - destruct (zslice (index t) z (dataLength t)) eqn:Hz; [|discriminate].
      apply zslice_Some in Hz. lia.
    - destruct (data32 t); [|discriminate]. cbn [obind] in Hdata.
      destruct (zslice l 0 (dataLength t)) eqn:Hz; [|discriminate].
      apply zslice_Some in Hz. lia. }
  assert (Hlen : 24 <= serialized_length t).
  { unfold serialized_length. change sizeof_UTrie3Header with 24.
    destruct (trie_valueBits t =? UTRIE3_16_VALUE_BITS); lia. }
  split; [lia|].
  apply orb_false_iff in Hill. destruct Hill as [_ Hill].
  destruct (Z.gtb_spec capacity 0) as [_|Hle]; [|lia].
  cbn [andb orb] in Hill. apply negb_false_iff, Z.eqb_eq in Hill.
  cbn [U_POINTER_MASK_LSB] in Hill.
  unfold overwrite in Hover.
  match type of Hover with
  | (if ?c then _ else _) = _ => destruct c; [|discriminate Hover]
  end.
  apply Some_eq in Hover. change (Z.to_nat 0) with O in Hover.
  cbn [firstn app] in Hover. rewrite <- app_assoc in Hover.
  exists t, dst. eexists. split; [reflexivity|]. split; [reflexivity|].
  split; [assumption|]. rewrite <- Hover. reflexivity.
Qed.

(** utrie3_serialize refuses a null trie, a negative capacity and, with a
    positive capacity, a null or misaligned destination with
    ILLEGAL_ARGUMENT and the result 0.  Whenever it ends with a failure
    code, whichever it is, the destination is as it was, and the result
    is 0 unless the code is BUFFER_OVERFLOW. *)
Theorem utrie3_serialize_refusals (trie : option UTrie3)
    (data : option Buffer) (capacity : Z) (e : UErrorCode) :
  U_FAILURE e = false ->
  (trie = None \/ capacity < 0
   \/ (0 < capacity
       /\ (data = None
           \/ exists dst, data = Some dst /\ Z.land (addr dst) 3 <> 0)) ->
   utrie3_serialize trie data capacity e
   = Some (0, data, U_ILLEGAL_ARGUMENT_ERROR))
  /\ (forall r out e',
        utrie3_serialize trie data capacity e = Some (r, out, e') ->
        U_FAILURE e' = true ->
        out = data /\ (r = 0 \/ e' = U_BUFFER_OVERFLOW_ERROR)).
Proof.
  intros He. split.
  - intros Hill. unfold utrie3_serialize. rewrite He.
    destruct trie as [t|]; [|reflexivity].
    destruct Hill as [Hn|[Hneg|(Hpos & Hdata)]]; [discriminate| |].
    + destruct (Z.ltb_spec capacity 0); [reflexivity|lia].
    + destruct (Z.ltb_spec capacity 0); [reflexivity|].
      destruct (Z.gtb_spec capacity 0); [|lia].
      destruct Hdata as [->|(dst & -> & Ha)]; [reflexivity|].
      cbn [U_POINTER_MASK_LSB orb andb].
      destruct (Z.eqb_spec (Z.land (addr dst) 3) 0); [contradiction|].
      reflexivity.
  - intros r out e' H Hfail.
    destruct (serialize_result _ _ _ _ _ _ _ H)
      as [(_ & Ho & Hr)|(Hok & _)]; [|congruence].
    split; [assumption|]. tauto.
Qed.

Lemma utrie3_serialize_refusals_witness :
  utrie3_serialize (Some Sample.trie_low)
    (Some (mkBuffer 0x1002 (bytes Images.room))) 4800 U_ZERO_ERROR
  = Some (0, Some (mkBuffer 0x1002 (bytes Images.room)),
          U_ILLEGAL_ARGUMENT_ERROR).
Proof.
  apply (proj1 (utrie3_serialize_refusals (Some Sample.trie_low)
                  (Some (mkBuffer 0x1002 (bytes Images.room))) 4800
                  U_ZERO_ERROR eq_refl)).
  right. right. split; [lia|]. right.
  exists (mkBuffer 0x1002 (bytes Images.room)).
  split; [reflexivity|]. vm_compute. discriminate.
Defined.

(** ** The version of an image *)

Lemma getVersion_3 (buf : Buffer) (length : Z) (anyEndianOk : bool) :
  16 <= length -> Z.land (addr buf) 3 = 0 ->
  get_u32 (bytes buf) 0 = Some UTRIE3_SIG ->
  utrie3_getVersion (Some buf) length anyEndianOk = Some 3.
Proof.
  intros Hlen Ha Hs. unfold utrie3_getVersion, U_POINTER_MASK_LSB.
  rewrite Ha. destruct (Z.ltb_spec length 16); [lia|].
  cbn [orb negb Z.eqb option_map obind]. rewrite Hs. reflexivity.
Qed.

(** What a successful call of utrie3_openFromSerialized has checked. *)
Lemma open_checked (valueBits : Z) (data : option Buffer) (length : Z)
    (pActualLength : option Z) (e : UErrorCode) (heap : Heap) (o : Opened)
    (t : UTrie3) :
  utrie3_openFromSerialized valueBits data length pActualLength e heap
  = Some o ->
  op_trie o = Some t ->
  exists buf h,
    data = Some buf /\ Z.land (addr buf) 3 = 0 /\ 24 <= length
    /\ read_header (bytes buf) = Some h /\ h_signature h = UTRIE3_SIG.
Proof.
  unfold utrie3_openFromSerialized. intros H Ht. cbv beta zeta in H.
  assert (Hno : forall e' h',
            Some (mkOpened None pActualLength e' h') = Some o -> False).
  { intros e' h' Heq. apply Some_eq in Heq. subst o. discriminate Ht. }
  destruct (U_FAILURE e); [exfalso; eapply Hno; eassumption|].
  destruct ((length <=? 0) || negb (U_POINTER_MASK_LSB data 3 =? 0)
            || (valueBits <? 0) || (UTRIE3_32_VALUE_BITS <? valueBits)) eqn:Hill;
    [exfalso; eapply Hno; eassumption|].
  destruct (Z.ltb_spec length sizeof_UTrie3Header) as [|Hlen];
    [exfalso; eapply Hno; eassumption|].
  destruct data as [buf|]; [|discriminate H]. cbn [option_map obind] in H.
  destruct (read_header (bytes buf)) as [h|] eqn:Hh; [|discriminate H].
  cbn [obind] in H.
  destruct (Z.eqb_spec (h_signature h) UTRIE3_SIG) as [Hsig|];
    [|cbn [negb] in H; exfalso; eapply Hno; eassumption].
  exists buf, h. split; [reflexivity|].
  repeat (apply orb_false_iff in Hill; destruct Hill as [Hill ?]).
  match goal with
  | Ha : negb _ = false |- _ =>
      apply negb_false_iff, Z.eqb_eq in Ha; cbn [U_POINTER_MASK_LSB] in Ha
  end.
  change sizeof_UTrie3Header with 24 in Hlen. auto.
Qed.

(** utrie3_getVersion recognizes the images of this file: a buffer from
    which utrie3_openFromSerialized has returned a trie, and a buffer
    that utrie3_serialize has filled, have the version 3, whether or not
    the other byte order is admitted. *)
Theorem utrie3_getVersion_of_image (anyEndianOk : bool) :
  (forall valueBits data length pActualLength e heap o t,
     utrie3_openFromSerialized valueBits data length pActualLength e heap
     = Some o ->
     op_trie o = Some t ->
     utrie3_getVersion data length anyEndianOk = Some 3)
  /\ (forall trie data capacity e r out e',
        utrie3_serialize trie data capacity e = Some (r, out, e') ->
        U_FAILURE e' = false ->
        utrie3_getVersion out r anyEndianOk = Some 3).
Proof.
  split.
  - intros valueBits data length pActualLength e heap o t Hopen Ht.
    destruct (open_checked _ _ _ _ _ _ _ _ Hopen Ht)
      as (buf & h & -> & Ha & Hlen & Hh & Hsig).
    apply getVersion_3; [lia|assumption|].
    rewrite (read_header_signature _ _ Hh), Hsig. reflexivity.
  - intros trie data capacity e r out e' H Hok.
    destruct (serialize_result _ _ _ _ _ _ _ H)
      as [(Hfail & _)|(_ & _ & Hr & t & dst & body & _ & _ & Ha & ->)];
      [congruence|].
    apply getVersion_3; [lia|assumption|]. apply image_signature.
Qed.

Lemma utrie3_getVersion_of_image_witness :
  utrie3_getVersion (Some (mkBuffer 0x1000 Images.image_low)) 4760 false
  = Some 3.
Proof.
  apply (proj1 (utrie3_getVersion_of_image false) 1
           (Some (mkBuffer 0x1000 Images.image_low)) 4760 None U_ZERO_ERROR
           (mkHeap 1 0)
           (mkOpened (Some (with_name Sample.trie_low "fromSerialized")) None
              U_ZERO_ERROR (mkHeap 0 1))
           (with_name Sample.trie_low "fromSerialized")).
  - vm_compute. reflexivity.
  - reflexivity.
Defined.

(** ** Debugging output *)

Lemma count_loop_occ (read : Z -> option Z) (iv : Z) (l : list Z) :
  forall i count,
    (forall k, (k < List.length l)%nat ->
       read (i + Z.of_nat k) = nth_error l k) ->
    count_loop read iv (List.length l) i count
    = Some (count + Z.of_nat (count_occ Z.eq_dec l iv)).
Proof.
  induction l as [|x l IH]; intros i count Hread.
  - cbn. rewrite Z.add_0_r. reflexivity.
  - cbn [List.length count_loop].
    pose proof (Hread O ltac:(cbn; lia)) as H0. cbn in H0.
    rewrite Z.add_0_r in H0. rewrite H0. cbn [obind].
    rewrite IH.
    + cbn [count_occ].
      destruct (Z.eqb_spec x iv) as [->|Hne];
        destruct (Z.eq_dec iv iv) as [_|Hn]; try contradiction;
        try (destruct (Z.eq_dec x iv); [contradiction|]); f_equal; lia.
    + intros k Hk. specialize (Hread (S k) ltac:(cbn; lia)).
      cbn [nth_error] in Hread. rewrite <- Hread. f_equal. lia.
Qed.

Lemma count_occ_le {A : Type} (dec : forall x y : A, {x = y} + {x <> y})
    (l : list A) (x : A) :
  (count_occ dec l x <= List.length l)%nat.
Proof.
  induction l as [|y l IH]; cbn; [lia|]. destruct (dec y x); lia.
Qed.

(** countInitial counts the entries of the data array that hold
    [initialValue]. *)
Lemma countInitial_occ (t : UTrie3) :
  storage_ok t = true -> 0 <= indexLength t -> 0 <= dataLength t ->
  zlen (data_array t) = dataLength t
  /\ countInitial t
     = Some (Z.of_nat (count_occ Z.eq_dec (data_array t) (initialValue t))).
Proof.
  intros Hs Hi Hd. unfold countInitial, data_array.
  destruct (storage_ok_cases t Hs)
    as (_ & [(H16 & H32 & Hl)|(H16 & d32 & H32 & Hl & Hdl & _)]);
    rewrite H16; try rewrite H32.
  - set (l := firstn (Z.to_nat (dataLength t))
                (skipn (Z.to_nat (indexLength t)) (index t))).
    assert (Hlen : zlen l = dataLength t).
    { unfold l. rewrite zlen_firstn; [reflexivity|].
      rewrite zlen_skipn by lia. lia. }
    split; [assumption|].
    replace (Z.to_nat (dataLength t)) with (List.length l)
      by (unfold zlen in Hlen; lia).
    rewrite count_loop_occ; [reflexivity|].
    intros k Hk. unfold l. rewrite nth_error_firstn.
    unfold zlen in Hlen.
    destruct (Nat.ltb_spec k (Z.to_nat (dataLength t))); [|lia].
    rewrite nth_error_skipn. unfold zth.
    destruct (Z.ltb_spec (indexLength t + (0 + Z.of_nat k)) 0); [lia|].
    f_equal. lia.
  - assert (Hall : firstn (Z.to_nat (dataLength t)) d32 = d32).
    { rewrite <- Hdl. unfold zlen. rewrite Nat2Z.id. apply firstn_all. }
    rewrite Hall. split; [assumption|].
    replace (Z.to_nat (dataLength t)) with (List.length d32)
      by (unfold zlen in Hdl; lia).
    rewrite count_loop_occ; [reflexivity|].
    intros k Hk. cbn [obind]. unfold zth.
    destruct (Z.ltb_spec (0 + Z.of_nat k) 0); [lia|].
    f_equal. lia.
Qed.

(** For a trie with consistent storage utrie3_printLengths prints the two
    array lengths, the number of data entries that hold [initialValue],
    which is at most the data length, and as the serialized size the
    length that utrie3_serialize computes. *)
Theorem utrie3_printLengths_spec (t : UTrie3) (which : string) :
  storage_ok t = true -> 0 <= indexLength t -> 0 <= dataLength t ->
  exists count,
    utrie3_printLengths t which
    = Some (mkLengths which (name t) (indexLength t) (dataLength t) count
              (serialized_length t))
    /\ count = Z.of_nat (count_occ Z.eq_dec (data_array t) (initialValue t))
    /\ 0 <= count <= dataLength t
    /\ forall e, U_FAILURE e = false ->
         utrie3_serialize (Some t) None 0 e
         = Some (serialized_length t, None, U_BUFFER_OVERFLOW_ERROR).
Proof.
  intros Hs Hi Hd.
  destruct (countInitial_occ t Hs Hi Hd) as (Hlen & Hcount).
  eexists. split; [|split; [reflexivity|split]].
  - unfold utrie3_printLengths. rewrite Hcount. cbn [obind].
    do 2 f_equal. unfold serialized_length, trie_valueBits.
    change sizeof_UTrie3Header with 24.
    destruct (storage_ok_cases t Hs)
      as (_ & [(H16 & H32 & _)|(H16 & d32 & H32 & _)]);
      rewrite H16, H32.
    + change (UTRIE3_16_VALUE_BITS =? UTRIE3_16_VALUE_BITS) with true.
      cbv iota. lia.
    + change (UTRIE3_32_VALUE_BITS =? UTRIE3_16_VALUE_BITS) with false.
      cbv iota. lia.
  - pose proof (count_occ_le Z.eq_dec (data_array t) (initialValue t)).
    unfold zlen in Hlen. lia.
  - intros e He. apply serialize_overflow; [assumption| |intros; lia].
    unfold serialized_length. change sizeof_UTrie3Header with 24.
    destruct (trie_valueBits t =? UTRIE3_16_VALUE_BITS); lia.
Qed.

Lemma utrie3_printLengths_spec_witness :
  exists count,
    utrie3_printLengths Sample.trie_low "frozen"
    = Some (mkLengths "frozen" "sampleLow" 2048 160 count 4760)
    /\ count = 159.
Proof.
  destruct (utrie3_printLengths_spec Sample.trie_low "frozen")
    as (count & Hp & Hc & _).
  - vm_compute. reflexivity.
  - vm_compute. discriminate.
  - vm_compute. discriminate.
  - exists count. split; [exact Hp|]. rewrite Hc. vm_compute. reflexivity.
Defined.

(** ** Byte swapping *)

Lemma swap_refuses_false (ds : UDataSwapper) (h : UTrie3Header) :
  swap_refuses ds h = false ->
  readUInt32 ds (h_signature h) = UTRIE3_SIG
  /\ (swap_valueBits ds h = 0 \/ swap_valueBits ds h = 1)
  /\ Z.land (swap_options ds h) UTRIE3_OPTIONS_RESERVED_MASK = 0
  /\ 2048 <= swap_indexLength ds h /\ 128 <= swap_dataLength ds h.
Proof.
  unfold swap_refuses. intros H.
  repeat (apply orb_false_iff in H; destruct H as [H ?]).
  apply negb_false_iff, Z.eqb_eq in H.
  repeat match goal with
         | H : negb _ = false |- _ => apply negb_false_iff, Z.eqb_eq in H
         | H : (_ <? _) = false |- _ => apply Z.ltb_ge in H
         end.
  change UTRIE3_32_VALUE_BITS with 1 in *.
  change UTRIE3_INDEX_1_OFFSET with 2048 in *.
  change UTRIE3_DATA_START_OFFSET with 128 in *.
  repeat split; try assumption; lia.
Qed.

Lemma swap_size_min (ds : UDataSwapper) (h : UTrie3Header) :
  swap_refuses ds h = false -> 4376 <= swap_size ds h.
Proof.
  intros H. destruct (swap_refuses_false ds h H) as (_ & _ & _ & Hi & Hd).
  unfold swap_size. change sizeof_UTrie3Header with 24.
  destruct (swap_valueBits ds h =? UTRIE3_16_VALUE_BITS); lia.
Qed.

(** The size as lines 524-535 compute it. *)
Lemma swap_size_switch (ds : UDataSwapper) (h : UTrie3Header) :
  swap_refuses ds h = false ->
  (if swap_valueBits ds h =? UTRIE3_16_VALUE_BITS
   then Some (sizeof_UTrie3Header + swap_indexLength ds h * 2
              + swap_dataLength ds h * 2)
   else if swap_valueBits ds h =? UTRIE3_32_VALUE_BITS
   then Some (sizeof_UTrie3Header + swap_indexLength ds h * 2
              + swap_dataLength ds h * 4)
   else None)
  = Some (swap_size ds h).
Proof.
  intros H. destruct (swap_refuses_false ds h H) as (_ & [Hv|Hv] & _).
  - unfold swap_size. rewrite Hv. reflexivity.
  - unfold swap_size. rewrite Hv. reflexivity.
Qed.

(** A call with a negative length computes the size and writes nothing. *)
Lemma swap_preflight (ds : UDataSwapper) (mem : list byte) (length : Z)
    (outData : option (list byte)) (e : UErrorCode) (h : UTrie3Header) :
  U_FAILURE e = false -> length < 0 -> read_header mem = Some h ->
  utrie3_swap (Some ds) (Some mem) length outData e
  = if swap_refuses ds h then Some (0, outData, U_INVALID_FORMAT_ERROR)
    else Some (swap_size ds h, outData, e).
Proof.
  intros He Hlen Hh. unfold utrie3_swap. rewrite He, Hh.
  destruct (Z.geb_spec length 0) as [|_]; [lia|]. cbn [andb obind].
  cbv zeta. fold (swap_options ds h). fold (swap_valueBits ds h).
  fold (swap_indexLength ds h). fold (swap_dataLength ds h).
  fold (swap_refuses ds h).
  destruct (swap_refuses ds h) eqn:Hr; [reflexivity|].
  rewrite (swap_size_switch ds h Hr). reflexivity.
Qed.

(** One call of an array swapper behind the bytes converted so far. *)
Lemma swap_call_append
    (sw : list byte -> UErrorCode -> list byte * UErrorCode)
    (mem out conv : list byte) (unit off n : Z) (e : UErrorCode) :
  converts_units sw unit -> U_FAILURE e = false -> n mod unit = 0 ->
  zlen conv = off -> 0 <= n -> off + n <= zlen mem -> off + n <= zlen out ->
  let piece := firstn (Z.to_nat n) (skipn (Z.to_nat off) mem) in
  swap_call sw mem off n (conv ++ skipn (Z.to_nat off) out) e
  = Some ((conv ++ fst (sw piece e)) ++ skipn (Z.to_nat (off + n)) out,
          snd (sw piece e))
    /\ zlen (conv ++ fst (sw piece e)) = off + n
    /\ U_FAILURE (snd (sw piece e)) = false.
Proof.
  intros Hsw He Hunit Hconv Hn Hmem Hout piece.
  pose proof (zlen_nonneg conv) as Hoff.
  assert (Hpiece : zlen piece = n).
  { unfold piece. rewrite zlen_firstn; [reflexivity|].
    rewrite zlen_skipn by lia. lia. }
  destruct (Hsw piece e He ltac:(rewrite Hpiece; assumption)) as (Hl & Hf).
  assert (Hw : zlen (fst (sw piece e)) = n).
  { unfold zlen in *. rewrite Hl. assumption. }
  split; [|split; [rewrite zlen_app; lia|assumption]].
  unfold swap_call. rewrite zslice_in_range by lia. cbn [obind]. fold piece.
  destruct (sw piece e) as [w e1]. cbn [fst snd] in *.
  unfold overwrite.
  rewrite zlen_app, zlen_skipn by lia.
  destruct (Z.leb_spec 0 off); [|lia].
  destruct (Z.leb_spec (off + zlen w) (zlen conv + (zlen out - off))); [|lia].
  cbn [andb obind].
  rewrite firstn_app_exact by (unfold zlen in Hconv; lia).
  rewrite skipn_app.
  replace (Z.to_nat off + List.length w - List.length conv)%nat
    with (List.length w) by (unfold zlen in Hconv; lia).
  rewrite skipn_all2 by (unfold zlen in Hconv; lia).
  rewrite skipn_skipn. cbn [app].
  replace (List.length w + Z.to_nat off)%nat with (Z.to_nat (off + n))
    by (unfold zlen in Hw; lia).
  rewrite <- app_assoc. reflexivity.
Qed.

(** A call with room at both ends converts the pieces of the image and
    leaves the destination behind them alone. *)
Lemma swap_converts (ds : UDataSwapper) (mem out : list byte) (length : Z)
    (e : UErrorCode) (h : UTrie3Header) :
  U_FAILURE e = false -> read_header mem = Some h ->
  swap_refuses ds h = false -> converts_arrays ds ->
  swap_size ds h <= length -> swap_size ds h <= zlen mem ->
  swap_size ds h <= zlen out ->
  let done :=
    convert ds mem
      (swap_regions (swap_valueBits ds h) (swap_indexLength ds h)
         (swap_dataLength ds h)) e in
  utrie3_swap (Some ds) (Some mem) length (Some out) e
  = Some (swap_size ds h,
          Some (fst done ++ skipn (Z.to_nat (swap_size ds h)) out),
          snd done)
    /\ zlen (fst done) = swap_size ds h
    /\ U_FAILURE (snd done) = false.
Proof.
  intros He Hh Hr (H16 & H32) Hlen Hmem Hout done.
  pose proof (swap_size_min ds h Hr) as Hmin.
  destruct (swap_refuses_false ds h Hr) as (_ & Hv & _ & Hi & Hd).
  unfold utrie3_swap. rewrite He, Hh.
  destruct (Z.geb_spec length 0) as [_|]; [|lia]. cbn [andb].
  destruct (Z.ltb_spec length sizeof_UTrie3Header) as [Hlt|_];
    [change sizeof_UTrie3Header with 24 in Hlt; lia|].
  cbn [obind]. cbv zeta.
  fold (swap_options ds h). fold (swap_valueBits ds h).
  fold (swap_indexLength ds h). fold (swap_dataLength ds h).
  fold (swap_refuses ds h). rewrite Hr.
  rewrite (swap_size_switch ds h Hr).
  destruct (Z.ltb_spec length (swap_size ds h)) as [|_]; [lia|].
  cbn [obind].
  unfold done, swap_regions, swap_size in *.
  change sizeof_UTrie3Header with 24 in *.
  change UTRIE3_16_VALUE_BITS with 0 in *.
  change UTRIE3_32_VALUE_BITS with 1 in *.
  set (il := swap_indexLength ds h) in *.
  set (dl := swap_dataLength ds h) in *.
  set (piece := fun off n => firstn (Z.to_nat n) (skipn (Z.to_nat off) mem)).
  assert (Hroom : 24 <= zlen mem /\ 24 <= zlen out)
    by (destruct (swap_valueBits ds h =? 0); lia).
  (* the three pieces of the header *)
  destruct (swap_call_append (swapArray32 ds) mem out [] 4 0 8 e H32 He)
    as (C1 & L1 & F1); [reflexivity|reflexivity|lia|lia|lia|].
  cbn [app] in C1, L1. change (skipn (Z.to_nat 0) out) with out in C1.
  rewrite C1. clear C1. cbn [obind]. fold (piece 0 8) in *.
  set (r1 := swapArray32 ds (piece 0 8) e) in *.
  destruct (swap_call_append (swapArray16 ds) mem out (fst r1) 2 8 8 (snd r1)
              H16 F1)
    as (C2 & L2 & F2); [reflexivity|assumption|lia|lia|lia|].
  change (0 + 8) with 8. rewrite C2. clear C2. cbn [obind].
  fold (piece 8 8) in *.
  set (r2 := swapArray16 ds (piece 8 8) (snd r1)) in *.
  destruct (swap_call_append (swapArray32 ds) mem out (fst r1 ++ fst r2) 4 16 8
              (snd r2) H32 F2)
    as (C3 & L3 & F3); [reflexivity|assumption|lia|lia|lia|].
  change (8 + 8) with 16. rewrite C3. clear C3. cbn [obind].
  fold (piece 16 8) in *.
  set (r3 := swapArray32 ds (piece 16 8) (snd r2)) in *.
  change (16 + 8) with 24 in *.
  destruct Hv as [Hv|Hv]; rewrite Hv in *;
    cbn [Z.eqb Pos.eqb] in *; cbv iota in *.
  - (* 16-bit data: one piece *)
    destruct (swap_call_append (swapArray16 ds) mem out
                ((fst r1 ++ fst r2) ++ fst r3) 2 24 ((il + dl) * 2) (snd r3)
                H16 F3)
      as (C4 & L4 & F4);
      [apply Z.mod_mul; lia|assumption|lia|lia|lia|].
    rewrite C4. clear C4. cbn [obind].
    fold (piece 24 ((il + dl) * 2)) in *.
    set (r4 := swapArray16 ds (piece 24 ((il + dl) * 2)) (snd r3)) in *.
    cbn [convert fst snd app]. fold (piece 0 8) (piece 8 8) (piece 16 8).
    fold r1. fold r2. fold r3. fold (piece 24 ((il + dl) * 2)). fold r4.
    rewrite app_nil_r.
    replace (24 + (il + dl) * 2) with (24 + il * 2 + dl * 2) in * by lia.
    split; [|split; [|assumption]].
    + rewrite <- !app_assoc. reflexivity.
    + rewrite <- L4, <- !app_assoc. reflexivity.
  - (* 32-bit data: the index, then the data *)
    destruct (swap_call_append (swapArray16 ds) mem out
                ((fst r1 ++ fst r2) ++ fst r3) 2 24 (il * 2) (snd r3) H16 F3)
      as (C4 & L4 & F4);
      [apply Z.mod_mul; lia|assumption|lia|lia|lia|].
    rewrite C4. clear C4. cbn [obind].
    fold (piece 24 (il * 2)) in *.
    set (r4 := swapArray16 ds (piece 24 (il * 2)) (snd r3)) in *.
    destruct (swap_call_append (swapArray32 ds) mem out
                (((fst r1 ++ fst r2) ++ fst r3) ++ fst r4) 4 (24 + il * 2)
                (dl * 4) (snd r4) H32 F4)
      as (C5 & L5 & F5);
      [apply Z.mod_mul; lia|assumption|lia|lia|lia|].
    rewrite C5. clear C5. cbn [obind].
    fold (piece (24 + il * 2) (dl * 4)) in *.
    set (r5 := swapArray32 ds (piece (24 + il * 2) (dl * 4)) (snd r4)) in *.
    cbn [convert fst snd app]. fold (piece 0 8) (piece 8 8) (piece 16 8).
    fold r1. fold r2. fold r3. fold (piece 24 (il * 2)). fold r4.
    fold (piece (24 + il * 2) (dl * 4)). fold r5.
    rewrite app_nil_r.
    split; [|split; [|assumption]].
    + rewrite <- !app_assoc. reflexivity.
    + rewrite <- L5, <- !app_assoc. reflexivity.
Qed.

(** The ways in which utrie3_swap returns. *)
Lemma swap_result (ds : option UDataSwapper) (inData : option (list byte))
    (length : Z) (outData out : option (list byte)) (e e' : UErrorCode)
    (r : Z) :
  U_FAILURE e = false ->
  utrie3_swap ds inData length outData e = Some (r, out, e') ->
  (r = 0 /\ out = outData
   /\ (e' = U_ILLEGAL_ARGUMENT_ERROR \/ e' = U_INDEX_OUTOFBOUNDS_ERROR
       \/ e' = U_INVALID_FORMAT_ERROR))
  \/ (exists d mem h,
        ds = Some d /\ inData = Some mem /\ read_header mem = Some h
        /\ swap_refuses d h = false /\ r = swap_size d h
        /\ ((length < 0 /\ out = outData /\ e' = e)
            \/ (r <= length /\ outData <> None))).
Proof.
  intros He H. unfold utrie3_swap in H. rewrite He in H.
  assert (Hzero : forall x,
            Some (0, outData, x) = Some (r, out, e') ->
            r = 0 /\ out = outData /\ e' = x).
  { intros x Hx. apply Some_eq in Hx. inversion Hx. auto. }
  destruct ds as [d|].
  2:{ left. destruct (Hzero _ H) as (? & ? & ?). auto. }
  destruct inData as [mem|].
  2:{ left. destruct (Hzero _ H) as (? & ? & ?). auto. }
  match type of H with
  | (if ?c then _ else _) = _ => destruct c eqn:Hnull
  end.
  { left. destruct (Hzero _ H) as (? & ? & ?). auto. }
  match type of H with
  | (if ?c then _ else _) = _ => destruct c eqn:Hshort
  end.
  { left. destruct (Hzero _ H) as (? & ? & ?). auto. }
  destruct (read_header mem) as [h|] eqn:Hh; [|discriminate H].
  cbn [obind] in H. cbv zeta in H.
  fold (swap_options d h) in H. fold (swap_valueBits d h) in H.
  fold (swap_indexLength d h) in H. fold (swap_dataLength d h) in H.
  fold (swap_refuses d h) in H.
  destruct (swap_refuses d h) eqn:Hr.
  { left. destruct (Hzero _ H) as (? & ? & ?). auto. }
  rewrite (swap_size_switch d h Hr) in H.
  destruct (Z.geb_spec length 0) as [Hpos|Hneg].
  2:{ right. exists d, mem, h. apply Some_eq in H. inversion H.
      repeat (split; [reflexivity || assumption|]). left. auto. }
  destruct (Z.ltb_spec length (swap_size d h)) as [Hlt|Hge].
  { left. destruct (Hzero _ H) as (? & ? & ?). auto. }
  right. exists d, mem, h.
  destruct outData as [o|]; [|discriminate H]. cbn [obind] in H.
  destruct (swap_refuses_false d h Hr) as (_ & Hv & _).
  repeat match type of H with
         | obind ?x _ = _ =>
             destruct x as [[? ?]|]; [cbn [obind] in H|discriminate H]
         end.
  destruct Hv as [Hv|Hv]; rewrite Hv in H;
    cbn [Z.eqb Pos.eqb UTRIE3_16_VALUE_BITS UTRIE3_32_VALUE_BITS] in H;
    change (1 =? UTRIE3_16_VALUE_BITS) with false in H;
    change (0 =? UTRIE3_16_VALUE_BITS) with true in H;
    change (1 =? UTRIE3_32_VALUE_BITS) with true in H; cbv iota in H;
    repeat match type of H with
           | obind ?x _ = _ =>
               destruct x as [[? ?]|]; [cbn [obind] in H|discriminate H]
           end;
    apply Some_eq in H; inversion H;
    repeat (split; [reflexivity || assumption|]);
    (right; split; [lia|discriminate]).
Qed.

(** utrie3_swap returns 0 exactly when it refuses the call, and then it
    has set ILLEGAL_ARGUMENT, INDEX_OUTOFBOUNDS or INVALID_FORMAT and
    left the destination alone.  Every other result is the size of the
    image, which is 4376 bytes at least and not more than a length that
    is not negative; with a negative length nothing is written and the
    error code stays.  A missing swapper, input or (with a length that is
    not negative) destination is an ILLEGAL_ARGUMENT, and a length from 0
    to 23 an INDEX_OUTOFBOUNDS. *)
Theorem utrie3_swap_refusal (ds : option UDataSwapper)
    (inData : option (list byte)) (length : Z)
    (outData : option (list byte)) (e : UErrorCode) :
  U_FAILURE e = false ->
  (forall r out e',
     utrie3_swap ds inData length outData e = Some (r, out, e') ->
     (r = 0 ->
      out = outData
      /\ (e' = U_ILLEGAL_ARGUMENT_ERROR \/ e' = U_INDEX_OUTOFBOUNDS_ERROR
          \/ e' = U_INVALID_FORMAT_ERROR))
     /\ (r <> 0 ->
         4376 <= r /\ (0 <= length -> r <= length)
         /\ (length < 0 -> out = outData /\ e' = e)))
  /\ (ds = None \/ inData = None \/ (0 <= length /\ outData = None) ->
      utrie3_swap ds inData length outData e
      = Some (0, outData, U_ILLEGAL_ARGUMENT_ERROR))
  /\ (ds <> None -> inData <> None -> outData <> None -> 0 <= length < 24 ->
      utrie3_swap ds inData length outData e
      = Some (0, outData, U_INDEX_OUTOFBOUNDS_ERROR)).
Proof.
  intros He. split; [|split].
  - intros r out e' H.
    destruct (swap_result _ _ _ _ _ _ _ _ He H)
      as [(H0 & Ho & He')|(d & mem & h & _ & _ & _ & Hr & Hsize & Hcase)].
    + split; [auto|]. intros Hne. contradiction.
    + pose proof (swap_size_min d h Hr) as Hmin. split; [intros; lia|].
      intros _. split; [lia|].
      destruct Hcase as [(Hneg & Ho & He')|(Hle & _)].
      * split; [intros; lia|auto].
      * split; [intros; assumption|intros; lia].
  - intros Hill. unfold utrie3_swap. rewrite He.
    destruct ds as [d|]; [|reflexivity].
    destruct inData as [mem|]; [|reflexivity].
    destruct Hill as [Hn|[Hn|(Hpos & ->)]]; [discriminate|discriminate|].
    destruct (Z.geb_spec length 0); [reflexivity|lia].
  - intros Hds Hin Hout Hlen. unfold utrie3_swap. rewrite He.
    destruct ds as [d|]; [|contradiction].
    destruct inData as [mem|]; [|contradiction].
    destruct outData as [o|]; [|contradiction].
    destruct (Z.geb_spec length 0); [|lia]. cbn [andb].
    destruct (Z.ltb_spec length sizeof_UTrie3Header) as [|Hge];
      [reflexivity|change sizeof_UTrie3Header with 24 in Hge; lia].
Qed.

Lemma utrie3_swap_refusal_witness :
  utrie3_swap (Some (Swapper.make false true)) (Some Images.image_low) 4000
    (Some (bytes Images.room)) U_ZERO_ERROR
  = Some (0, Some (bytes Images.room), U_INDEX_OUTOFBOUNDS_ERROR)
  /\ (0 = 0 ->
      Some (bytes Images.room) = Some (bytes Images.room)
      /\ (U_INDEX_OUTOFBOUNDS_ERROR = U_ILLEGAL_ARGUMENT_ERROR
          \/ U_INDEX_OUTOFBOUNDS_ERROR = U_INDEX_OUTOFBOUNDS_ERROR
          \/ U_INDEX_OUTOFBOUNDS_ERROR = U_INVALID_FORMAT_ERROR)).
Proof.
  assert (H : utrie3_swap (Some (Swapper.make false true))
                (Some Images.image_low) 4000 (Some (bytes Images.room))
                U_ZERO_ERROR
              = Some (0, Some (bytes Images.room), U_INDEX_OUTOFBOUNDS_ERROR))
    by (vm_compute; reflexivity).
  split; [exact H|].
  exact (proj1 (proj1 (utrie3_swap_refusal _ _ _ _ U_ZERO_ERROR eq_refl)
                  _ _ _ H)).
Defined.

(** Preflighting agrees with the call proper: when a call has returned
    the size of an image, a call with the same swapper and input and a
    negative length returns the same size, whatever destination it is
    given, also none, and changes neither the destination nor the error
    code. *)
Theorem utrie3_swap_preflight (ds : option UDataSwapper)
    (inData : option (list byte)) (length length' : Z)
    (outData out outData' : option (list byte)) (e e' : UErrorCode) (r : Z) :
  U_FAILURE e = false ->
  utrie3_swap ds inData length outData e = Some (r, out, e') -> r <> 0 ->
  length' < 0 ->
  utrie3_swap ds inData length' outData' e = Some (r, outData', e).
Proof.
  intros He H Hr Hneg.
  destruct (swap_result _ _ _ _ _ _ _ _ He H)
    as [(H0 & _)|(d & mem & h & -> & -> & Hh & Hacc & -> & _)];
    [contradiction|].
  rewrite (swap_preflight d mem length' outData' e h He Hneg Hh), Hacc.
  reflexivity.
Qed.

Lemma utrie3_swap_preflight_witness :
  utrie3_swap (Some (Swapper.make false true)) (Some Images.image_low) (-1)
    None U_ZERO_ERROR
  = Some (4760, None, U_ZERO_ERROR).
Proof.
  eapply (utrie3_swap_preflight (Some (Swapper.make false true))
            (Some Images.image_low) 4760 (-1) (Some (bytes Images.room)) _
            None U_ZERO_ERROR _ 4760).
  - reflexivity.
  - vm_compute. reflexivity.
  - discriminate.
  - lia.
Defined.

(** With a length that is not negative and room at both ends utrie3_swap
    converts the image piece by piece, each in the width of its units:
    the first two header words as 32-bit units, the four 16-bit fields,
    the last two header words, the index as 16-bit units and the data in
    its own width.  The destination holds the converted pieces one behind
    the other, as many bytes as the size that is returned, and is
    unchanged behind them; no failure is reported. *)
Theorem utrie3_swap_layout (ds : UDataSwapper) (mem out : list byte)
    (length : Z) (e : UErrorCode) (h : UTrie3Header) :
  U_FAILURE e = false -> read_header mem = Some h ->
  swap_refuses ds h = false -> converts_arrays ds ->
  swap_size ds h <= length -> swap_size ds h <= zlen mem ->
  swap_size ds h <= zlen out ->
  let done :=
    convert ds mem
      (swap_regions (swap_valueBits ds h) (swap_indexLength ds h)
         (swap_dataLength ds h)) e in
  utrie3_swap (Some ds) (Some mem) length (Some out) e
  = Some (swap_size ds h,
          Some (fst done ++ skipn (Z.to_nat (swap_size ds h)) out),
          snd done)
    /\ zlen (fst done) = swap_size ds h
    /\ U_FAILURE (snd done) = false.
Proof. apply swap_converts. Qed.

(** ** The stand-in swappers *)

Lemma reverse16_length (bs : list byte) :
  List.length (Swapper.reverse16 bs) = List.length bs.
Proof.
  assert (H : forall n (l : list byte), (List.length l <= n)%nat ->
            List.length (Swapper.reverse16 l) = List.length l).
  { induction n as [|n IH]; intros l Hl.
    - destruct l; [reflexivity|cbn in Hl; lia].
    - destruct l as [|b0 [|b1 rest]]; try reflexivity.
      cbn [Swapper.reverse16 List.length]. rewrite IH; [reflexivity|].
      cbn in Hl. lia. }
  apply (H (List.length bs)). lia.
Qed.

Lemma reverse32_length (bs : list byte) :
  List.length (Swapper.reverse32 bs) = List.length bs.
Proof.
  assert (H : forall n (l : list byte), (List.length l <= n)%nat ->
            List.length (Swapper.reverse32 l) = List.length l).
  { induction n as [|n IH]; intros l Hl.
    - destruct l; [reflexivity|cbn in Hl; lia].
    - destruct l as [|b0 [|b1 [|b2 [|b3 rest]]]]; try reflexivity.
      cbn [Swapper.reverse32 List.length]. rewrite IH; [reflexivity|].
      cbn in Hl. lia. }
  apply (H (List.length bs)). lia.
Qed.

Lemma reverse16_involutive (bs : list byte) :
  Swapper.reverse16 (Swapper.reverse16 bs) = bs.
Proof.
  assert (H : forall n (l : list byte), (List.length l <= n)%nat ->
            Swapper.reverse16 (Swapper.reverse16 l) = l).
  { induction n as [|n IH]; intros l Hl.
    - destruct l; [reflexivity|cbn in Hl; lia].
    - destruct l as [|b0 [|b1 rest]]; try reflexivity.
      cbn [Swapper.reverse16]. rewrite IH; [reflexivity|].
      cbn in Hl. lia. }
  apply (H (List.length bs)). lia.
Qed.

Lemma reverse32_involutive (bs : list byte) :
  Swapper.reverse32 (Swapper.reverse32 bs) = bs.
Proof.
  assert (H : forall n (l : list byte), (List.length l <= n)%nat ->
            Swapper.reverse32 (Swapper.reverse32 l) = l).
  { induction n as [|n IH]; intros l Hl.
    - destruct l; [reflexivity|cbn in Hl; lia].
    - destruct l as [|b0 [|b1 [|b2 [|b3 rest]]]]; try reflexivity.
      cbn [Swapper.reverse32]. rewrite IH; [reflexivity|].
      cbn in Hl. lia. }
  apply (H (List.length bs)). lia.
Qed.

(** On whole units and without a failure an array swapper applies its
    function. *)
Lemma array_swapper_units (unit : Z) (f : list byte -> list byte)
    (bs : list byte) (e : UErrorCode) :
  U_FAILURE e = false -> zlen bs mod unit = 0 ->
  Swapper.array_swapper unit f bs e = (f bs, e).
Proof.
  intros He Hu. unfold Swapper.array_swapper. rewrite He, Hu. reflexivity.
Qed.

Lemma make_converts_arrays (inOther outOther : bool) :
  converts_arrays (Swapper.make inOther outOther).
Proof.
  split; intros bs e He Hu; cbn [Swapper.make swapArray16 swapArray32];
    rewrite array_swapper_units by assumption; cbn [fst snd];
    (split; [|assumption]); destruct (xorb inOther outOther);
    auto using reverse16_length, reverse32_length.
Qed.

Lemma make_reads_directly (outOther : bool) :
  reads_directly (Swapper.make false outOther).
Proof. intros x. split; reflexivity. Qed.

(** ** Byte swapping and the other functions *)

Lemma utrie3_swap_layout_witness :
  let done :=
    convert (Swapper.make false true) Images.image_low
      (swap_regions 1 2048 160) U_ZERO_ERROR in
  utrie3_swap (Some (Swapper.make false true)) (Some Images.image_low) 4760
    (Some (bytes Images.room)) U_ZERO_ERROR
  = Some (4760, Some (fst done ++ skipn (Z.to_nat 4760) (bytes Images.room)),
          snd done)
    /\ zlen (fst done) = 4760
    /\ U_FAILURE (snd done) = false.
Proof.
  apply (utrie3_swap_layout (Swapper.make false true) Images.image_low
           (bytes Images.room) 4760 U_ZERO_ERROR
           (mkHeader UTRIE3_SIG 524289 2048 40 512 1 7 0)).
  - reflexivity.
  - vm_compute. reflexivity.
  - vm_compute. reflexivity.
  - apply make_converts_arrays.
  - vm_compute. discriminate.
  - vm_compute. discriminate.
  - vm_compute. discriminate.
Defined.

(** A well-formed trie has the 128 data entries of U+0000..U+007F. *)
Lemma wf_data_min (t : UTrie3) : well_formed t -> 128 <= dataLength t.
Proof.
  intros H. pose proof (wf_data_limit t H) as Hl.
  pose proof (wf_ascii t 3 H ltac:(lia)) as Ha.
  destruct (wf_bmp_block t 3 H ltac:(lia)) as (e & He & _ & Hb).
  rewrite Ha in He. apply Some_eq in He. lia.
Qed.

(** The header of the image of a well-formed trie, as a swapper for
    input in the byte order of the machine shows it to utrie3_swap. *)
Lemma swap_header_of_image (ds : UDataSwapper) (t : UTrie3)
    (rest : list byte) :
  well_formed t -> reads_directly ds ->
  exists h,
    read_header (image_of t ++ rest) = Some h
    /\ swap_refuses ds h = false
    /\ swap_size ds h = serialized_length t
    /\ swap_valueBits ds h = trie_valueBits t
    /\ swap_indexLength ds h = indexLength t
    /\ swap_dataLength ds h = dataLength t.
Proof.
  intros H Hds. pose proof (wf_fields t H) as Hf.
  pose proof (wf_data_min t H) as Hmin.
  assert (Hvb : 0 <= trie_valueBits t <= 1).
  { destruct (wf_valueBits t H) as [(-> & _)|(-> & _)]; lia. }
  eexists. split.
  { unfold image_of. rewrite <- app_assoc.
    apply read_serialized_header; assumption. }
  unfold swap_refuses, swap_size, swap_valueBits, swap_options,
    swap_indexLength, swap_dataLength.
  cbn [h_signature h_options h_indexLength h_shiftedDataLength].
  rewrite !(proj1 (Hds _)), !(proj2 (Hds _)).
  rewrite land_value_bits, land_reserved, shiftl_2.
  assert (Hv : (dataNullOffset t * 4096 + trie_valueBits t) mod 256
               = trie_valueBits t) by dlia.
  assert (Hres : 256 * (((dataNullOffset t * 4096 + trie_valueBits t) / 256)
                        mod 16) = 0) by dlia.
  assert (Hdl : dataLength t / 4 * 4 = dataLength t) by dlia.
  rewrite Hv, Hres, Hdl.
  change UTRIE3_32_VALUE_BITS with 1.
  change UTRIE3_INDEX_1_OFFSET with 2048.
  change UTRIE3_DATA_START_OFFSET with 128.
  rewrite Z.eqb_refl.
  destruct (Z.ltb_spec (trie_valueBits t) 0); [lia|].
  destruct (Z.ltb_spec 1 (trie_valueBits t)); [lia|].
  destruct (Z.ltb_spec (indexLength t) 2048); [lia|].
  destruct (Z.ltb_spec (dataLength t) 128); [lia|].
  repeat split; try reflexivity.
  unfold serialized_length. destruct (trie_valueBits t =? UTRIE3_16_VALUE_BITS);
    lia.
Qed.

(** utrie3_swap accepts what utrie3_serialize writes: for the image of a
    well-formed trie, followed by whatever bytes, and a swapper for input
    in the byte order of the machine, a preflighting call returns the
    serialized length; so does a call with a length and a destination
    that have room for it, which reports no failure and keeps the length
    of the destination. *)
Theorem utrie3_swap_of_serialized (ds : UDataSwapper) (t : UTrie3)
    (rest : list byte) (e : UErrorCode) :
  well_formed t -> reads_directly ds -> U_FAILURE e = false ->
  (forall length outData,
     length < 0 ->
     utrie3_swap (Some ds) (Some (image_of t ++ rest)) length outData e
     = Some (serialized_length t, outData, e))
  /\ (converts_arrays ds ->
      forall length out,
        serialized_length t <= length -> serialized_length t <= zlen out ->
        exists out' e',
          utrie3_swap (Some ds) (Some (image_of t ++ rest)) length (Some out) e
          = Some (serialized_length t, Some out', e')
          /\ U_FAILURE e' = false /\ zlen out' = zlen out
          /\ skipn (Z.to_nat (serialized_length t)) out'
             = skipn (Z.to_nat (serialized_length t)) out).
Proof.
  intros H Hds He.
  destruct (swap_header_of_image ds t rest H Hds)
    as (h & Hh & Hacc & Hsize & _).
  split.
  - intros length outData Hneg.
    rewrite (swap_preflight ds _ length outData e h He Hneg Hh), Hacc, Hsize.
    reflexivity.
  - intros Hk length out Hlen Hout.
    pose proof (wf_parts t H) as (Hs & _). pose proof (wf_fields t H) as Hf.
    assert (Hmem : swap_size ds h <= zlen (image_of t ++ rest)).
    { rewrite zlen_app, zlen_image_of by (assumption || lia).
      pose proof (zlen_nonneg rest). lia. }
    destruct (swap_converts ds (image_of t ++ rest) out length e h He Hh Hacc
                Hk ltac:(lia) Hmem ltac:(lia))
      as (Hres & Hlen' & Hok).
    rewrite Hsize in *. eexists. eexists.
    split; [exact Hres|]. split; [assumption|].
    split.
    + rewrite zlen_app, Hlen', zlen_skipn; [lia|].
      unfold serialized_length in *. change sizeof_UTrie3Header with 24 in *.
      destruct (trie_valueBits t =? UTRIE3_16_VALUE_BITS); lia.
    + rewrite skipn_app_exact; [reflexivity|].
      unfold zlen in Hlen'. lia.
Qed.

Lemma utrie3_swap_of_serialized_witness :
  utrie3_swap (Some (Swapper.make false true)) (Some Images.padded_low) (-1)
    None U_ZERO_ERROR
  = Some (serialized_length Sample.trie_low, None, U_ZERO_ERROR).
Proof.
  apply (proj1 (utrie3_swap_of_serialized (Swapper.make false true)
                  Sample.trie_low [Byte.xff; Byte.xff; Byte.xff; Byte.xff]
                  U_ZERO_ERROR sample_trie_low_wf
                  (make_reads_directly true) eq_refl)).
  lia.
Defined.

(** utrie3_swap and utrie3_openFromSerialized agree on an image in the
    byte order of the machine: when utrie3_swap returns its size, then
    utrie3_openFromSerialized, given the value width that the options
    word of the header names, an aligned buffer of at least that many
    bytes and an allocation, returns a trie and reports the same size as
    the actual length. *)
Theorem utrie3_swap_open_agree (ds : UDataSwapper) (mem : list byte)
    (length : Z) (outData out : option (list byte)) (e e' : UErrorCode)
    (r a : Z) (heap heap' : Heap) :
  reads_directly ds -> U_FAILURE e = false ->
  utrie3_swap (Some ds) (Some mem) length outData e = Some (r, out, e') ->
  r <> 0 -> r <= zlen mem -> Z.land a 3 = 0 ->
  uprv_malloc heap = Some heap' ->
  exists h t,
    read_header mem = Some h
    /\ utrie3_openFromSerialized
         (Z.land (h_options h) UTRIE3_OPTIONS_VALUE_BITS_MASK)
         (Some (mkBuffer a mem)) (zlen mem) (Some 0) e heap
       = Some (mkOpened (Some t) (Some r) e heap').
Proof.
  intros Hds He H Hr Hmem Ha Hheap.
  destruct (swap_result _ _ _ _ _ _ _ _ He H)
    as [(H0 & _)|(d & mem' & h & Hd & Hm & Hh & Hacc & -> & _)];
    [contradiction|].
  apply Some_eq in Hd, Hm. subst d mem'.
  pose proof (swap_size_min ds h Hacc) as Hmin.
  destruct (swap_refuses_false ds h Hacc) as (Hsig & Hv & Hres & Hi & Hdl).
  unfold swap_size, swap_valueBits, swap_options, swap_indexLength,
    swap_dataLength in *.
  rewrite !(proj1 (Hds _)), !(proj2 (Hds _)) in *.
  set (vb := Z.land (h_options h) UTRIE3_OPTIONS_VALUE_BITS_MASK) in *.
  pose proof (open_outcome vb a mem (zlen mem) (Some 0) e heap He
                ltac:(lia)) as Hopen.
  cbv zeta in Hopen.
  assert (Hill : illegal_argument vb (Some (mkBuffer a mem)) (zlen mem)
                 = false).
  { unfold illegal_argument. cbn [U_POINTER_MASK_LSB addr]. rewrite Ha.
    change UTRIE3_32_VALUE_BITS with 1.
    destruct (Z.leb_spec (zlen mem) 0); [lia|].
    destruct (Z.ltb_spec vb 0); [lia|].
    destruct (Z.ltb_spec 1 vb); [lia|]. reflexivity. }
  assert (Hdecl : declared_length vb h
                  = sizeof_UTrie3Header + h_indexLength h * 2
                    + Z.shiftl (h_shiftedDataLength h) UTRIE3_INDEX_SHIFT
                      * (if vb =? UTRIE3_16_VALUE_BITS then 2 else 4)).
  { unfold declared_length. rewrite shiftl_2.
    destruct (vb =? UTRIE3_16_VALUE_BITS); lia. }
  assert (Hinv : invalid_format vb mem (zlen mem) = false).
  { unfold invalid_format. rewrite Hh, Hsig, Hres. fold vb.
    rewrite !Z.eqb_refl. cbn [negb orb].
    destruct (Z.ltb_spec (zlen mem) sizeof_UTrie3Header) as [Hlt|_];
      [change sizeof_UTrie3Header with 24 in *; lia|].
    destruct (Z.ltb_spec (zlen mem) (declared_length vb h)); [lia|].
    reflexivity. }
  rewrite Hill, Hinv, Hheap in Hopen.
  destruct Hopen as (h' & t & Hh' & Hopen).
  rewrite Hh in Hh'. apply Some_eq in Hh'. subst h'.
  exists h, t. split; [assumption|]. fold vb.
  rewrite Hopen. cbn [option_map]. rewrite Hdecl. reflexivity.
Qed.

Lemma utrie3_swap_open_agree_witness :
  exists h t,
    read_header Images.image_low = Some h
    /\ utrie3_openFromSerialized
         (Z.land (h_options h) UTRIE3_OPTIONS_VALUE_BITS_MASK)
         (Some (mkBuffer 0x1000 Images.image_low)) (zlen Images.image_low)
         (Some 0) U_ZERO_ERROR (mkHeap 1 0)
       = Some (mkOpened (Some t) (Some 4760) U_ZERO_ERROR (mkHeap 0 1)).
Proof.
  apply (utrie3_swap_open_agree (Swapper.make false true) Images.image_low
           (-1) None None U_ZERO_ERROR U_ZERO_ERROR 4760 0x1000 (mkHeap 1 0)
           (mkHeap 0 1)).
  - apply make_reads_directly.
  - reflexivity.
  - vm_compute. reflexivity.
  - discriminate.
  - vm_compute. discriminate.
  - reflexivity.
  - reflexivity.
Defined.

(** ** Converting an image and converting it back *)

Lemma swap_regions_tiles (vb il dl : Z) :
  vb = 0 \/ vb = 1 -> 0 <= il -> 0 <= dl ->
  tiles 0 (swap_regions vb il dl)
    (24 + il * 2 + dl * (if vb =? 0 then 2 else 4)).
Proof.
  intros [-> | ->] Hi Hd; cbn -[Z.mul Z.add Z.modulo];
    change sizeof_UTrie3Header with 24;
    repeat split; try reflexivity; try lia; try (apply Z.mod_mul; lia).
Qed.

Lemma tiles_le (k : Z) (regions : list (Z * Z * bool)) (stop : Z) :
  tiles k regions stop -> k <= stop.
Proof.
  revert k. induction regions as [|r rest IH]; intros k H; cbn in H.
  - lia.
  - destruct H as (_ & Hn & _ & H). apply IH in H. lia.
Qed.

Lemma zlen_region_bytes (mem : list byte) (r : Z * Z * bool) :
  0 <= fst (fst r) -> 0 <= snd (fst r) ->
  fst (fst r) + snd (fst r) <= zlen mem ->
  zlen (region_bytes mem r) = snd (fst r).
Proof.
  intros H0 H1 H2. unfold region_bytes. rewrite zlen_firstn; [reflexivity|].
  rewrite zlen_skipn by lia. lia.
Qed.

Section Pure.

(** A swapper whose array swappers apply [f16] and [f32] to the units. *)
Variable ds : UDataSwapper.
Variables f16 f32 : list byte -> list byte.
Hypothesis Hs16 : swapArray16 ds = Swapper.array_swapper 2 f16.
Hypothesis Hs32 : swapArray32 ds = Swapper.array_swapper 4 f32.

Lemma convert_pure (mem : list byte) (e : UErrorCode)
    (regions : list (Z * Z * bool)) :
  forall k stop,
    tiles k regions stop -> 0 <= k -> stop <= zlen mem ->
    U_FAILURE e = false ->
    convert ds mem regions e
    = (flat_map (fun r : Z * Z * bool =>
                   (if snd r then f32 else f16) (region_bytes mem r))
         regions, e).
Proof.
  induction regions as [|[[off n] wide] rest IH]; intros k stop Ht Hk Hstop He.
  - reflexivity.
  - cbn [tiles fst snd] in Ht. destruct Ht as (-> & Hn & Hu & Ht).
    pose proof (tiles_le _ _ _ Ht) as Hle.
    cbn [convert flat_map fst snd].
    change (firstn (Z.to_nat n) (skipn (Z.to_nat k) mem))
      with (region_bytes mem (k, n, wide)).
    assert (Hz : zlen (region_bytes mem (k, n, wide)) = n)
      by (apply zlen_region_bytes; cbn [fst snd]; lia).
    destruct wide.
    + rewrite Hs32, array_swapper_units by (rewrite ?Hz; assumption).
      cbn [fst snd]. rewrite (IH (k + n) stop) by (assumption || lia).
      reflexivity.
    + rewrite Hs16, array_swapper_units by (rewrite ?Hz; assumption).
      cbn [fst snd]. rewrite (IH (k + n) stop) by (assumption || lia).
      reflexivity.
Qed.

End Pure.

Lemma firstn_plus {A : Type} (a b : nat) (l : list A) :
  firstn (a + b) l = firstn a l ++ firstn b (skipn a l).
Proof.
  revert l. induction a as [|a IH]; intros l; [reflexivity|].
  destruct l as [|x l]; cbn [Nat.add firstn skipn app].
  - rewrite firstn_nil. reflexivity.
  - rewrite IH. reflexivity.
Qed.

(** Pieces that lie one behind the other make up a stretch of the
    image. *)
Lemma tiles_concat (mem : list byte) (regions : list (Z * Z * bool)) :
  forall k stop,
    tiles k regions stop -> 0 <= k -> stop <= zlen mem ->
    flat_map (region_bytes mem) regions
    = firstn (Z.to_nat (stop - k)) (skipn (Z.to_nat k) mem).
Proof.
  induction regions as [|[[off n] wide] rest IH]; intros k stop Ht Hk Hstop.
  - cbn in Ht. subst stop. rewrite Z.sub_diag. reflexivity.
  - cbn [tiles fst snd] in Ht. destruct Ht as (-> & Hn & _ & Ht).
    pose proof (tiles_le _ _ _ Ht) as Hle.
    cbn [flat_map]. rewrite (IH (k + n) stop) by (assumption || lia).
    unfold region_bytes. cbn [fst snd].
    replace (Z.to_nat (k + n)) with (Z.to_nat n + Z.to_nat k)%nat by lia.
    rewrite <- skipn_skipn.
    replace (Z.to_nat (stop - k))
      with (Z.to_nat n + Z.to_nat (stop - (k + n)))%nat by lia.
    rewrite firstn_plus. reflexivity.
Qed.

(** Reading the pieces of a converted image gives the converted pieces. *)
Lemma tiles_reread (F : Z * Z * bool -> list byte -> list byte)
    (G : Z * Z * bool -> list byte -> list byte)
    (mem post : list byte) (regions : list (Z * Z * bool)) :
  (forall r bs, List.length (F r bs) = List.length bs) ->
  forall k stop pre,
    tiles k regions stop -> 0 <= k -> stop <= zlen mem -> zlen pre = k ->
    let o := pre ++ flat_map (fun r => F r (region_bytes mem r)) regions
             ++ post in
    flat_map (fun r => G r (region_bytes o r)) regions
    = flat_map (fun r => G r (F r (region_bytes mem r))) regions.
Proof.
  intros HF.
  induction regions as [|[[off n] wide] rest IH];
    intros k stop pre Ht Hk Hstop Hpre o.
  - reflexivity.
  - cbn [tiles fst snd] in Ht. destruct Ht as (-> & Hn & _ & Ht).
    pose proof (tiles_le _ _ _ Ht) as Hle.
    set (w := F (k, n, wide) (region_bytes mem (k, n, wide))).
    assert (Hw : zlen w = n).
    { unfold w, zlen. rewrite HF.
      apply (zlen_region_bytes mem (k, n, wide)); cbn [fst snd]; lia. }
    cbn [flat_map]. fold w.
    assert (Ho : o = (pre ++ w)
                     ++ flat_map (fun r => F r (region_bytes mem r)) rest
                     ++ post).
    { unfold o. cbn [flat_map]. fold w. rewrite <- !app_assoc. reflexivity. }
    f_equal.
    + f_equal. unfold region_bytes. cbn [fst snd]. rewrite Ho.
      rewrite <- app_assoc.
      rewrite skipn_app_exact by (unfold zlen in Hpre; lia).
      apply firstn_app_exact. unfold zlen in Hw. lia.
    + rewrite Ho. apply (IH (k + n) stop); try assumption; try lia.
      rewrite zlen_app. lia.
Qed.

(** The values of byte-reversed words. *)
Lemma reversed16_word (b0 b1 : byte) :
  Swapper.reversed16 (Z.lor (byte_val b0) (Z.shiftl (byte_val b1) 8))
  = Z.lor (byte_val b1) (Z.shiftl (byte_val b0) 8).
Proof.
  rewrite !word16_of_bytes. unfold Swapper.reversed16.
  pose proof (byte_val_range b0). pose proof (byte_val_range b1). dlia.
Qed.

Lemma reversed32_word (b0 b1 b2 b3 : byte) :
  Swapper.reversed32
    (Z.lor (Z.lor (byte_val b0) (Z.shiftl (byte_val b1) 8))
       (Z.shiftl (Z.lor (byte_val b2) (Z.shiftl (byte_val b3) 8)) 16))
  = Z.lor (Z.lor (byte_val b3) (Z.shiftl (byte_val b2) 8))
      (Z.shiftl (Z.lor (byte_val b1) (Z.shiftl (byte_val b0) 8)) 16).
Proof.
  pose proof (byte_val_range b0). pose proof (byte_val_range b1).
  pose proof (byte_val_range b2). pose proof (byte_val_range b3).
  rewrite !word16_of_bytes.
  rewrite !word32_of_words by lia.
  unfold Swapper.reversed32.
  replace ((byte_val b0 + 256 * byte_val b1
            + 65536 * (byte_val b2 + 256 * byte_val b3)) mod 65536)
    with (byte_val b0 + 256 * byte_val b1) by dlia.
  replace (((byte_val b0 + 256 * byte_val b1
             + 65536 * (byte_val b2 + 256 * byte_val b3)) / 65536) mod 65536)
    with (byte_val b2 + 256 * byte_val b3) by dlia.
  rewrite <- !word16_of_bytes, !reversed16_word, !word16_of_bytes. lia.
Qed.

Lemma reversed16_involutive (x : Z) :
  0 <= x < 65536 -> Swapper.reversed16 (Swapper.reversed16 x) = x.
Proof. intros H. unfold Swapper.reversed16. dlia. Qed.

Lemma reversed16_range (x : Z) : 0 <= Swapper.reversed16 x < 65536.
Proof. unfold Swapper.reversed16. dlia. Qed.

Lemma reversed32_involutive (x : Z) :
  0 <= x < 4294967296 -> Swapper.reversed32 (Swapper.reversed32 x) = x.
Proof.
  intros H. unfold Swapper.reversed32.
  pose proof (reversed16_range (x mod 65536)) as H1.
  pose proof (reversed16_range ((x / 65536) mod 65536)) as H2.
  replace ((65536 * Swapper.reversed16 (x mod 65536)
            + Swapper.reversed16 ((x / 65536) mod 65536)) mod 65536)
    with (Swapper.reversed16 ((x / 65536) mod 65536)) by dlia.
  replace (((65536 * Swapper.reversed16 (x mod 65536)
             + Swapper.reversed16 ((x / 65536) mod 65536)) / 65536)
           mod 65536)
    with (Swapper.reversed16 (x mod 65536)) by dlia.
  rewrite !reversed16_involutive by dlia. dlia.
Qed.

Lemma reverse_pick_length (x : bool) (wide : bool) (bs : list byte) :
  List.length
    ((if wide
      then if x then Swapper.reverse32 else fun l => l
      else if x then Swapper.reverse16 else fun l => l) bs)
  = List.length bs.
Proof.
  destruct wide, x; auto using reverse16_length, reverse32_length.
Qed.

Lemma reverse_pick_involutive (x : bool) (wide : bool) (bs : list byte) :
  (if wide
   then if x then Swapper.reverse32 else fun l => l
   else if x then Swapper.reverse16 else fun l => l)
    ((if wide
      then if x then Swapper.reverse32 else fun l => l
      else if x then Swapper.reverse16 else fun l => l) bs)
  = bs.
Proof.
  destruct wide, x; auto using reverse16_involutive, reverse32_involutive.
Qed.

(** The header of an image whose header pieces have been converted. *)
Lemma converted_header (x : bool) (mem tail : list byte) (h : UTrie3Header) :
  read_header mem = Some h ->
  read_header
    ((if x then Swapper.reverse32 else fun l => l)
       (region_bytes mem (0, 8, true))
     ++ (if x then Swapper.reverse16 else fun l => l)
          (region_bytes mem (8, 8, false))
     ++ (if x then Swapper.reverse32 else fun l => l)
          (region_bytes mem (16, 8, true))
     ++ tail)
  = Some (if x
          then mkHeader (Swapper.reversed32 (h_signature h))
                 (Swapper.reversed32 (h_options h))
                 (Swapper.reversed16 (h_indexLength h))
                 (Swapper.reversed16 (h_shiftedDataLength h))
                 (Swapper.reversed16 (h_index2NullOffset h))
                 (Swapper.reversed16 (h_shiftedHighStart h))
                 (Swapper.reversed32 (h_highValue h))
                 (Swapper.reversed32 (h_errorValue h))
          else h).
Proof.
  intros H.
  do 24 (destruct mem as [|? mem]; [discriminate H|]).
  cbn -[byte_val Z.lor Z.shiftl] in H. apply Some_eq in H. subst h.
  unfold region_bytes. cbn [fst snd].
  change (Z.to_nat 0) with 0%nat. change (Z.to_nat 8) with 8%nat.
  change (Z.to_nat 16) with 16%nat. cbn [firstn skipn].
  destruct x; cbn [Swapper.reverse32 Swapper.reverse16 app].
  - cbn [h_signature h_options h_indexLength h_shiftedDataLength
         h_index2NullOffset h_shiftedHighStart h_highValue h_errorValue].
    rewrite !reversed32_word, !reversed16_word. reflexivity.
  - reflexivity.
Qed.

(** The second swapper reads from the converted header what the first
    one has read from the header. *)
Lemma converted_fields (a b : bool) (mem : list byte) (h : UTrie3Header) :
  read_header mem = Some h ->
  let h1 :=
    if xorb a b
    then mkHeader (Swapper.reversed32 (h_signature h))
           (Swapper.reversed32 (h_options h))
           (Swapper.reversed16 (h_indexLength h))
           (Swapper.reversed16 (h_shiftedDataLength h))
           (Swapper.reversed16 (h_index2NullOffset h))
           (Swapper.reversed16 (h_shiftedHighStart h))
           (Swapper.reversed32 (h_highValue h))
           (Swapper.reversed32 (h_errorValue h))
    else h in
  readUInt32 (Swapper.make b a) (h_signature h1)
  = readUInt32 (Swapper.make a b) (h_signature h)
  /\ swap_options (Swapper.make b a) h1 = swap_options (Swapper.make a b) h
  /\ swap_indexLength (Swapper.make b a) h1
     = swap_indexLength (Swapper.make a b) h
  /\ swap_dataLength (Swapper.make b a) h1
     = swap_dataLength (Swapper.make a b) h.
Proof.
  intros Hh h1.
  destruct (read_header_ranges mem h Hh) as (Hs & Ho & Hi & Hd & _).
  unfold swap_options, swap_indexLength, swap_dataLength, h1.
  destruct a, b; cbn [xorb Swapper.make readUInt16 readUInt32 h_signature
                      h_options h_indexLength h_shiftedDataLength];
    rewrite ?reversed32_involutive, ?reversed16_involutive by assumption;
    repeat split; reflexivity.
Qed.

(** Converting an image to the other byte order and back gives the image
    again.  For the stand-in swappers: when utrie3_swap, with the swapper
    from one byte order to another, has a size [r] for an image, then the
    call proper writes the converted image, and a second call, with the
    swapper in the opposite direction on what the first call wrote,
    returns the same size and writes the first [r] bytes of the original
    image; behind them the second destination is unchanged, and no
    failure is reported. *)
Theorem utrie3_swap_involutive (inOther outOther : bool)
    (mem out1 out2 : list byte) (length r : Z) (e : UErrorCode) :
  U_FAILURE e = false ->
  utrie3_swap (Some (Swapper.make inOther outOther)) (Some mem) (-1) None e
  = Some (r, None, e) ->
  r <> 0 -> r <= length -> r <= zlen mem -> r <= zlen out1 ->
  r <= zlen out2 ->
  exists o1,
    utrie3_swap (Some (Swapper.make inOther outOther)) (Some mem) length
      (Some out1) e
    = Some (r, Some o1, e)
    /\ utrie3_swap (Some (Swapper.make outOther inOther)) (Some o1) length
         (Some out2) e
       = Some (r,
               Some (firstn (Z.to_nat r) mem ++ skipn (Z.to_nat r) out2),
               e).
Proof.
  intros He Hpre Hr0 Hlen Hmem Hout1 Hout2.
  destruct (swap_result _ _ _ _ _ _ _ _ He Hpre)
    as [(H0 & _)|(d & mem' & h & Hd & Hm & Hh & Hacc & Hsize & _)];
    [contradiction|].
  apply Some_eq in Hd, Hm. subst d mem'.
  set (ds1 := Swapper.make inOther outOther) in *.
  set (ds2 := Swapper.make outOther inOther) in *.
  set (x := xorb inOther outOther).
  set (F := fun (rg : Z * Z * bool) =>
              if snd rg
              then if x then Swapper.reverse32 else fun l : list byte => l
              else if x then Swapper.reverse16 else fun l : list byte => l).
  destruct (swap_refuses_false ds1 h Hacc) as (_ & Hv & _ & Hi & Hdl).
  pose proof (swap_size_min ds1 h Hacc) as Hmin. rewrite <- Hsize in Hmin.
  set (regions := swap_regions (swap_valueBits ds1 h) (swap_indexLength ds1 h)
                    (swap_dataLength ds1 h)).
  assert (Htiles : tiles 0 regions r).
  { subst r. unfold swap_size. change sizeof_UTrie3Header with 24.
    change UTRIE3_16_VALUE_BITS with 0.
    apply swap_regions_tiles; (assumption || lia). }
  assert (Hpure : forall ds m,
            swapArray16 ds
            = Swapper.array_swapper 2
                (if x then Swapper.reverse16 else fun l => l) ->
            swapArray32 ds
            = Swapper.array_swapper 4
                (if x then Swapper.reverse32 else fun l => l) ->
            r <= zlen m ->
            convert ds m regions e
            = (flat_map (fun rg => F rg (region_bytes m rg)) regions, e)).
  { intros ds m H16 H32 Hm.
    rewrite (convert_pure ds _ _ H16 H32 m e regions 0 r Htiles)
      by (assumption || lia).
    reflexivity. }
  (* the first call *)
  destruct (swap_converts ds1 mem out1 length e h He Hh Hacc
              (make_converts_arrays _ _))
    as (Hres1 & Hlen1 & _); try lia.
  fold regions in Hres1, Hlen1.
  rewrite (Hpure ds1 mem eq_refl eq_refl Hmem) in Hres1, Hlen1.
  cbn [fst snd] in Hres1, Hlen1. rewrite <- Hsize in Hres1, Hlen1.
  set (conv := flat_map (fun rg => F rg (region_bytes mem rg)) regions) in *.
  set (o1 := conv ++ skipn (Z.to_nat r) out1) in *.
  exists o1. split; [exact Hres1|].
  (* the header that the second call reads *)
  assert (Hh1 : exists h1,
            read_header o1 = Some h1
            /\ readUInt32 ds2 (h_signature h1) = readUInt32 ds1 (h_signature h)
            /\ swap_options ds2 h1 = swap_options ds1 h
            /\ swap_indexLength ds2 h1 = swap_indexLength ds1 h
            /\ swap_dataLength ds2 h1 = swap_dataLength ds1 h).
  { eexists. split; [|apply (converted_fields inOther outOther mem h Hh)].
    unfold o1, conv, regions, swap_regions. rewrite flat_map_app.
    cbn [flat_map]. unfold F at 1 2 3. cbn [snd]. rewrite <- !app_assoc.
    cbn [app]. rewrite <- ?app_assoc. fold x.
    apply converted_header. assumption. }
  destruct Hh1 as (h1 & Hh1 & Es & Eo & Ei & Ed).
  assert (Ev : swap_valueBits ds2 h1 = swap_valueBits ds1 h).
  { unfold swap_valueBits. rewrite Eo. reflexivity. }
  assert (Hacc2 : swap_refuses ds2 h1 = false).
  { unfold swap_refuses. rewrite Es, Ev, Eo, Ei, Ed. exact Hacc. }
  assert (Hsize2 : swap_size ds2 h1 = r).
  { unfold swap_size. rewrite Ev, Ei, Ed. symmetry. exact Hsize. }
  assert (Ho1 : zlen o1 = zlen out1).
  { unfold o1. rewrite zlen_app, Hlen1, zlen_skipn; lia. }
  (* the second call *)
  destruct (swap_converts ds2 o1 out2 length e h1 He Hh1 Hacc2
              (make_converts_arrays _ _))
    as (Hres2 & _); try lia.
  rewrite Ev, Ei, Ed in Hres2. fold regions in Hres2.
  rewrite (Hpure ds2 o1) in Hres2;
    [|unfold ds2; cbn [Swapper.make swapArray16]; rewrite xorb_comm;
      reflexivity
     |unfold ds2; cbn [Swapper.make swapArray32]; rewrite xorb_comm;
      reflexivity
     |lia].
  cbn [fst snd] in Hres2. rewrite Hsize2 in Hres2. rewrite Hres2.
  do 3 f_equal. f_equal.
  unfold o1. change (conv ++ skipn (Z.to_nat r) out1)
    with ([] ++ conv ++ skipn (Z.to_nat r) out1).
  unfold conv.
  rewrite (tiles_reread F F mem (skipn (Z.to_nat r) out1) regions
             (fun rg bs => reverse_pick_length x (snd rg) bs) 0 r [] Htiles)
    by (reflexivity || lia).
  rewrite (flat_map_ext _ (region_bytes mem))
    by (intros rg; apply reverse_pick_involutive).
  rewrite (tiles_concat mem regions 0 r Htiles) by lia.
  rewrite Z.sub_0_r. reflexivity.
Qed.

Lemma utrie3_swap_involutive_witness :
  exists o1,
    utrie3_swap (Some (Swapper.make false true)) (Some Images.image_low) 4760
      (Some (bytes Images.room)) U_ZERO_ERROR
    = Some (4760, Some o1, U_ZERO_ERROR)
    /\ utrie3_swap (Some (Swapper.make true false)) (Some o1) 4760
         (Some (bytes Images.room)) U_ZERO_ERROR
       = Some (4760,
               Some (firstn (Z.to_nat 4760) Images.image_low
                     ++ skipn (Z.to_nat 4760) (bytes Images.room)),
               U_ZERO_ERROR).
Proof.
  apply (utrie3_swap_involutive false true Images.image_low
           (bytes Images.room) (bytes Images.room) 4760 4760 U_ZERO_ERROR).
  - reflexivity.
  - vm_compute. reflexivity.
  - discriminate.
  - lia.
  - vm_compute. discriminate.
  - vm_compute. discriminate.
  - vm_compute. discriminate.
Defined.
